(** * MathQuill text mode: [src/commands/text.ts]

    A shallow embedding of the text-mode commands of MathQuill ([TextBlock],
    [TextPiece], [TextBlockFuseChildren], [RootMathCommand]) and the
    properties of their editing operations.

    The node tree is kept as the lists of children of the blocks involved:
    a node is named by its id (the engine's [NodeBase.uniqueNodeId]), a
    [NodeRef] is an id or [0] (here [None]), and the sibling links [node[L]],
    [node[R]] and the ends of a block are read off the list.  The cursor and
    the anticursor hold ids, so a pointer to a node that has left the tree
    stays representable (and stale), as in the source. *)

From Stdlib Require Import String Ascii List ZArith Lia Bool Arith.
Import ListNotations.

Open Scope string_scope.
Open Scope list_scope.

(** String concatenation, JavaScript's [+] on strings; [++] is kept for
    lists. *)
Infix "+++" := String.append (right associativity, at level 60).

(* ================================================================== *)
(** * JavaScript strings *)
(* ================================================================== *)

Module Str.

(** The first [n] code units of [s]. *)
Fixpoint take (n : nat) (s : string) : string :=
  match n, s with
  | S k, String c r => String c (take k r)
  | _, _ => EmptyString
  end.

(** [s] without its first [n] code units. *)
Fixpoint drop (n : nat) (s : string) : string :=
  match n, s with
  | S k, String c r => drop k r
  | _, _ => s
  end.

(** A relative index of [String.prototype.slice]: negative counts from the
    end, and the result is clamped to [0..len]. *)
Definition rel_index (len : nat) (k : Z) : nat :=
  if (k <? 0)%Z then Z.to_nat (Z.max (Z.of_nat len + k) 0)
  else Nat.min (Z.to_nat k) len.

(** [s.slice(b, e)]; [e = None] is the one-argument call [s.slice(b)]. *)
Definition slice (s : string) (b : Z) (e : option Z) : string :=
  let len := String.length s in
  let from := rel_index len b in
  let to := match e with Some e => rel_index len e | None => len end in
  take (to - from) (drop from s).

(** [s.charAt(i)]: the empty string when [i] is out of range.  [s[i]] is read
    through it as well; the source indexes only inside the string. *)
Definition charAt (s : string) (i : Z) : string :=
  if (i <? 0)%Z then EmptyString else take 1 (drop (Z.to_nat i) s).

(** [s.length], a JavaScript number. *)
Definition len (s : string) : Z := Z.of_nat (String.length s).

End Str.

(* ================================================================== *)
(** * Results of operations that may abort *)
(* ================================================================== *)

(** [Throw] is an uncaught exception: a failed [pray] (the tree's fatal
    assertions) or a [TypeError] on a property of [0]. *)
Inductive Result (A : Type) : Type :=
| Ok (a : A)
| Throw (msg : string).
Arguments Ok {A} a.
Arguments Throw {A} msg.

(** State-and-exception monad: the code mutates one shared tree and cursor. *)
Definition St (S A : Type) : Type := S -> Result (A * S).

Definition ret {S A} (a : A) : St S A := fun st => Ok (a, st).

Definition bind {S A B} (m : St S A) (k : A -> St S B) : St S B :=
  fun st => match m st with
            | Ok (a, st') => k a st'
            | Throw e => Throw e
            end.

Definition throw {S A} (msg : string) : St S A := fun _ => Throw msg.

Definition gets {S A} (f : S -> A) : St S A := fun st => Ok (f st, st).

Definition modify {S} (f : S -> S) : St S unit := fun st => Ok (tt, f st).

Declare Scope st_scope.
Delimit Scope st_scope with st.
Notation "x <- m ;; k" := (bind m (fun x => k))
  (at level 61, m at next level, right associativity) : st_scope.
Notation "m ;;; k" := (bind m (fun _ => k))
  (at level 61, right associativity) : st_scope.

(* ================================================================== *)
(** * The tree primitive: children of one block *)
(* ================================================================== *)

(** Directions: [L] is [-1] and [R] is [1] in the source. *)
Inductive Direction : Type := L | R.

(** [-dir]. *)
Definition opp (dir : Direction) : Direction :=
  match dir with L => R | R => L end.

(** [dir as number]. *)
Definition dir_num (dir : Direction) : Z :=
  match dir with L => (-1)%Z | R => 1%Z end.

(** [NodeRef = MQNode | 0]: [None] is the falsy [0]. *)
Definition NodeRef : Type := option nat.

Definition ref_eqb (a b : NodeRef) : bool :=
  match a, b with
  | Some x, Some y => Nat.eqb x y
  | None, None => true
  | _, _ => false
  end.

(** Nodes carry the id the engine gives them at construction. *)
Class Ident (A : Type) : Type := { ident : A -> nat }.

Section Siblings.
Context {A : Type} `{Ident A}.

Definition head_id (l : list A) : NodeRef :=
  match l with [] => None | x :: _ => Some (ident x) end.

Fixpoint last_id (l : list A) : NodeRef :=
  match l with
  | [] => None
  | [x] => Some (ident x)
  | _ :: r => last_id r
  end.

(** [parent.getEnd(dir)]. *)
Definition getEnd (dir : Direction) (l : list A) : NodeRef :=
  match dir with L => head_id l | R => last_id l end.

(** The child with id [n]. *)
Fixpoint find_node (n : nat) (l : list A) : option A :=
  match l with
  | [] => None
  | x :: r => if Nat.eqb (ident x) n then Some x else find_node n r
  end.

(** [node[R]] for the child [n]. *)
Fixpoint rightOf (n : nat) (l : list A) : NodeRef :=
  match l with
  | [] => None
  | x :: r => if Nat.eqb (ident x) n then head_id r else rightOf n r
  end.

Fixpoint leftOf_from (prev : NodeRef) (n : nat) (l : list A) : NodeRef :=
  match l with
  | [] => None
  | x :: r => if Nat.eqb (ident x) n then prev
              else leftOf_from (Some (ident x)) n r
  end.

(** [node[L]] for the child [n]. *)
Definition leftOf (n : nat) (l : list A) : NodeRef := leftOf_from None n l.

(** [node[dir]]. *)
Definition sibling (dir : Direction) (n : nat) (l : list A) : NodeRef :=
  match dir with L => leftOf n l | R => rightOf n l end.

(** [node.disown()]: the child [n] leaves the list; its neighbours are
    linked to each other. *)
Fixpoint disown (n : nat) (l : list A) : list A :=
  match l with
  | [] => []
  | x :: r => if Nat.eqb (ident x) n then r else x :: disown n r
  end.

(** The content of the child [n] replaced by [f] of it. *)
Fixpoint update (n : nat) (f : A -> A) (l : list A) : list A :=
  match l with
  | [] => []
  | x :: r => if Nat.eqb (ident x) n then f x :: r else x :: update n f r
  end.

(** The gap of the list that has [leftward] on its left and [rightward] on
    its right, as [prayWellFormed(parent, leftward, rightward)] demands it:
    an absent neighbour stands for the end of the block, a present one must
    be a child whose link on that side is the other neighbour. *)
Fixpoint gap_from (prev leftward rightward : NodeRef) (l : list A)
  : option (list A * list A) :=
  if ref_eqb prev leftward && ref_eqb (head_id l) rightward
  then Some ([], l)
  else match l with
       | [] => None
       | x :: r =>
           match gap_from (Some (ident x)) leftward rightward r with
           | Some (a, b) => Some (x :: a, b)
           | None => None
           end
       end.

Definition gapAt (leftward rightward : NodeRef) (l : list A)
  : option (list A * list A) :=
  gap_from None leftward rightward l.

(** Modelled from the spec: the tree primitive (section 6, "adopt a node as a
    child at a given position among existing children") is not under src/.
    [node.adopt(parent, leftward, rightward)] on the children [l] of
    [parent]; the position must be well formed (section 7: consistency
    checks are fatal assertions). *)
Definition adopt (x : A) (leftward rightward : NodeRef) (l : list A)
  : Result (list A) :=
  match gapAt leftward rightward l with
  | Some (a, b) => Ok (a ++ x :: b)
  | None => Throw "prayWellFormed"
  end.

(** The ids of the children, in order. *)
Definition ids (l : list A) : list nat := map ident l.

(** The last id of [pre], or [prev] when [pre] is empty. *)
Definition last_or (prev : NodeRef) (pre : list A) : NodeRef :=
  match pre with [] => prev | _ => last_id pre end.

(** [this[dir]] read off the two sides of [this]. *)
Definition neighbour (dir : Direction) (pre post : list A) : NodeRef :=
  match dir with L => last_id pre | R => head_id post end.

(** The ids a reference names. *)
Definition ref_ids (r : NodeRef) : list nat :=
  match r with Some n => [n] | None => [] end.

End Siblings.

(* ================================================================== *)
(** * The rendered container of a text block *)
(* ================================================================== *)

(** A child of the block's span: a DOM Text node with its data, or an
    element (the cursor's or a selection's span). *)
Inductive DomNode : Type :=
| DText (data : string)
| DElement (tag : string).

(** [Node.normalize()]: no empty Text node is left, and no two Text nodes
    are adjacent (they are merged). *)
Fixpoint normalize (l : list DomNode) : list DomNode :=
  match l with
  | [] => []
  | DText d :: r =>
      match d with
      | EmptyString => normalize r
      | _ => match normalize r with
             | DText d' :: r' => DText (d +++ d') :: r'
             | r' => DText d :: r'
             end
      end
  | DElement t :: r => DElement t :: normalize r
  end.

(** [children.oneText()]: the fragment is one node, a Text node. *)
Definition oneText (children : list DomNode) : option string :=
  match children with
  | [DText d] => Some d
  | _ => None
  end.

(* ================================================================== *)
(** * Text pieces, text blocks, cursor *)
(* ================================================================== *)

(** [class TextPiece]: a leaf with its [textStr]. *)
Record TextPiece : Type := mkTextPiece {
  pc_id : nat;
  textStr : string
}.

#[export] Instance TextPiece_Ident : Ident TextPiece := { ident := pc_id }.

(** [class TextBlock]: [anticursorPosition] is [undefined] ([None]) until
    [seek] caches one. *)
Record TextBlock : Type := mkTextBlock {
  tb_id : nat;
  ctrlSeq : string;
  anticursorPosition : option Z;
  kids : list TextPiece
}.

(** [Anticursor]: a (parent, left, right) point. *)
Record Anticursor : Type := mkAnticursor {
  a_parent : nat;
  a_L : NodeRef;
  a_R : NodeRef
}.

(** [Cursor]: a point, with the anticursor of a selection in progress. *)
Record Cursor : Type := mkCursor {
  parent : nat;
  c_L : NodeRef;
  c_R : NodeRef;
  anticursor : option Anticursor
}.

(** [cursor[dir]]. *)
Definition cursor_at (dir : Direction) (c : Cursor) : NodeRef :=
  match dir with L => c_L c | R => c_R c end.

(** [cursor[dir] = v]. *)
Definition cursor_set (dir : Direction) (v : NodeRef) (c : Cursor) : Cursor :=
  match dir with
  | L => mkCursor (parent c) v (c_R c) (anticursor c)
  | R => mkCursor (parent c) (c_L c) v (anticursor c)
  end.

(** [anticursor[dir]]. *)
Definition anti_at (dir : Direction) (a : Anticursor) : NodeRef :=
  match dir with L => a_L a | R => a_R a end.

(** [anticursor[dir] = v]. *)
Definition anti_set (dir : Direction) (v : NodeRef) (a : Anticursor)
  : Anticursor :=
  match dir with
  | L => mkAnticursor (a_parent a) v (a_R a)
  | R => mkAnticursor (a_parent a) (a_L a) v
  end.

(** [Anticursor.fromCursor(cursor)]. *)
Definition fromCursor (c : Cursor) : Anticursor :=
  mkAnticursor (parent c) (c_L c) (c_R c).

(** What the accessibility hook was handed: [aria.queue(s)], [aria.alert(s)]. *)
Inductive AriaEvent : Type :=
| Queue (s : string)
| Alert (s : string).

(** A text block with the cursor, the accessibility log and the id counter:
    what the methods of [TextPiece] read and write.  They are reached through
    the cursor ([cursor[dir].moveTowards(dir, cursor)]), whose parent is then
    the block of the piece. *)
Record Region : Type := mkRegion {
  blk : TextBlock;
  cursor : Cursor;
  aria : list AriaEvent;
  nextId : nat
}.

Definition M : Type -> Type := St Region.

Definition set_kids (k : list TextPiece) (st : Region) : Region :=
  mkRegion (mkTextBlock (tb_id (blk st)) (ctrlSeq (blk st))
              (anticursorPosition (blk st)) k)
           (cursor st) (aria st) (nextId st).

Definition set_cursor (c : Cursor) (st : Region) : Region :=
  mkRegion (blk st) c (aria st) (nextId st).

Definition set_anticursorPosition (p : option Z) (st : Region) : Region :=
  mkRegion (mkTextBlock (tb_id (blk st)) (ctrlSeq (blk st)) p (kids (blk st)))
           (cursor st) (aria st) (nextId st).

Definition set_anticursor (a : option Anticursor) (st : Region) : Region :=
  set_cursor (mkCursor (parent (cursor st)) (c_L (cursor st))
                (c_R (cursor st)) a) st.

Section RegionPrimitives.
Local Open Scope st_scope.

(** The piece [this], a child of the block. *)
Definition getPiece (this : nat) : M TextPiece :=
  fun st => match find_node this (kids (blk st)) with
            | Some p => Ok (p, st)
            | None => Throw "node is not in the tree"
            end.

(** [this.textStr = s]. *)
Definition setTextStr (this : nat) (s : string) : M unit :=
  modify (fun st =>
    set_kids (update this (fun p => mkTextPiece (pc_id p) s) (kids (blk st))) st).

(** [NodeBase.uniqueNodeId()], drawn by every constructor. *)
Definition newId : M nat :=
  fun st => Ok (nextId st,
                mkRegion (blk st) (cursor st) (aria st) (S (nextId st))).

(** [this[dir]]. *)
Definition node_at (dir : Direction) (this : nat) : M NodeRef :=
  gets (fun st => sibling dir this (kids (blk st))).

(** [p.adopt(block, leftward, rightward)]. *)
Definition adoptPiece (p : TextPiece) (leftward rightward : NodeRef) : M unit :=
  fun st => match adopt p leftward rightward (kids (blk st)) with
            | Ok k => Ok (tt, set_kids k st)
            | Throw e => Throw e
            end.

(** [this.remove()]: the piece leaves the tree.  The removed object keeps its
    own [L] and [R] links; where the source reads them after the removal,
    the embedding reads the neighbour just before it. *)
Definition remove (this : nat) : M unit :=
  modify (fun st => set_kids (disown this (kids (blk st))) st).

Definition cursorAt (dir : Direction) : M NodeRef :=
  gets (fun st => cursor_at dir (cursor st)).

Definition setCursorAt (dir : Direction) (v : NodeRef) : M unit :=
  modify (fun st => set_cursor (cursor_set dir v (cursor st)) st).

(** [cursor.controller.aria.queue(s)]. *)
Definition aria_queue (s : string) : M unit :=
  modify (fun st => mkRegion (blk st) (cursor st) (aria st ++ [Queue s])
                      (nextId st)).

(** Modelled from the spec: [MQNode.createDir] is not under src/ (section 6,
    adopt at the cursor).  [new TextPiece(text).createDir(dir, cursor)]:
    the new piece is adopted between the cursor's neighbours and becomes
    [cursor[dir]]. *)
Definition createDir (text : string) (dir : Direction) : M nat :=
  n <- newId ;;
  c <- gets cursor ;;
  adoptPiece (mkTextPiece n text) (c_L c) (c_R c) ;;;
  setCursorAt dir (Some n) ;;;
  ret n.

(** Modelled from the spec: [Cursor.insDirOf] is not under src/.
    [cursor.insDirOf(dir, el)] for a piece [el] of the block: the cursor
    stands on the [dir] side of [el]. *)
Definition insDirOf (dir : Direction) (el : nat) : M unit :=
  nb <- node_at dir el ;;
  modify (fun st =>
    set_cursor (cursor_set dir nb (cursor_set (opp dir) (Some el)
                  (mkCursor (tb_id (blk st)) None None (anticursor (cursor st)))))
               st).

(** Modelled from the spec: [Cursor.insAtDirEnd] is not under src/.
    [cursor.insAtDirEnd(dir, block)]: the cursor stands inside the block at
    its [dir] end. *)
Definition insAtDirEnd (dir : Direction) : M unit :=
  modify (fun st =>
    set_cursor (cursor_set dir None (cursor_set (opp dir)
                  (getEnd dir (kids (blk st)))
                  (mkCursor (tb_id (blk st)) None None (anticursor (cursor st)))))
               st).

End RegionPrimitives.

(* ================================================================== *)
(** * [class TextPiece] *)
(* ================================================================== *)

Section TextPieceMethods.
Local Open Scope st_scope.

(** [appendText(text)]: [this.textStr += text], the Text node alike. *)
Definition appendText (this : nat) (text : string) : M unit :=
  p <- getPiece this ;;
  setTextStr this (textStr p +++ text).

(** [prependText(text)]: [this.textStr = text + this.textStr]. *)
Definition prependText (this : nat) (text : string) : M unit :=
  p <- getPiece this ;;
  setTextStr this (text +++ textStr p).

(** [insTextAtDirEnd(text, dir)].  [prayDirection(dir)] cannot fail on a
    [Direction]. *)
Definition insTextAtDirEnd (this : nat) (text : string) (dir : Direction)
  : M unit :=
  match dir with
  | R => appendText this text
  | L => prependText this text
  end.

(** [splitRight(i)]: a new piece with [textStr.slice(i)] is adopted between
    [this] and [this[R]]; [this] keeps [textStr.slice(0, i)]. *)
Definition splitRight (this : nat) (i : Z) : M nat :=
  p <- getPiece this ;;
  r <- node_at R this ;;
  n <- newId ;;
  adoptPiece (mkTextPiece n (Str.slice (textStr p) i None)) (Some this) r ;;;
  setTextStr this (Str.slice (textStr p) 0 (Some i)) ;;;
  ret n.

(** [endChar(dir, text)]. *)
Definition endChar (dir : Direction) (text : string) : string :=
  Str.charAt text (match dir with
                   | L => 0
                   | R => -1 + Str.len text
                   end)%Z.

(** [deleteTowards(dir, cursor)]. *)
Definition deleteTowards (this : nat) (dir : Direction) : M unit :=
  p <- getPiece this ;;
  if (1 <? Str.len (textStr p))%Z then
    match dir with
    | R =>
        let deletedChar := Str.charAt (textStr p) 0 in
        setTextStr this (Str.slice (textStr p) 1 None) ;;;
        aria_queue deletedChar
    | L =>
        let deletedChar := Str.charAt (textStr p) (Str.len (textStr p) - 1) in
        setTextStr this (Str.slice (textStr p) 0 (Some (-1)%Z)) ;;;
        aria_queue deletedChar
    end
  else
    thisDir <- node_at dir this ;;
    remove this ;;;
    setCursorAt dir thisDir ;;;
    aria_queue (textStr p).

(** [moveTowards(dir, cursor)]. *)
Definition moveTowards (this : nat) (dir : Direction) : M unit :=
  p <- getPiece this ;;
  let ch := endChar (opp dir) (textStr p) in
  from <- node_at (opp dir) this ;;
  match from with
  | Some f => insTextAtDirEnd f ch dir
  | None => createDir ch (opp dir) ;;; ret tt
  end ;;;
  deleteTowards this dir.

(** [selectTowards(dir, cursor)].  The selection's own span is rendering
    only. *)
Definition selectTowards (this : nat) (dir : Direction) : M unit :=
  c <- gets cursor ;;
  match anticursor c with
  | None => ret tt
  | Some a =>
      p <- getPiece this ;;
      let ch := endChar (opp dir) (textStr p) in
      (if ref_eqb (anti_at dir a) (Some this) then
         newPc <- createDir ch dir ;;
         modify (fun st => set_anticursor (Some (anti_set dir (Some newPc) a)) st) ;;;
         insDirOf dir newPc
       else
         from <- node_at (opp dir) this ;;
         match from with
         | Some f => insTextAtDirEnd f ch dir
         | None => createDir ch (opp dir) ;;; ret tt
         end ;;;
         if (Str.len (textStr p) =? 1)%Z
            && ref_eqb (anti_at (opp dir) a) (Some this)
         then
           thisOpp <- node_at (opp dir) this ;;
           modify (fun st =>
             set_anticursor (Some (anti_set (opp dir) thisOpp a)) st)
         else ret tt) ;;;
      deleteTowards this dir
  end.

End TextPieceMethods.

(* ================================================================== *)
(** * [TextBlock.parser] *)
(* ================================================================== *)

(** Modelled from the spec: the parser combinators ([Parser.string],
    [Parser.regex], [Parser.optWhitespace], [then], [skip], [map]) are not
    under src/ (section 4.1, Parse-from-source).  A parser reads a prefix of
    the input and gives a value and the rest, or fails. *)
Definition Parser (A : Type) : Type := string -> option (A * string).

(** The longest prefix whose characters all satisfy [f], and the rest:
    [regex(/^[class]*/)]. *)
Fixpoint span_while (f : ascii -> bool) (s : string) : string * string :=
  match s with
  | EmptyString => (EmptyString, EmptyString)
  | String c r =>
      if f c then let (a, b) := span_while f r in (String c a, b)
      else (EmptyString, s)
  end.

Definition p_regex_class (f : ascii -> bool) : Parser string :=
  fun s => Some (span_while f s).

Fixpoint strip_prefix (lit s : string) : option string :=
  match lit, s with
  | EmptyString, _ => Some s
  | String a l, String b r => if Ascii.eqb a b then strip_prefix l r else None
  | _, _ => None
  end.

(** [string(lit)]. *)
Definition p_string (lit : string) : Parser string :=
  fun s => match strip_prefix lit s with
           | Some r => Some (lit, r)
           | None => None
           end.

(** [p.then(q)]: the value of [q]. *)
Definition p_then {A B : Type} (p : Parser A) (q : Parser B) : Parser B :=
  fun s => match p s with
           | Some (_, r) => q r
           | None => None
           end.

(** [p.skip(q)]: the value of [p]. *)
Definition p_skip {A B : Type} (p : Parser A) (q : Parser B) : Parser A :=
  fun s => match p s with
           | Some (a, r) => match q r with
                            | Some (_, r') => Some (a, r')
                            | None => None
                            end
           | None => None
           end.

(** [p.map(f)]. *)
Definition p_map {A B : Type} (f : A -> B) (p : Parser A) : Parser B :=
  fun s => match p s with
           | Some (a, r) => Some (f a, r)
           | None => None
           end.

(** The class [\s], on code units below 256. *)
Definition is_space (c : ascii) : bool :=
  let n := nat_of_ascii c in
  (Nat.leb 9 n && Nat.leb n 13) || Nat.eqb n 32 || Nat.eqb n 160.

(** [optWhitespace]: [regex(/^\s*/)]. *)
Definition optWhitespace : Parser string := p_regex_class is_space.

(** What the parser's [map] returns: an empty [Fragment], or the block. *)
Inductive Parsed : Type :=
| EmptyFragment
| ParsedBlock (tb : TextBlock).

(** [parser()] of the block [textBlock]; [n] is the id the new piece draws. *)
Definition TextBlock_parser (textBlock : TextBlock) (n : nat)
  : Parser (Result Parsed) :=
  p_map
    (fun text =>
       if (Str.len text =? 0)%Z then Ok EmptyFragment
       else
         match adopt (mkTextPiece n text) None None (kids textBlock) with
         | Ok k =>
             Ok (ParsedBlock
                   (mkTextBlock (tb_id textBlock) (ctrlSeq textBlock)
                      (anticursorPosition textBlock) k))
         | Throw e => Throw e
         end)
    (p_skip
       (p_then (p_then optWhitespace (p_string "{"))
          (p_regex_class (fun c => negb (Ascii.eqb c "}"))))
       (p_string "}")).

(* ================================================================== *)
(** * [class TextBlock], inside the block *)
(* ================================================================== *)

(** [foldChildren('', (text, child) => text + child.textStr)] over the
    children [k]. *)
Definition text_of (k : list TextPiece) : string :=
  fold_left (fun text child => text +++ textStr child) k "".

(** [textContents()]. *)
Definition textContents (tb : TextBlock) : string := text_of (kids tb).

(** [s.replace(/\\/g, '\\backslash ')]. *)
Fixpoint replace_backslash (s : string) : string :=
  match s with
  | EmptyString => EmptyString
  | String c r =>
      if Ascii.eqb c "\" then "\backslash " +++ replace_backslash r
      else String c (replace_backslash r)
  end.

(** [s.replace(/[{}]/g, '\\$&')]. *)
Fixpoint replace_braces (s : string) : string :=
  match s with
  | EmptyString => EmptyString
  | String c r =>
      if Ascii.eqb c "{" || Ascii.eqb c "}"
      then String "\" (String c (replace_braces r))
      else String c (replace_braces r)
  end.

(** [latex()]. *)
Definition latex (tb : TextBlock) : string :=
  let contents := textContents tb in
  if (Str.len contents =? 0)%Z then ""
  else ctrlSeq tb +++ "{" +++ replace_braces (replace_backslash contents) +++ "}".

Section TextBlockInside.
Local Open Scope st_scope.

(** [TextBlockFuseChildren(self)], on the children [span] of the block's
    rendered container. *)
Definition TextBlockFuseChildren (span : list DomNode) : M (option nat) :=
  let children := normalize span in
  match children with
  | [] => ret None
  | _ =>
      match oneText children with
      | Some data =>
          n <- newId ;;
          modify (set_kids []) ;;;
          adoptPiece (mkTextPiece n data) None None ;;;
          ret (Some n)
      | None => throw "only node in TextBlock span is Text node"
      end
  end.

(** The rendered container when it mirrors the tree: one Text node per
    piece, holding its [textStr]. *)
Definition mirror (k : list TextPiece) : list DomNode :=
  map (fun p => DText (textStr p)) k.

(** [cursorL && cursorL.textStr.length]: [0] when there is no [cursor[L]]. *)
Definition cursorPosition : M Z :=
  cursorL <- cursorAt L ;;
  match cursorL with
  | None => ret 0%Z
  | Some l => p <- getPiece l ;; ret (Str.len (textStr p))
  end.

(** The end of [seek(clientX, cursor)] (from [if (!cursor.anticursor)]):
    the anticursor of a mouse selection is cached or put back.  An
    [undefined] cached position compares false both ways and, as a split
    index, slices like [0]. *)
Definition seek_anticursor : M unit :=
  c <- gets cursor ;;
  this <- gets (fun st => tb_id (blk st)) ;;
  match anticursor c with
  | None =>
      pos <- cursorPosition ;;
      modify (set_anticursorPosition (Some pos))
  | Some a =>
      if Nat.eqb (a_parent a) this then
        cursorL <- cursorAt L ;;
        pos <- cursorPosition ;;
        cached <- gets (fun st => anticursorPosition (blk st)) ;;
        if match cached with Some ap => (ap =? pos)%Z | None => false end then
          modify (fun st => set_anticursor (Some (fromCursor (cursor st))) st)
        else
          newTextPc <-
            (if match cached with Some ap => (ap <? pos)%Z | None => false end
             then
               match cursorL with
               | Some l =>
                   n <- splitRight l (match cached with Some ap => ap | None => 0%Z end) ;;
                   setCursorAt L (Some n) ;;;
                   ret n
               | None => throw "TypeError: splitRight of 0"
               end
             else
               cursorR <- cursorAt R ;;
               match cursorR with
               | Some r =>
                   splitRight r (match cached with
                                 | Some ap => (ap - pos)%Z
                                 | None => 0%Z
                                 end)
               | None => throw "TypeError: splitRight of 0"
               end) ;;
          newL <- node_at L newTextPc ;;
          modify (set_anticursor (Some (mkAnticursor this newL (Some newTextPc))))
      else ret tt
  end.

End TextBlockInside.

Section Seek.
Local Open Scope st_scope.

(** What [seek(clientX, cursor)] measures on the rendered text is given,
    not computed: [approxPosition] is
    [Math.round((clientX - left) / avgChWidth)] when the Text node has
    exactly one client rectangle and [None] otherwise; [displacement] is
    [clientX] minus the left edge of the cursor's rectangle.  Both are read
    off the state at hand; pixels are counted in whole units. *)
Variable approxPosition : Region -> option Z.
Variable displacement : Region -> Z.

(** The [while (cursor[dir] && displ * prevDispl > 0)] loop; it returns
    [displ] and [prevDispl].  Every step takes one character from the
    [dir] side of the cursor, so [fuel] above their number is never used
    up. *)
Fixpoint seek_steps (fuel : nat) (dir : Direction) (displ prevDispl : Z)
  : M (Z * Z) :=
  match fuel with
  | O => throw "out of fuel"
  | S k =>
      cursorDir <- cursorAt dir ;;
      match cursorDir with
      | Some n =>
          if (displ * prevDispl >? 0)%Z then
            moveTowards n dir ;;;
            displ' <- gets displacement ;;
            seek_steps k dir displ' displ
          else ret (displ, prevDispl)
      | None => ret (displ, prevDispl)
      end
  end.

(** The first guess (from [const textNode = ...] to the [else] of
    [rects.length === 1]): the cursor is put at the character the linear
    estimate strikes, [textPc] being the one piece the fuse left. *)
Definition seek_place (textPc : nat) : M unit :=
  approx <- gets approxPosition ;;
  match approx with
  | Some approxPosition =>
      p <- getPiece textPc ;;
      if (approxPosition <=? 0)%Z then insAtDirEnd L
      else if (approxPosition >=? Str.len (textStr p))%Z then insAtDirEnd R
      else n <- splitRight textPc approxPosition ;; insDirOf L n
  | None => insAtDirEnd L
  end.

(** The correction (from [var displ] to the step back): the cursor walks
    towards [clientX] while the displacement keeps its sign, and steps back
    once when it overshot.  [displ && displ < 0 ? L : R] is [L] exactly
    when [displ] is negative. *)
Definition seek_refine : M unit :=
  displ <- gets displacement ;;
  let dir := if (displ <? 0)%Z then L else R in
  fuel <- gets (fun st => S (String.length (textContents (blk st)))) ;;
  r <- seek_steps fuel dir displ (dir_num dir) ;;
  if (dir_num dir * fst r <? - dir_num dir * snd r)%Z then
    back <- cursorAt (opp dir) ;;
    match back with
    | Some n => moveTowards n (opp dir)
    | None => throw "TypeError: moveTowards of 0"
    end
  else ret tt.

(** [seek(clientX, cursor)].  The cursor's own element is hidden first, so
    the rendered container holds the Text nodes of the pieces only: it is
    taken to mirror the tree. *)
Definition seek : M unit :=
  span <- gets (fun st => mirror (kids (blk st))) ;;
  textPc <- TextBlockFuseChildren span ;;
  match textPc with
  | None => ret tt
  | Some textPc =>
      seek_place textPc ;;;
      seek_refine ;;;
      seek_anticursor
  end.

End Seek.

(** Modelled from the spec: [Cursor.startSelection] is not under src/
    (section 3, the anticursor is the cursor's point captured at selection
    start).  [cursor.startSelection()]. *)
Definition startSelection (st : Region) : Region :=
  set_anticursor (Some (fromCursor (cursor st))) st.

(* ================================================================== *)
(** * The enclosing block: text blocks among their siblings *)
(* ================================================================== *)

(** A [VanillaSymbol] or a node of a math block: its id and control
    sequence. *)
Record Symbol : Type := mkSymbol {
  sym_id : nat;
  sym_ctrlSeq : string
}.

#[export] Instance Symbol_Ident : Ident Symbol := { ident := sym_id }.

(** The children of the enclosing block: text blocks, symbols, and
    [RootMathCommand]s with their one inner block ([block] is its id,
    [inner] its children). *)
Inductive Item : Type :=
| ITextBlock (tb : TextBlock)
| IVanillaSymbol (s : Symbol)
| IRootMathCommand (id : nat) (block : nat) (inner : list Symbol).

#[export] Instance Item_Ident : Ident Item :=
  { ident := fun it => match it with
                       | ITextBlock tb => tb_id tb
                       | IVanillaSymbol s => sym_id s
                       | IRootMathCommand id _ _ => id
                       end }.

(** The enclosing block [root] with its children, the cursor, the
    accessibility log and the id counter. *)
Record Doc : Type := mkDoc {
  root : nat;
  items : list Item;
  d_cursor : Cursor;
  d_aria : list AriaEvent;
  d_nextId : nat
}.

Definition D : Type -> Type := St Doc.

Definition set_items (l : list Item) (d : Doc) : Doc :=
  mkDoc (root d) l (d_cursor d) (d_aria d) (d_nextId d).

Definition set_d_cursor (c : Cursor) (d : Doc) : Doc :=
  mkDoc (root d) (items d) c (d_aria d) (d_nextId d).

Section DocPrimitives.
Local Open Scope st_scope.

(** A method of the text block [this] run on the block inside the tree. *)
Definition zoom {A : Type} (this : nat) (m : M A) : D A :=
  fun d =>
    match find_node this (items d) with
    | Some (ITextBlock tb) =>
        match m (mkRegion tb (d_cursor d) (d_aria d) (d_nextId d)) with
        | Ok (a, r) =>
            Ok (a, mkDoc (root d)
                     (update this (fun _ => ITextBlock (blk r)) (items d))
                     (cursor r) (aria r) (nextId r))
        | Throw e => Throw e
        end
    | _ => Throw "node is not in the tree"
    end.

Definition getTextBlock (this : nat) : D TextBlock :=
  fun d => match find_node this (items d) with
           | Some (ITextBlock tb) => Ok (tb, d)
           | _ => Throw "node is not in the tree"
           end.

Definition d_newId : D nat :=
  fun d => Ok (d_nextId d,
               mkDoc (root d) (items d) (d_cursor d) (d_aria d) (S (d_nextId d))).

Definition d_node_at (dir : Direction) (this : nat) : D NodeRef :=
  gets (fun d => sibling dir this (items d)).

Definition d_setCursorAt (dir : Direction) (v : NodeRef) : D unit :=
  modify (fun d => set_d_cursor (cursor_set dir v (d_cursor d)) d).

(** Modelled from the spec: [Cursor.insDirOf] is not under src/.
    [cursor.insDirOf(dir, el)] for a child [el] of the enclosing block:
    [insRightOf(el)] is [dir = R], [insLeftOf(el)] is [dir = L].  The loss
    of focus of the block the cursor leaves ([blur]) is a step of its
    own. *)
Definition d_insDirOf (dir : Direction) (el : nat) : D unit :=
  nb <- d_node_at dir el ;;
  modify (fun d =>
    set_d_cursor (cursor_set dir nb (cursor_set (opp dir) (Some el)
                    (mkCursor (root d) None None (anticursor (d_cursor d)))))
                 d).

(** Modelled from the spec: [MQNode.createDir] is not under src/.
    [node.createDir(dir, cursor)]: the node is adopted into the cursor's
    parent between the cursor's neighbours and becomes [cursor[dir]].  Only
    the enclosing block can adopt here. *)
Definition d_createDir (node : Item) (dir : Direction) : D unit :=
  c <- gets d_cursor ;;
  r <- gets root ;;
  if Nat.eqb (parent c) r then
    (fun d => match adopt node (c_L c) (c_R c) (items d) with
              | Ok l => Ok (tt, set_items l d)
              | Throw e => Throw e
              end) ;;;
    d_setCursorAt dir (Some (ident node))
  else throw "prayWellFormed".

(** [cursor.controller.aria.alert(s)]. *)
Definition d_aria_alert (s : string) : D unit :=
  modify (fun d => mkDoc (root d) (items d) (d_cursor d)
                     (d_aria d ++ [Alert s]) (d_nextId d)).

(** The [RootMathCommand] whose inner block is [this], with the block's
    children. *)
Fixpoint find_block (this : nat) (l : list Item) : option (nat * list Symbol) :=
  match l with
  | [] => None
  | IRootMathCommand id b inner :: r =>
      if Nat.eqb b this then Some (id, inner) else find_block this r
  | _ :: r => find_block this r
  end.

Definition getBlock (this : nat) : D (nat * list Symbol) :=
  fun d => match find_block this (items d) with
           | Some x => Ok (x, d)
           | None => Throw "node is not in the tree"
           end.

(** [command.isEmpty()]: every block of the command is empty. *)
Definition isEmptyItem (it : Item) : bool :=
  match it with
  | ITextBlock tb => match kids tb with [] => true | _ => false end
  | IVanillaSymbol _ => true
  | IRootMathCommand _ _ inner => match inner with [] => true | _ => false end
  end.

End DocPrimitives.

(* ================================================================== *)
(** * [TextBlock.write], [TextBlock.blur] *)
(* ================================================================== *)

Section TextBlockWrite.
Local Open Scope st_scope.

(** [cursor.show().deleteSelection()]: the cursor is not under src/; the
    call is taken as it is, a change of the tree and the cursor. *)
Variable deleteSelection : Doc -> Doc.

(** [write(cursor, ch)].  The upward [reflow] changes rendering only. *)
Definition TextBlock_write (this : nat) (ch : string) : D unit :=
  modify deleteSelection ;;;
  (if negb (String.eqb ch "$") then
     zoom this
       (cursorL <- cursorAt L ;;
        match cursorL with
        | None => createDir ch L ;;; ret tt
        | Some l => appendText l ch
        end)
   else
     tb <- getTextBlock this ;;
     c <- gets d_cursor ;;
     match kids tb with
     | [] =>
         d_insDirOf R this ;;;
         n <- d_newId ;;
         d_createDir (IVanillaSymbol (mkSymbol n "\$")) L
     | leftPc :: rest =>
         match c_R c, c_L c with
         | None, _ => d_insDirOf R this
         | Some _, None => d_insDirOf L this
         | Some _, Some _ =>
             (* split apart *)
             n <- d_newId ;;
             match adopt leftPc None None [] with
             | Ok leftKids =>
                 let leftBlock := mkTextBlock n "\text" None leftKids in
                 modify (fun d =>
                   set_items
                     (update this
                        (fun _ => ITextBlock
                           (mkTextBlock (tb_id tb) (ctrlSeq tb)
                              (anticursorPosition tb)
                              (disown (pc_id leftPc) (kids tb))))
                        (items d)) d) ;;;
                 d_insDirOf L this ;;;
                 d_createDir (ITextBlock leftBlock) L
             | Throw e => throw e
             end
         end
     end) ;;;
  d_aria_alert ch.

End TextBlockWrite.

Section TextBlockBlur.
Local Open Scope st_scope.

(** [blur(cursor)], the cursor given.  The rendered container is taken to
    mirror the tree when the block is fused. *)
Definition TextBlock_blur (this : nat) : D unit :=
  tb <- getTextBlock this ;;
  if String.eqb (textContents tb) "" then
    thisL <- d_node_at L this ;;
    thisR <- d_node_at R this ;;
    modify (fun d => set_items (disown this (items d)) d) ;;;
    c <- gets d_cursor ;;
    if ref_eqb (c_L c) (Some this) then d_setCursorAt L thisL
    else if ref_eqb (c_R c) (Some this) then d_setCursorAt R thisR
    else ret tt
  else
    zoom this (TextBlockFuseChildren (mirror (kids tb))) ;;; ret tt.

End TextBlockBlur.

(* ================================================================== *)
(** * [TextBlock.writeLatex], [createLeftOf], [deleteOutOf] *)
(* ================================================================== *)

Section TextBlockMore.
Local Open Scope st_scope.

Variable deleteSelection : Doc -> Doc.

(** Modelled from the spec: [Cursor.insAtDirEnd] is not under src/.
    [cursor.insAtDirEnd(dir, el)] for a text block [el] of the enclosing
    block: the cursor stands inside [el] at its [dir] end. *)
Definition d_insAtDirEnd (dir : Direction) (el : nat) : D unit :=
  tb <- getTextBlock el ;;
  modify (fun d =>
    set_d_cursor (cursor_set dir None (cursor_set (opp dir)
                    (getEnd dir (kids tb))
                    (mkCursor el None None (anticursor (d_cursor d)))))
                 d).

(** [writeLatex(cursor, latex)].  The upward [reflow] changes rendering
    only. *)
Definition TextBlock_writeLatex (this : nat) (latex : string) : D unit :=
  zoom this
    (cursorL <- cursorAt L ;;
     match cursorL with
     | None => createDir latex L ;;; ret tt
     | Some l => appendText l latex
     end).

(** The loop of [createLeftOf]: [write(cursor, replacedText.charAt(i))]
    for every [i] below [replacedText.length]. *)
Fixpoint write_chars (this : nat) (replacedText : string) : D unit :=
  match replacedText with
  | EmptyString => ret tt
  | String c r =>
      TextBlock_write deleteSelection this (String c "") ;;;
      write_chars this r
  end.

(** [createLeftOf(cursor)] of the new block [textBlock], which is not yet
    in the tree; [replacedText] is [None] when the field is [undefined].
    [siblingCreated] and the upward [reflow] change rendering only. *)
Definition TextBlock_createLeftOf (textBlock : TextBlock)
  (replacedText : option string) : D unit :=
  d_createDir (ITextBlock textBlock) L ;;;
  d_insAtDirEnd R (tb_id textBlock) ;;;
  match replacedText with
  | Some s => write_chars (tb_id textBlock) s
  | None => ret tt
  end.

(** [deleteOutOf(dir, cursor)]: backspace and delete at the ends of the
    block do not unwrap it. *)
Definition TextBlock_deleteOutOf (this : nat) : D unit :=
  tb <- getTextBlock this ;;
  match kids tb with
  | [] => d_insDirOf R this
  | _ :: _ => ret tt
  end.

End TextBlockMore.

(* ================================================================== *)
(** * [RootMathCommand]: the inner block's [write] *)
(* ================================================================== *)

Section RootMathCommandWrite.
Local Open Scope st_scope.

(** [MathBlock.prototype.write], not under src/: taken as it is. *)
Variable MathBlock_write : nat -> string -> D unit.

(** Modelled from the spec: [MathCommand.deleteTowards] is not under src/
    (section 4.1: an empty command is removed and the cursor's [dir] pointer
    passes over it; otherwise the cursor moves into it).  [dir] is [None]
    for the call with [undefined]: no pointer of the cursor is assigned
    then, and moving into the command fails [prayDirection]. *)
Definition MathCommand_deleteTowards (this : nat) (dir : option Direction)
  : D unit :=
  it <- (fun d => match find_node this (items d) with
                  | Some it => Ok (it, d)
                  | None => Throw "node is not in the tree"
                  end) ;;
  if isEmptyItem it then
    match dir with
    | Some dr =>
        thisDir <- d_node_at dr this ;;
        modify (fun d => set_items (disown this (items d)) d) ;;;
        d_setCursorAt dr thisDir
    | None =>
        modify (fun d => set_items (disown this (items d)) d)
    end
  else
    match dir, it with
    | Some dr, IRootMathCommand _ b inner =>
        modify (fun d =>
          set_d_cursor (cursor_set (opp dr) None (cursor_set dr
                          (getEnd (opp dr) inner)
                          (mkCursor b None None (anticursor (d_cursor d)))))
                       d)
    | _, _ => throw "prayDirection"
    end.

(** The [write] that [createBlocks] gives the inner block [this]. *)
Definition RootMathCommand_write (this : nat) (ch : string) : D unit :=
  if negb (String.eqb ch "$") then MathBlock_write this ch
  else
    cmd <- getBlock this ;;
    c <- gets d_cursor ;;
    match snd cmd with
    | [] =>
        d_insDirOf R (fst cmd) ;;;
        MathCommand_deleteTowards (fst cmd) None ;;;
        n <- d_newId ;;
        d_createDir (IVanillaSymbol (mkSymbol n "\$")) L
    | _ :: _ =>
        match c_R c, c_L c with
        | None, _ => d_insDirOf R (fst cmd)
        | Some _, None => d_insDirOf L (fst cmd)
        | Some _, Some _ => MathBlock_write this ch
        end
    end.

End RootMathCommandWrite.

(* ================================================================== *)
(** * The vocabulary of the statements *)
(* ================================================================== *)

(** The block of [st] with other children, all else kept. *)
Definition with_text (st : Region) (k : list TextPiece) (c : Cursor)
  (log : list AriaEvent) : Region :=
  mkRegion (mkTextBlock (tb_id (blk st)) (ctrlSeq (blk st))
              (anticursorPosition (blk st)) k)
           c log (nextId st).

(** What is left of a piece that gave its boundary character away. *)
Definition left_over (this : nat) (rest : string) : list TextPiece :=
  match rest with
  | EmptyString => []
  | _ => [mkTextPiece this rest]
  end.

(** What an operation on the pieces leaves alone: the block's own fields,
    the cursor's parent and the anticursor. *)
Definition same_frame (st st' : Region) : Prop :=
  tb_id (blk st') = tb_id (blk st) /\
  ctrlSeq (blk st') = ctrlSeq (blk st) /\
  anticursorPosition (blk st') = anticursorPosition (blk st) /\
  parent (cursor st') = parent (cursor st) /\
  anticursor (cursor st') = anticursor (cursor st).

(** The children [k] of a block, with the id counter at [next]: ids are
    unique and were all drawn from the counter, and no piece is empty. *)
Definition pieces_ok (k : list TextPiece) (next : nat) : Prop :=
  NoDup (ids k) /\
  (forall n, In n (ids k) -> n < next) /\
  Forall (fun p => textStr p <> "") k.

(** The same of a state. *)
Definition tree_ok (st : Region) : Prop :=
  pieces_ok (kids (blk st)) (nextId st).

(** The public operations of a [TextPiece]. *)
Inductive PieceOp : Type :=
| Append (text : string)
| Prepend (text : string)
| SplitAt (i : Z)
| MoveCharTowards (dir : Direction)
| DeleteTowards (dir : Direction)
| SelectTowards (dir : Direction).

(** The operation [op] called on the piece [this]. *)
Definition run_op (this : nat) (op : PieceOp) : M unit :=
  match op with
  | Append text => appendText this text
  | Prepend text => prependText this text
  | SplitAt i => bind (splitRight this i) (fun _ => ret tt)
  | MoveCharTowards dir => moveTowards this dir
  | DeleteTowards dir => deleteTowards this dir
  | SelectTowards dir => selectTowards this dir
  end.

(** A split is asked for strictly inside the piece. *)
Definition interior (this : nat) (op : PieceOp) (st : Region) : Prop :=
  match op with
  | SplitAt i =>
      exists p, find_node this (kids (blk st)) = Some p /\
                (0 < i < Str.len (textStr p))%Z
  | _ => True
  end.

(** The cursor stands in a gap between children of the block. *)
Definition cursor_in_gap (st : Region) : Prop :=
  exists a b, kids (blk st) = a ++ b /\
              c_L (cursor st) = last_id a /\ c_R (cursor st) = head_id b.

(** The characters left of the point ([leftward], [rightward]) of a block
    with children [k]: the point's character offset.  [None] when the point
    is no gap between children of the block. *)
Definition offset_of (leftward rightward : NodeRef) (k : list TextPiece)
  : option Z :=
  match gapAt leftward rightward k with
  | Some (a, _) => Some (Str.len (text_of a))
  | None => None
  end.

(** The block after a fuse that found the text [data]. *)
Definition fused (st : Region) (data : string) : Region :=
  mkRegion (mkTextBlock (tb_id (blk st)) (ctrlSeq (blk st))
              (anticursorPosition (blk st))
              [mkTextPiece (nextId st) data])
           (cursor st) (aria st) (S (nextId st)).

(** The pieces on the [dir] side of the cursor. *)
Definition side (dir : Direction) (lp rp : list TextPiece) : list TextPiece :=
  match dir with L => lp | R => rp end.

(** The state [seek] keeps between its steps, [st0] being the block it was
    called on: the text of [st0], held in at most one piece on each side of
    the cursor, which stands inside the block between them. *)
Definition hit_shape (st0 st : Region) (lp rp : list TextPiece) : Prop :=
  kids (blk st) = lp ++ rp /\
  length lp <= 1 /\ length rp <= 1 /\
  tree_ok st /\
  parent (cursor st) = tb_id (blk st) /\
  c_L (cursor st) = last_id lp /\
  c_R (cursor st) = head_id rp /\
  text_of (lp ++ rp) = textContents (blk st0) /\
  tb_id (blk st) = tb_id (blk st0) /\
  anticursorPosition (blk st) = anticursorPosition (blk st0) /\
  anticursor (cursor st) = anticursor (cursor st0).

(** Every character of [s] satisfies [f]. *)
Fixpoint str_forall (f : ascii -> bool) (s : string) : bool :=
  match s with
  | EmptyString => true
  | String c r => f c && str_forall f r
  end.

(** No brace and no backslash. *)
Definition plain_char (c : ascii) : bool :=
  negb (Ascii.eqb c "{" || Ascii.eqb c "}" || Ascii.eqb c "\").

(** The escaping, as the spec words it: a backslash becomes [\backslash ]
    (with its trailing space), a brace gets a backslash before it, any other
    character stays. *)
Definition escape_char (c : ascii) : string :=
  if Ascii.eqb c "\" then "\backslash "
  else if Ascii.eqb c "{" then "\{"
  else if Ascii.eqb c "}" then "\}"
  else String c "".

(** The escaping of a whole string, character by character. *)
Fixpoint escape (s : string) : string :=
  match s with
  | EmptyString => EmptyString
  | String c r => escape_char c +++ escape r
  end.

(** The announcements [aria.alert(ch)] of the characters of [s], in
    order. *)
Fixpoint alerts_of (s : string) : list AriaEvent :=
  match s with
  | EmptyString => []
  | String c r => Alert (String c "") :: alerts_of r
  end.

(** No character of [s] is [$]. *)
Definition no_dollar (s : string) : bool :=
  str_forall (fun c => negb (Ascii.eqb c "$")) s.

(** No character of [s] is the closing brace. *)
Definition no_close (s : string) : bool :=
  str_forall (fun c => negb (Ascii.eqb c "}")) s.

(* ================================================================== *)
(** * Facts: strings *)
(* ================================================================== *)

Module StrFacts.
Import Str.

Lemma append_nil_r (s : string) : s +++ "" = s.
Proof. induction s as [|c s IH]; simpl; [reflexivity | now rewrite IH]. Qed.

Lemma append_assoc (a b c : string) : (a +++ b) +++ c = a +++ b +++ c.
Proof. induction a as [|x a IH]; simpl; [reflexivity | now rewrite IH]. Qed.

Lemma length_append (a b : string) :
  String.length (a +++ b) = String.length a + String.length b.
Proof. induction a as [|x a IH]; simpl; [reflexivity | now rewrite IH]. Qed.

Lemma length_zero (s : string) : String.length s = 0 -> s = "".
Proof. destruct s; simpl; [reflexivity | discriminate]. Qed.

Lemma take_drop (n : nat) (s : string) : take n s +++ drop n s = s.
Proof.
  revert s; induction n as [|n IH]; intros [|c s]; simpl; try reflexivity.
  now rewrite IH.
Qed.

Lemma take_all (n : nat) (s : string) : String.length s <= n -> take n s = s.
Proof.
  revert s; induction n as [|n IH]; intros [|c s]; simpl; intros Hn;
    try reflexivity; [lia | rewrite IH; [reflexivity | lia]].
Qed.

Lemma length_take (n : nat) (s : string) :
  String.length (take n s) = Nat.min n (String.length s).
Proof.
  revert s; induction n as [|n IH]; intros [|c s]; simpl; try reflexivity.
  now rewrite IH.
Qed.

Lemma length_drop (n : nat) (s : string) :
  String.length (drop n s) = String.length s - n.
Proof.
  revert s; induction n as [|n IH]; intros [|c s]; simpl; try reflexivity.
  now rewrite IH.
Qed.

Lemma take_append (a b : string) : take (String.length a) (a +++ b) = a.
Proof. induction a as [|x a IH]; simpl; [now destruct b | now rewrite IH]. Qed.

Lemma drop_append (a b : string) : drop (String.length a) (a +++ b) = b.
Proof. induction a as [|x a IH]; simpl; [now destruct b | exact IH]. Qed.

(** [s.slice(0, i) + s.slice(i) = s], whatever the index. *)
Lemma slice_split (s : string) (i : Z) :
  slice s 0 (Some i) +++ slice s i None = s.
Proof.
  unfold slice.
  replace (rel_index (String.length s) 0) with 0
    by (unfold rel_index; simpl; now destruct (String.length s)).
  replace (drop 0 s) with s by now destruct s.
  rewrite Nat.sub_0_r.
  rewrite (take_all (String.length s - _) (drop _ s))
    by (rewrite length_drop; lia).
  apply take_drop.
Qed.

Lemma rel_index_inside (n : nat) (i : Z) :
  (0 <= i <= Z.of_nat n)%Z -> rel_index n i = Z.to_nat i.
Proof. unfold rel_index; intros Hi. destruct (Z.ltb_spec i 0); lia. Qed.

(** Lengths of the two halves of a split inside the string. *)
Lemma length_slice_prefix (s : string) (i : Z) :
  (0 <= i <= len s)%Z -> len (slice s 0 (Some i)) = i.
Proof.
  unfold len, slice; intros Hi.
  rewrite (rel_index_inside _ i) by lia.
  replace (rel_index (String.length s) 0) with 0
    by (unfold rel_index; simpl; now destruct (String.length s)).
  replace (drop 0 s) with s by now destruct s.
  rewrite length_take; lia.
Qed.

Lemma length_slice_suffix (s : string) (i : Z) :
  (0 <= i <= len s)%Z -> len (slice s i None) = (len s - i)%Z.
Proof.
  unfold len, slice; intros Hi.
  rewrite (rel_index_inside _ i) by lia.
  rewrite length_take, length_drop; lia.
Qed.

Lemma slice_tail (c : ascii) (r : string) : slice (String c r) 1 None = r.
Proof.
  unfold slice, rel_index; simpl.
  rewrite Nat.sub_0_r. apply take_all; lia.
Qed.

Lemma slice_init (r : string) (c : ascii) :
  slice (r +++ String c "") 0 (Some (-1)%Z) = r.
Proof.
  unfold slice, rel_index; simpl.
  rewrite length_append; simpl.
  replace (Z.to_nat _ - 0) with (String.length r) by lia.
  apply take_append.
Qed.

Lemma charAt_first (c : ascii) (r : string) :
  charAt (String c r) 0 = String c "".
Proof. reflexivity. Qed.

Lemma charAt_last (r : string) (c : ascii) :
  charAt (r +++ String c "") (len (r +++ String c "") - 1) = String c "".
Proof.
  unfold charAt, len. rewrite length_append; simpl.
  destruct (Z.ltb_spec (Z.of_nat (String.length r + 1) - 1) 0); [lia|].
  replace (Z.to_nat _) with (String.length r) by lia.
  now rewrite drop_append.
Qed.

(** A nonempty string ends in a last character. *)
Lemma last_char (s : string) :
  s <> "" -> exists r c, s = r +++ String c "".
Proof.
  induction s as [|x s IH]; intros Hs; [congruence|].
  destruct s as [|y s].
  - now exists "", x.
  - destruct IH as (r & c & E); [discriminate|].
    exists (String x r), c. simpl. now rewrite <- E.
Qed.

End StrFacts.

(* ================================================================== *)
(** * Facts: children of a block *)
(* ================================================================== *)

Section SiblingFacts.
Context {A : Type} `{Ident A}.

Lemma ids_app (a b : list A) : ids (a ++ b) = ids a ++ ids b.
Proof. apply map_app. Qed.

Lemma last_id_snoc (pre : list A) (x : A) : last_id (pre ++ [x]) = Some (ident x).
Proof.
  induction pre as [|y pre IH]; [reflexivity|].
  simpl. destruct (pre ++ [x]) eqn:E; [now destruct pre | exact IH].
Qed.

Lemma last_id_cons (y x : A) (l : list A) : last_id (y :: x :: l) = last_id (x :: l).
Proof. reflexivity. Qed.

Lemma last_id_mid (pre : list A) (x : A) (post : list A) :
  last_id (pre ++ x :: post) = last_id (x :: post).
Proof.
  induction pre as [|y pre IH]; [reflexivity|].
  simpl app. destruct (pre ++ x :: post) eqn:E; [now destruct pre|].
  rewrite last_id_cons. exact IH.
Qed.

Lemma last_id_in (l : list A) (n : nat) : last_id l = Some n -> In n (ids l).
Proof.
  induction l as [|x l IH]; [discriminate|].
  destruct l as [|y l]; simpl.
  - intros [= <-]; now left.
  - intros E. right. apply IH. exact E.
Qed.

Lemma last_id_none (l : list A) : last_id l = None -> l = [].
Proof.
  induction l as [|x l IH]; [reflexivity|].
  destruct l as [|y l]; [discriminate|].
  intros E. rewrite last_id_cons in E. now apply IH in E.
Qed.

Lemma head_id_none (l : list A) : head_id l = None -> l = [].
Proof. destruct l; [reflexivity | discriminate]. Qed.

Lemma find_node_mid (pre : list A) (x : A) (post : list A) :
  ~ In (ident x) (ids pre) ->
  find_node (ident x) (pre ++ x :: post) = Some x.
Proof.
  induction pre as [|y pre IH]; simpl; intros Hn.
  - now rewrite Nat.eqb_refl.
  - destruct (Nat.eqb_spec (ident y) (ident x)); [tauto | apply IH; tauto].
Qed.

Lemma find_node_absent (l : list A) (n : nat) :
  ~ In n (ids l) -> find_node n l = None.
Proof.
  induction l as [|y l IH]; simpl; intros Hn; [reflexivity|].
  destruct (Nat.eqb_spec (ident y) n); [tauto | apply IH; tauto].
Qed.

Lemma rightOf_mid (pre : list A) (x : A) (post : list A) :
  ~ In (ident x) (ids pre) ->
  rightOf (ident x) (pre ++ x :: post) = head_id post.
Proof.
  induction pre as [|y pre IH]; simpl; intros Hn.
  - now rewrite Nat.eqb_refl.
  - destruct (Nat.eqb_spec (ident y) (ident x)); [tauto | apply IH; tauto].
Qed.

Lemma last_or_cons (prev : NodeRef) (y : A) (pre : list A) :
  last_or prev (y :: pre) = last_or (Some (ident y)) pre.
Proof. destruct pre; reflexivity. Qed.

Lemma leftOf_from_mid (prev : NodeRef) (pre : list A) (x : A) (post : list A) :
  ~ In (ident x) (ids pre) ->
  leftOf_from prev (ident x) (pre ++ x :: post) = last_or prev pre.
Proof.
  revert prev; induction pre as [|y pre IH]; intros prev Hn.
  - simpl. now rewrite Nat.eqb_refl.
  - rewrite last_or_cons. simpl in *.
    destruct (Nat.eqb_spec (ident y) (ident x)); [tauto | apply IH; tauto].
Qed.

Lemma leftOf_mid (pre : list A) (x : A) (post : list A) :
  ~ In (ident x) (ids pre) ->
  leftOf (ident x) (pre ++ x :: post) = last_id pre.
Proof.
  intros Hn. unfold leftOf. rewrite leftOf_from_mid by exact Hn.
  now destruct pre.
Qed.

Lemma sibling_mid (dir : Direction) (pre : list A) (x : A) (post : list A) :
  ~ In (ident x) (ids pre) ->
  sibling dir (ident x) (pre ++ x :: post) = neighbour dir pre post.
Proof.
  intros Hn. destruct dir; simpl; [now apply leftOf_mid | now apply rightOf_mid].
Qed.

Lemma disown_mid (pre : list A) (x : A) (post : list A) :
  ~ In (ident x) (ids pre) ->
  disown (ident x) (pre ++ x :: post) = pre ++ post.
Proof.
  induction pre as [|y pre IH]; simpl; intros Hn.
  - now rewrite Nat.eqb_refl.
  - destruct (Nat.eqb_spec (ident y) (ident x)); [tauto|].
    f_equal. apply IH; tauto.
Qed.

Lemma update_mid (f : A -> A) (pre : list A) (x : A) (post : list A) :
  ~ In (ident x) (ids pre) ->
  update (ident x) f (pre ++ x :: post) = pre ++ f x :: post.
Proof.
  induction pre as [|y pre IH]; simpl; intros Hn.
  - now rewrite Nat.eqb_refl.
  - destruct (Nat.eqb_spec (ident y) (ident x)); [tauto|].
    f_equal. apply IH; tauto.
Qed.

Lemma ref_eqb_refl (a : NodeRef) : ref_eqb a a = true.
Proof. destruct a; simpl; [apply Nat.eqb_refl | reflexivity]. Qed.

Lemma ref_eqb_eq (a b : NodeRef) : ref_eqb a b = true <-> a = b.
Proof.
  destruct a, b; simpl; try (split; congruence).
  rewrite Nat.eqb_eq. split; congruence.
Qed.

Lemma last_or_in (prev : NodeRef) (y : A) (pre : list A) :
  exists n, last_or prev (y :: pre) = Some n /\ In n (ids (y :: pre)).
Proof.
  destruct (last_id (y :: pre)) as [n|] eqn:E.
  - exists n. split; [exact E | now apply last_id_in].
  - apply last_id_none in E. discriminate.
Qed.

Lemma gap_from_split (prev : NodeRef) (pre post : list A) :
  NoDup (ref_ids prev ++ ids (pre ++ post)) ->
  gap_from prev (last_or prev pre) (head_id post) (pre ++ post) = Some (pre, post).
Proof.
  revert prev; induction pre as [|y pre IH]; intros prev Hnd.
  - cbn [app last_or].
    destruct post; cbn [gap_from]; now rewrite !ref_eqb_refl.
  - destruct (last_or_in prev y pre) as (n & En & Hin).
    assert (Hne : ref_eqb prev (last_or prev (y :: pre)) = false).
    { rewrite En. destruct prev as [m|]; [|reflexivity].
      simpl. apply Nat.eqb_neq. intros ->.
      cbn [ref_ids app] in Hnd. apply NoDup_cons_iff in Hnd.
      destruct Hnd as [Hnot _]. apply Hnot.
      change (y :: pre ++ post) with ((y :: pre) ++ post).
      rewrite ids_app. apply in_or_app. now left. }
    simpl app. cbn [gap_from]. rewrite Hne. cbn [andb].
    rewrite last_or_cons. rewrite IH; [reflexivity|].
    apply NoDup_app_remove_l in Hnd. exact Hnd.
Qed.

Lemma gapAt_split (pre post : list A) :
  NoDup (ids (pre ++ post)) ->
  gapAt (last_id pre) (head_id post) (pre ++ post) = Some (pre, post).
Proof.
  intros Hnd. unfold gapAt.
  replace (last_id pre) with (last_or None pre) by now destruct pre.
  now apply gap_from_split.
Qed.

Lemma adopt_split (x : A) (pre post : list A) :
  NoDup (ids (pre ++ post)) ->
  adopt x (last_id pre) (head_id post) (pre ++ post) = Ok (pre ++ x :: post).
Proof. intros Hnd. unfold adopt. now rewrite gapAt_split. Qed.

(** A gap that [gapAt] finds splits the list where it says. *)
Lemma gap_from_sound (prev lw rw : NodeRef) (l a b : list A) :
  gap_from prev lw rw l = Some (a, b) ->
  l = a ++ b /\ lw = last_or prev a /\ rw = head_id b.
Proof.
  revert prev a b; induction l as [|x l IH]; intros prev a b; cbn [gap_from].
  - destruct (ref_eqb prev lw && ref_eqb (head_id []) rw) eqn:E; [|discriminate].
    intros [= <- <-]. apply andb_true_iff in E. destruct E as [E1 E2].
    apply ref_eqb_eq in E1, E2. now subst.
  - destruct (ref_eqb prev lw && ref_eqb (head_id (x :: l)) rw) eqn:E.
    + intros [= <- <-]. apply andb_true_iff in E. destruct E as [E1 E2].
      apply ref_eqb_eq in E1, E2. now subst.
    + destruct (gap_from (Some (ident x)) lw rw l) as [[a' b']|] eqn:G;
        [|discriminate].
      intros [= <- <-]. apply IH in G. destruct G as (-> & -> & ->).
      rewrite last_or_cons. now repeat split.
Qed.

Lemma NoDup_mid_not_in (pre : list A) (x : A) (post : list A) :
  NoDup (ids (pre ++ x :: post)) ->
  ~ In (ident x) (ids pre) /\ ~ In (ident x) (ids post) /\ NoDup (ids (pre ++ post)).
Proof.
  unfold ids. rewrite !map_app. simpl. intros Hnd.
  pose proof (NoDup_remove_1 _ _ _ Hnd) as H1.
  pose proof (NoDup_remove_2 _ _ _ Hnd) as H2.
  repeat split; try exact H1; intros Hin; apply H2; apply in_or_app; tauto.
Qed.

Lemma NoDup_mid_left (pre : list A) (x : A) (post : list A) :
  NoDup (ids (pre ++ x :: post)) -> ~ In (ident x) (ids pre).
Proof. intros Hnd. now destruct (NoDup_mid_not_in pre x post Hnd). Qed.

End SiblingFacts.

(* ================================================================== *)
(** * Facts: the primitives on a text block *)
(* ================================================================== *)

Section RegionFacts.
Variables (st : Region) (this : nat) (pre : list TextPiece) (p : TextPiece)
  (post : list TextPiece).
Hypothesis Hkids : kids (blk st) = pre ++ p :: post.
Hypothesis Hthis : pc_id p = this.
Hypothesis Hpre : ~ In this (ids pre).

Let Hpre' : ~ In (ident p) (ids pre).
Proof. cbn [ident TextPiece_Ident]. now rewrite Hthis. Qed.

Lemma getPiece_mid : getPiece this st = Ok (p, st).
Proof.
  unfold getPiece. rewrite Hkids, <- Hthis.
  change (pc_id p) with (ident p).
  now rewrite (find_node_mid pre p post Hpre').
Qed.

Lemma setTextStr_mid (s : string) :
  setTextStr this s st =
  Ok (tt, set_kids (pre ++ mkTextPiece this s :: post) st).
Proof.
  unfold setTextStr, modify. rewrite Hkids, <- Hthis.
  change (pc_id p) with (ident p) at 1.
  now rewrite (update_mid _ pre p post Hpre').
Qed.

Lemma node_at_mid (dir : Direction) :
  node_at dir this st = Ok (neighbour dir pre post, st).
Proof.
  unfold node_at, gets. rewrite Hkids, <- Hthis.
  change (pc_id p) with (ident p).
  now rewrite (sibling_mid dir pre p post Hpre').
Qed.

Lemma remove_mid : remove this st = Ok (tt, set_kids (pre ++ post) st).
Proof.
  unfold remove, modify. rewrite Hkids, <- Hthis.
  change (pc_id p) with (ident p).
  now rewrite (disown_mid pre p post Hpre').
Qed.

End RegionFacts.

Lemma text_of_from (k : list TextPiece) (acc : string) :
  fold_left (fun text child => text +++ textStr child) k acc = acc +++ text_of k.
Proof.
  unfold text_of. revert acc; induction k as [|x k IH]; intros acc; simpl.
  - now rewrite StrFacts.append_nil_r.
  - rewrite IH, (IH (textStr x)). now rewrite StrFacts.append_assoc.
Qed.

Lemma text_of_cons (x : TextPiece) (k : list TextPiece) :
  text_of (x :: k) = textStr x +++ text_of k.
Proof. unfold text_of at 1. simpl. apply text_of_from. Qed.

Lemma text_of_app (a b : list TextPiece) :
  text_of (a ++ b) = text_of a +++ text_of b.
Proof.
  induction a as [|x a IH]; [reflexivity|].
  simpl app. rewrite !text_of_cons, IH. now rewrite StrFacts.append_assoc.
Qed.

Lemma text_of_nil : text_of [] = "".
Proof. reflexivity. Qed.

(** A string of more than one code unit, seen from the end [dir] points
    away from: its boundary character and the rest. *)
Lemma boundary_char (dir : Direction) (s : string) :
  s <> "" ->
  exists c rest,
    s = match dir with
        | R => String c rest
        | L => rest +++ String c ""
        end.
Proof.
  intros Hs. destruct dir.
  - destruct (StrFacts.last_char s Hs) as (r & c & E). now exists c, r.
  - destruct s as [|c r]; [congruence|]. now exists c, r.
Qed.

(* ================================================================== *)
(** * [TextPiece.deleteTowards] *)
(* ================================================================== *)

Section DeleteTowards.
Variables (st : Region) (this : nat) (dir : Direction)
  (pre : list TextPiece) (p : TextPiece) (post : list TextPiece).
Hypothesis Hkids : kids (blk st) = pre ++ p :: post.
Hypothesis Hthis : pc_id p = this.
Hypothesis Hpre : ~ In this (ids pre).

(** More than one character: the boundary character [c] goes. *)
Lemma deleteTowards_long (c : ascii) (rest : string) :
  textStr p = match dir with
              | R => String c rest
              | L => rest +++ String c ""
              end ->
  rest <> "" ->
  deleteTowards this dir st =
  Ok (tt, with_text st (pre ++ mkTextPiece this rest :: post)
            (cursor st) (aria st ++ [Queue (String c "")])).
Proof.
  intros E Hrest.
  assert (Hlen : (1 <? Str.len (textStr p))%Z = true).
  { apply Z.ltb_lt. unfold Str.len. rewrite E.
    destruct rest; [congruence|].
    destruct dir; [rewrite StrFacts.length_append|]; simpl; lia. }
  unfold deleteTowards, bind.
  rewrite (getPiece_mid st this pre p post Hkids Hthis Hpre), Hlen.
  destruct dir;
    rewrite (setTextStr_mid st this pre p post Hkids Hthis Hpre); rewrite E.
  - rewrite StrFacts.slice_init, StrFacts.charAt_last. reflexivity.
  - rewrite StrFacts.slice_tail, StrFacts.charAt_first. reflexivity.
Qed.

(** At most one character: the piece goes. *)
Lemma deleteTowards_single :
  String.length (textStr p) <= 1 ->
  deleteTowards this dir st =
  Ok (tt, with_text st (pre ++ post)
            (cursor_set dir (neighbour dir pre post) (cursor st))
            (aria st ++ [Queue (textStr p)])).
Proof.
  intros Hlen. unfold deleteTowards, bind.
  rewrite (getPiece_mid st this pre p post Hkids Hthis Hpre).
  replace (1 <? Str.len (textStr p))%Z with false
    by (symmetry; apply Z.ltb_ge; unfold Str.len; lia).
  rewrite (node_at_mid st this pre p post Hkids Hthis Hpre).
  rewrite (remove_mid st this pre p post Hkids Hthis Hpre).
  reflexivity.
Qed.

End DeleteTowards.

(** C5.  [deleteTowards(dir, cursor)] on the piece [p] of a block:
    with more than one character, the piece loses exactly the one character
    at its end opposite to [dir] (the first for [dir = R], the last for
    [dir = L]), nothing else changes, and that character is announced; with
    exactly one character the piece leaves the tree, the cursor's [dir]
    pointer becomes the piece's former [dir] neighbour, and the character is
    announced. *)
Theorem deleteTowards_spec (st : Region) (dir : Direction)
  (pre : list TextPiece) (p : TextPiece) (post : list TextPiece) :
  kids (blk st) = pre ++ p :: post ->
  ~ In (pc_id p) (ids pre) ->
  (1 < String.length (textStr p) ->
   exists (c : ascii) (rest : string),
     textStr p = match dir with
                 | R => String c rest
                 | L => rest +++ String c ""
                 end /\
     String.length rest = String.length (textStr p) - 1 /\
     deleteTowards (pc_id p) dir st =
     Ok (tt, with_text st (pre ++ mkTextPiece (pc_id p) rest :: post)
               (cursor st) (aria st ++ [Queue (String c "")]))) /\
  (String.length (textStr p) = 1 ->
   deleteTowards (pc_id p) dir st =
   Ok (tt, with_text st (pre ++ post)
             (cursor_set dir (neighbour dir pre post) (cursor st))
             (aria st ++ [Queue (textStr p)]))).
Proof.
  intros Hkids Hpre. split; intros Hlen.
  - destruct (boundary_char dir (textStr p)) as (c & rest & E).
    { intros E; rewrite E in Hlen; simpl in Hlen; lia. }
    exists c, rest. split; [exact E|].
    assert (Hrest : String.length rest = String.length (textStr p) - 1).
    { rewrite E. destruct dir; [rewrite StrFacts.length_append|]; simpl; lia. }
    split; [exact Hrest|].
    apply (deleteTowards_long st (pc_id p) dir pre p post Hkids eq_refl Hpre c rest E).
    intros ->. simpl in Hrest. lia.
  - apply (deleteTowards_single st (pc_id p) dir pre p post Hkids eq_refl Hpre).
    lia.
Qed.

(** The one-character piece ["a"] is deleted rightward: it leaves the
    block and the cursor's right pointer moves on to ["cd"]. *)
Lemma deleteTowards_spec_witness :
  deleteTowards 1 R
    (mkRegion (mkTextBlock 10 "\text" None
                 [mkTextPiece 1 "a"; mkTextPiece 2 "cd"])
       (mkCursor 10 None (Some 1) None) [] 20) =
  Ok (tt, mkRegion (mkTextBlock 10 "\text" None [mkTextPiece 2 "cd"])
            (mkCursor 10 None (Some 2) None) [Queue "a"] 20).
Proof.
  exact (proj2 (deleteTowards_spec
                  (mkRegion (mkTextBlock 10 "\text" None
                               [mkTextPiece 1 "a"; mkTextPiece 2 "cd"])
                     (mkCursor 10 None (Some 1) None) [] 20)
                  R [] (mkTextPiece 1 "a") [mkTextPiece 2 "cd"]
                  eq_refl (fun H : False => H)) eq_refl).
Defined.

(* ================================================================== *)
(** * [TextPiece.moveTowards] *)
(* ================================================================== *)

Lemma appendText_mid (st : Region) (this : nat) (text : string)
  (pre : list TextPiece) (p : TextPiece) (post : list TextPiece) :
  kids (blk st) = pre ++ p :: post -> pc_id p = this -> ~ In this (ids pre) ->
  appendText this text st =
  Ok (tt, set_kids (pre ++ mkTextPiece this (textStr p +++ text) :: post) st).
Proof.
  intros Hk Ht Hp. unfold appendText, bind.
  rewrite (getPiece_mid st this pre p post Hk Ht Hp).
  apply (setTextStr_mid st this pre p post Hk Ht Hp).
Qed.

Lemma prependText_mid (st : Region) (this : nat) (text : string)
  (pre : list TextPiece) (p : TextPiece) (post : list TextPiece) :
  kids (blk st) = pre ++ p :: post -> pc_id p = this -> ~ In this (ids pre) ->
  prependText this text st =
  Ok (tt, set_kids (pre ++ mkTextPiece this (text +++ textStr p) :: post) st).
Proof.
  intros Hk Ht Hp. unfold prependText, bind.
  rewrite (getPiece_mid st this pre p post Hk Ht Hp).
  apply (setTextStr_mid st this pre p post Hk Ht Hp).
Qed.

(** A new piece made at the cursor, the cursor standing in the gap between
    [lp] and [rp]. *)
Lemma createDir_gap (st : Region) (text : string) (dir : Direction)
  (lp rp : list TextPiece) :
  kids (blk st) = lp ++ rp ->
  c_L (cursor st) = last_id lp ->
  c_R (cursor st) = head_id rp ->
  NoDup (ids (lp ++ rp)) ->
  createDir text dir st =
  Ok (nextId st,
      mkRegion (mkTextBlock (tb_id (blk st)) (ctrlSeq (blk st))
                  (anticursorPosition (blk st))
                  (lp ++ mkTextPiece (nextId st) text :: rp))
               (cursor_set dir (Some (nextId st)) (cursor st))
               (aria st) (S (nextId st))).
Proof.
  intros Hk HL HR Hnd.
  unfold createDir, bind, newId, gets, adoptPiece, setCursorAt, modify, ret.
  cbn [blk cursor kids aria nextId]. rewrite Hk, HL, HR.
  rewrite (adopt_split _ lp rp Hnd). reflexivity.
Qed.

Lemma snoc_case {A : Type} (l : list A) :
  l = [] \/ exists l0 x, l = l0 ++ [x].
Proof.
  induction l as [|y l IH]; [now left|]. right.
  destruct IH as [-> | (l0 & x & ->)].
  - now exists [], y.
  - now exists (y :: l0), x.
Qed.

Lemma ids_snoc (l : list TextPiece) (x : TextPiece) :
  ids (l ++ [x]) = ids l ++ [pc_id x].
Proof. unfold ids. now rewrite map_app. Qed.

(** The characters of a block do not depend on how they are cut in pieces
    around one boundary character. *)
Lemma endChar_boundary (dir : Direction) (c : ascii) (rest : string) :
  endChar (opp dir)
    (match dir with R => String c rest | L => rest +++ String c "" end) =
  String c "".
Proof.
  destruct dir; unfold endChar; cbn [opp].
  - rewrite Z.add_comm. apply StrFacts.charAt_last.
  - reflexivity.
Qed.

Lemma same_frame_refl (st : Region) : same_frame st st.
Proof. now repeat split. Qed.

Lemma same_frame_trans (a b c : Region) :
  same_frame a b -> same_frame b c -> same_frame a c.
Proof.
  unfold same_frame. intros (A1 & A2 & A3 & A4 & A5) (B1 & B2 & B3 & B4 & B5).
  repeat split; congruence.
Qed.

Lemma cursor_set_frame (dir : Direction) (v : NodeRef) (c : Cursor) :
  parent (cursor_set dir v c) = parent c /\
  anticursor (cursor_set dir v c) = anticursor c.
Proof. now destruct dir. Qed.

Lemma cursor_at_set (dir : Direction) (v : NodeRef) (c : Cursor) :
  cursor_at dir (cursor_set dir v c) = v /\
  cursor_at (opp dir) (cursor_set dir v c) = cursor_at (opp dir) c.
Proof. now destruct dir. Qed.

(** The last step of [moveTowards]: the character leaves the piece. *)
Lemma deleteTowards_after (st1 : Region) (dir : Direction)
  (pre1 : list TextPiece) (p : TextPiece) (post1 : list TextPiece)
  (c : ascii) (rest : string) :
  textStr p = match dir with R => String c rest | L => rest +++ String c "" end ->
  kids (blk st1) = pre1 ++ p :: post1 ->
  ~ In (pc_id p) (ids pre1) ->
  exists st',
    deleteTowards (pc_id p) dir st1 = Ok (tt, st') /\
    kids (blk st') = pre1 ++ left_over (pc_id p) rest ++ post1 /\
    cursor_at (opp dir) (cursor st') = cursor_at (opp dir) (cursor st1) /\
    cursor_at dir (cursor st') =
      match rest with
      | EmptyString => neighbour dir pre1 post1
      | _ => cursor_at dir (cursor st1)
      end /\
    nextId st' = nextId st1 /\
    same_frame st1 st'.
Proof.
  intros Htext Hk1 Hp1. destruct rest as [|c' rest'] eqn:Er.
  - eexists. split.
    + apply (deleteTowards_single st1 (pc_id p) dir pre1 p post1 Hk1 eq_refl Hp1).
      rewrite Htext. destruct dir; simpl; lia.
    + cbn [with_text blk kids cursor nextId left_over app].
      destruct (cursor_at_set dir (neighbour dir pre1 post1) (cursor st1))
        as [Hat1 Hat2].
      destruct (cursor_set_frame dir (neighbour dir pre1 post1) (cursor st1))
        as [F1 F2].
      repeat split; assumption.
  - eexists. split.
    + apply (deleteTowards_long st1 (pc_id p) dir pre1 p post1 Hk1 eq_refl Hp1
               c (String c' rest') Htext). discriminate.
    + cbn [with_text blk kids cursor nextId]. now repeat split.
Qed.

Section MoveTowards.
Variables (st : Region)
  (pre : list TextPiece) (p : TextPiece) (post : list TextPiece)
  (c : ascii) (rest : string).
Hypothesis Hkids : kids (blk st) = pre ++ p :: post.
Hypothesis Hnd : NoDup (ids (pre ++ p :: post)).
Hypothesis Hfresh : ~ In (nextId st) (ids (pre ++ p :: post)).

Let Hpre : ~ In (pc_id p) (ids pre).
Proof. exact (NoDup_mid_left pre p post Hnd). Qed.

(** The piece moved through, stepping right: the first character goes to
    the piece on the left, made if there is none; the cursor stands between
    that piece and what is left. *)
Lemma moveTowards_right :
  c_R (cursor st) = Some (pc_id p) ->
  c_L (cursor st) = last_id pre ->
  textStr p = String c rest ->
  exists st' recv,
    moveTowards (pc_id p) R st = Ok (tt, st') /\
    kids (blk st') = recv ++ left_over (pc_id p) rest ++ post /\
    ((pre = [] /\ recv = [mkTextPiece (nextId st) (String c "")]) \/
     (exists pre0 q, pre = pre0 ++ [q] /\
        recv = pre0 ++ [mkTextPiece (pc_id q) (textStr q +++ String c "")])) /\
    c_L (cursor st') = last_id recv /\
    c_R (cursor st') = head_id (left_over (pc_id p) rest ++ post) /\
    same_frame st st'.
Proof.
  intros Hcur Hopp Htext.
  unfold moveTowards. unfold bind at 1.
  rewrite (getPiece_mid st (pc_id p) pre p post Hkids eq_refl Hpre).
  rewrite Htext, (endChar_boundary R c rest). unfold bind at 1. unfold bind at 2.
  rewrite (node_at_mid st (pc_id p) pre p post Hkids eq_refl Hpre).
  cbn [neighbour opp].
  destruct (snoc_case pre) as [E0 | (pre0 & q & E0)].
  - rewrite E0 in *. cbn [last_id]. unfold bind at 1.
    rewrite (createDir_gap st (String c "") L [] (p :: post) Hkids Hopp Hcur Hnd).
    cbn [ret].
    match goal with |- context [deleteTowards _ _ ?s] =>
      destruct (deleteTowards_after s R [mkTextPiece (nextId st) (String c "")]
                  p post c rest Htext)
        as (st' & E & K & CL & CR & _ & F)
    end.
    + reflexivity.
    + simpl. intros [E|[]]. apply Hfresh. simpl. now left.
    + exists st', [mkTextPiece (nextId st) (String c "")].
      split; [exact E|]. split; [exact K|]. split; [now left|].
      cbn [opp cursor_at cursor cursor_set c_L c_R neighbour] in CL, CR.
      split; [exact CL|]. split.
      * rewrite CR. now destruct rest.
      * destruct F as (F1 & F2 & F3 & F4 & F5). now repeat split.
  - rewrite E0 in *. rewrite last_id_snoc. cbn [ident TextPiece_Ident insTextAtDirEnd].
    assert (Hk2 : kids (blk st) = pre0 ++ q :: p :: post)
      by now rewrite Hkids, <- app_assoc.
    assert (Hq : ~ In (pc_id q) (ids pre0)).
    { intros Hin. apply (NoDup_mid_left pre0 q (p :: post)); [|exact Hin].
      now rewrite <- app_assoc in Hnd. }
    unfold bind at 1.
    rewrite (appendText_mid st (pc_id q) _ pre0 q (p :: post) Hk2 eq_refl Hq).
    match goal with |- context [deleteTowards _ _ ?s] =>
      destruct (deleteTowards_after s R
                  (pre0 ++ [mkTextPiece (pc_id q) (textStr q +++ String c "")])
                  p post c rest Htext)
        as (st' & E & K & CL & CR & _ & F)
    end.
    + cbn [set_kids blk kids]. now rewrite <- app_assoc.
    + rewrite ids_snoc. cbn [pc_id]. rewrite <- ids_snoc. exact Hpre.
    + exists st', (pre0 ++ [mkTextPiece (pc_id q) (textStr q +++ String c "")]).
      split; [exact E|]. split; [exact K|].
      split; [right; now exists pre0, q|].
      cbn [opp cursor_at cursor set_kids c_L c_R neighbour] in CL, CR.
      split.
      * rewrite CL, Hopp, !last_id_snoc. reflexivity.
      * split; [rewrite CR, Hcur; now destruct rest | exact F].
Qed.

(** Stepping left: the last character goes to the piece on the right. *)
Lemma moveTowards_left :
  c_L (cursor st) = Some (pc_id p) ->
  c_R (cursor st) = head_id post ->
  textStr p = rest +++ String c "" ->
  exists st' recv,
    moveTowards (pc_id p) L st = Ok (tt, st') /\
    kids (blk st') = pre ++ left_over (pc_id p) rest ++ recv /\
    ((post = [] /\ recv = [mkTextPiece (nextId st) (String c "")]) \/
     (exists q post0, post = q :: post0 /\
        recv = mkTextPiece (pc_id q) (String c "" +++ textStr q) :: post0)) /\
    c_L (cursor st') = last_id (pre ++ left_over (pc_id p) rest) /\
    c_R (cursor st') = head_id recv /\
    same_frame st st'.
Proof.
  intros Hcur Hopp Htext.
  unfold moveTowards. unfold bind at 1.
  rewrite (getPiece_mid st (pc_id p) pre p post Hkids eq_refl Hpre).
  rewrite Htext, (endChar_boundary L c rest). unfold bind at 1. unfold bind at 2.
  rewrite (node_at_mid st (pc_id p) pre p post Hkids eq_refl Hpre).
  cbn [neighbour opp].
  assert (Hlast : match rest with
                  | EmptyString => last_id pre
                  | _ => Some (pc_id p)
                  end = last_id (pre ++ left_over (pc_id p) rest)).
  { destruct rest; cbn [left_over]; [now rewrite app_nil_r|].
    now rewrite last_id_snoc. }
  destruct post as [|q post0] eqn:Epost.
  - cbn [head_id]. unfold bind at 1.
    assert (Hk2 : kids (blk st) = (pre ++ [p]) ++ [])
      by now rewrite app_nil_r.
    assert (Hnd2 : NoDup (ids ((pre ++ [p]) ++ [])))
      by now rewrite app_nil_r.
    assert (HL2 : c_L (cursor st) = last_id (pre ++ [p]))
      by now rewrite last_id_snoc.
    rewrite (createDir_gap st (String c "") R (pre ++ [p]) [] Hk2 HL2 Hopp Hnd2).
    cbn [ret].
    match goal with |- context [deleteTowards _ _ ?s] =>
      destruct (deleteTowards_after s L pre p
                  [mkTextPiece (nextId st) (String c "")] c rest Htext)
        as (st' & E & K & CR & CL & _ & F)
    end.
    + cbn [blk kids]. now rewrite <- app_assoc.
    + exact Hpre.
    + exists st', [mkTextPiece (nextId st) (String c "")].
      split; [exact E|]. split; [exact K|]. split; [now left|].
      cbn [opp cursor_at cursor cursor_set c_L c_R neighbour] in CL, CR.
      split; [rewrite CL, Hcur; exact Hlast|].
      split; [exact CR|].
      destruct F as (F1 & F2 & F3 & F4 & F5). now repeat split.
  - cbn [head_id ident TextPiece_Ident insTextAtDirEnd].
    assert (Hk2 : kids (blk st) = (pre ++ [p]) ++ q :: post0)
      by now rewrite <- app_assoc.
    assert (Hq : ~ In (pc_id q) (ids (pre ++ [p]))).
    { intros Hin. apply (NoDup_mid_left (pre ++ [p]) q post0); [|exact Hin].
      now rewrite <- app_assoc. }
    unfold bind at 1.
    rewrite (prependText_mid st (pc_id q) _ (pre ++ [p]) q post0 Hk2 eq_refl Hq).
    match goal with |- context [deleteTowards _ _ ?s] =>
      destruct (deleteTowards_after s L pre p
                  (mkTextPiece (pc_id q) (String c "" +++ textStr q) :: post0)
                  c rest Htext)
        as (st' & E & K & CR & CL & _ & F)
    end.
    + cbn [set_kids blk kids]. now rewrite <- app_assoc.
    + exact Hpre.
    + exists st', (mkTextPiece (pc_id q) (String c "" +++ textStr q) :: post0).
      split; [exact E|]. split; [exact K|].
      split; [right; now exists q, post0|].
      cbn [opp cursor_at cursor set_kids c_L c_R neighbour] in CL, CR.
      split; [rewrite CL, Hcur; exact Hlast|].
      split; [rewrite CR, Hopp; reflexivity | exact F].
Qed.

End MoveTowards.

Lemma text_of_left_over (this : nat) (rest : string) :
  text_of (left_over this rest) = rest.
Proof.
  destruct rest; [reflexivity|].
  unfold left_over. rewrite text_of_cons, text_of_nil.
  apply StrFacts.append_nil_r.
Qed.

Lemma append_char (c : ascii) (s : string) : String c "" +++ s = String c s.
Proof. reflexivity. Qed.

(** C10 (as amended).  [moveTowards(dir, cursor)] on the piece [p] the
    cursor is about to cross ([cursor[dir]] is [p]): the boundary character
    of [p], the one at its end opposite to [dir], goes into the neighbouring
    piece on that opposite side ([p[-dir]], the side the cursor leaves), at
    that neighbour's end facing [p]; the neighbour is made if there is none;
    then the character is deleted from [p], which leaves the tree when it
    was its only one.  The block's [textContents()] is the same before and
    after. *)
Theorem moveTowards_preserves_text (st : Region) (dir : Direction)
  (pre : list TextPiece) (p : TextPiece) (post : list TextPiece) :
  kids (blk st) = pre ++ p :: post ->
  NoDup (ids (pre ++ p :: post)) ->
  ~ In (nextId st) (ids (pre ++ p :: post)) ->
  cursor_at dir (cursor st) = Some (pc_id p) ->
  cursor_at (opp dir) (cursor st) = neighbour (opp dir) pre post ->
  textStr p <> "" ->
  exists (st' : Region) (c : ascii) (rest : string) (recv : list TextPiece),
    moveTowards (pc_id p) dir st = Ok (tt, st') /\
    textStr p = match dir with
                | R => String c rest
                | L => rest +++ String c ""
                end /\
    match dir with
    | R =>
        kids (blk st') = recv ++ left_over (pc_id p) rest ++ post /\
        ((pre = [] /\ recv = [mkTextPiece (nextId st) (String c "")]) \/
         (exists pre0 q, pre = pre0 ++ [q] /\
            recv = pre0 ++ [mkTextPiece (pc_id q) (textStr q +++ String c "")]))
    | L =>
        kids (blk st') = pre ++ left_over (pc_id p) rest ++ recv /\
        ((post = [] /\ recv = [mkTextPiece (nextId st) (String c "")]) \/
         (exists q post0, post = q :: post0 /\
            recv = mkTextPiece (pc_id q) (String c "" +++ textStr q) :: post0))
    end /\
    textContents (blk st') = textContents (blk st).
Proof.
  intros Hkids Hnd Hfresh Hcur Hopp Hne.
  destruct (boundary_char dir (textStr p) Hne) as (c & rest & Htext).
  destruct dir; cbn [cursor_at opp neighbour] in Hcur, Hopp.
  - destruct (moveTowards_left st pre p post c rest Hkids Hnd Hfresh Hcur Hopp Htext)
      as (st' & recv & E & K & Hrecv & _).
    exists st', c, rest, recv. repeat split; try assumption.
    unfold textContents. rewrite K, Hkids.
    rewrite !text_of_app, text_of_left_over, text_of_cons, Htext.
    f_equal. rewrite StrFacts.append_assoc. f_equal.
    destruct Hrecv as [[-> ->] | (q & post0 & -> & ->)].
    + now rewrite text_of_cons.
    + rewrite !text_of_cons. cbn [textStr]. now rewrite StrFacts.append_assoc.
  - destruct (moveTowards_right st pre p post c rest Hkids Hnd Hfresh Hcur Hopp Htext)
      as (st' & recv & E & K & Hrecv & _).
    exists st', c, rest, recv. repeat split; try assumption.
    unfold textContents. rewrite K, Hkids.
    rewrite !text_of_app, text_of_left_over, text_of_cons, Htext.
    destruct Hrecv as [[-> ->] | (pre0 & q & -> & ->)].
    + now rewrite text_of_cons.
    + rewrite !text_of_app, !text_of_cons, !text_of_nil. cbn [textStr].
      rewrite !StrFacts.append_nil_r, !StrFacts.append_assoc. reflexivity.
Qed.

(** The cursor at the left end of ["ab"]["cd"] steps right through ["ab"]:
    a new piece ["a"] is made on its left, ["ab"] keeps ["b"], and the text
    is ["abcd"] before and after. *)
Lemma moveTowards_preserves_text_witness :
  exists st',
    moveTowards 1 R
      (mkRegion (mkTextBlock 10 "\text" None
                   [mkTextPiece 1 "ab"; mkTextPiece 2 "cd"])
         (mkCursor 10 None (Some 1) None) [] 20) = Ok (tt, st') /\
    textContents (blk st') = "abcd".
Proof.
  destruct (moveTowards_preserves_text
              (mkRegion (mkTextBlock 10 "\text" None
                           [mkTextPiece 1 "ab"; mkTextPiece 2 "cd"])
                 (mkCursor 10 None (Some 1) None) [] 20)
              R [] (mkTextPiece 1 "ab") [mkTextPiece 2 "cd"])
    as (st' & c & rest & recv & E & _ & _ & T).
  - reflexivity.
  - repeat constructor; simpl; intuition discriminate.
  - simpl. intuition discriminate.
  - reflexivity.
  - reflexivity.
  - discriminate.
  - exists st'. split; [exact E | exact T].
Defined.

(** C10 as stated fails: stepping right through ["ab"] with ["cd"] as its
    neighbour in the movement direction leaves ["cd"] as it was; the
    character ["a"] is in a new piece on the other side. *)
Lemma moveTowards_not_into_dir_neighbour :
  let st := mkRegion (mkTextBlock 10 "\text" None
                        [mkTextPiece 1 "ab"; mkTextPiece 2 "cd"])
              (mkCursor 10 None (Some 1) None) [] 20 in
  sibling R 1 (kids (blk st)) = Some 2 /\
  exists st',
    moveTowards 1 R st = Ok (tt, st') /\
    kids (blk st') =
      [mkTextPiece 20 "a"; mkTextPiece 1 "b"; mkTextPiece 2 "cd"] /\
    find_node 2 (kids (blk st')) = find_node 2 (kids (blk st)).
Proof.
  intros st. split; [reflexivity|].
  eexists. split; [vm_compute; reflexivity|]. split; reflexivity.
Qed.

(* ================================================================== *)
(** * The pieces of a block are never empty *)
(* ================================================================== *)

Lemma ids_update (x : nat) (s : string) (k : list TextPiece) :
  ids (update x (fun p => mkTextPiece (pc_id p) s) k) = ids k.
Proof.
  induction k as [|y l IH]; [reflexivity|].
  cbn [update ident TextPiece_Ident].
  destruct (Nat.eqb (pc_id y) x); cbn; [reflexivity | now f_equal].
Qed.

Lemma Forall_update (P : TextPiece -> Prop) (x : nat)
  (f : TextPiece -> TextPiece) (k : list TextPiece) :
  (forall p, P (f p)) -> Forall P k -> Forall P (update x f k).
Proof.
  intros Hf Hk. induction Hk as [|y l Hy Hl IH]; [constructor|].
  cbn [update]. destruct (Nat.eqb (ident y) x); constructor; auto.
Qed.

Lemma Forall_disown (P : TextPiece -> Prop) (x : nat) (k : list TextPiece) :
  Forall P k -> Forall P (disown x k).
Proof.
  intros Hk. induction Hk as [|y l Hy Hl IH]; [constructor|].
  cbn [disown]. destruct (Nat.eqb (ident y) x); [exact Hl | now constructor].
Qed.

Lemma in_ids_disown (x n : nat) (k : list TextPiece) :
  In n (ids (disown x k)) -> In n (ids k).
Proof.
  induction k as [|y l IH]; [easy|].
  cbn [disown]. destruct (Nat.eqb (ident y) x); cbn; intuition.
Qed.

Lemma NoDup_ids_disown (x : nat) (k : list TextPiece) :
  NoDup (ids k) -> NoDup (ids (disown x k)).
Proof.
  induction k as [|y l IH]; intros Hnd; [constructor|].
  cbn in Hnd. apply NoDup_cons_iff in Hnd. destruct Hnd as [Hy Hl].
  cbn [disown]. destruct (Nat.eqb (ident y) x); [exact Hl|].
  cbn. constructor; [|now apply IH].
  intros Hc. apply Hy. now apply in_ids_disown in Hc.
Qed.

Section PiecesOk.
Variables (k : list TextPiece) (next : nat).
Hypothesis Hok : pieces_ok k next.

Lemma pieces_ok_update (x : nat) (s : string) :
  s <> "" ->
  pieces_ok (update x (fun p => mkTextPiece (pc_id p) s) k) next.
Proof.
  intros Hs. destruct Hok as (Hnd & Hlt & Hne).
  unfold pieces_ok. rewrite ids_update. repeat split; try assumption.
  apply Forall_update; [intros p; exact Hs | exact Hne].
Qed.

Lemma pieces_ok_disown (x : nat) : pieces_ok (disown x k) next.
Proof.
  destruct Hok as (Hnd & Hlt & Hne). repeat split.
  - now apply NoDup_ids_disown.
  - intros n Hn. apply Hlt. now apply in_ids_disown in Hn.
  - now apply Forall_disown.
Qed.

Lemma pieces_ok_next : pieces_ok k (S next).
Proof.
  destruct Hok as (Hnd & Hlt & Hne). repeat split; try assumption.
  intros n Hn. apply Hlt in Hn. lia.
Qed.

End PiecesOk.

Lemma NoDup_insert (a b : list nat) (x : nat) :
  NoDup (a ++ b) -> ~ In x (a ++ b) -> NoDup (a ++ x :: b).
Proof.
  induction a as [|y a IH]; cbn; intros Hnd Hx.
  - now constructor.
  - apply NoDup_cons_iff in Hnd. destruct Hnd as [Hy Hnd].
    constructor.
    + intros Hc. apply in_app_or in Hc. cbn in Hc.
      destruct Hc as [Hc|[Hc|Hc]].
      * apply Hy, in_or_app. now left.
      * apply Hx. now left.
      * apply Hy, in_or_app. now right.
    + apply IH; [exact Hnd | tauto].
Qed.

(** A new piece, its id just drawn from the counter, put into a gap. *)
Lemma pieces_ok_insert (a b : list TextPiece) (next : nat) (text : string) :
  pieces_ok (a ++ b) next ->
  text <> "" ->
  pieces_ok (a ++ mkTextPiece next text :: b) (S next).
Proof.
  intros (Hnd & Hlt & Hne) Ht.
  rewrite ids_app in Hnd, Hlt.
  assert (Hfresh : ~ In next (ids a ++ ids b)).
  { intros Hc. apply (Nat.lt_irrefl next). now apply Hlt. }
  repeat split.
  - rewrite ids_app. cbn. now apply NoDup_insert.
  - intros n Hn. rewrite ids_app in Hn. cbn in Hn.
    apply in_app_or in Hn. cbn in Hn.
    destruct Hn as [Hn|[<-|Hn]]; [| lia |];
      (apply Nat.lt_lt_succ_r, Hlt, in_or_app; tauto).
  - apply Forall_app in Hne. destruct Hne as [Ha Hb].
    apply Forall_app. split; [exact Ha | now constructor].
Qed.

Lemma find_node_in (x : nat) (k : list TextPiece) (p : TextPiece) :
  find_node x k = Some p -> In p k /\ pc_id p = x.
Proof.
  induction k as [|y l IH]; [discriminate|].
  cbn [find_node ident TextPiece_Ident].
  destruct (Nat.eqb_spec (pc_id y) x).
  - intros [= <-]. split; [now left | assumption].
  - intros E. apply IH in E. split; [right|]; tauto.
Qed.

(** Inversion of the primitives that may abort. *)
Lemma getPiece_inv (x : nat) (st st' : Region) (p : TextPiece) :
  getPiece x st = Ok (p, st') ->
  st' = st /\ find_node x (kids (blk st)) = Some p.
Proof.
  unfold getPiece. destruct (find_node x (kids (blk st))); [|discriminate].
  now intros [= <- <-].
Qed.

Lemma adopt_inv (x : TextPiece) (lw rw : NodeRef) (k k' : list TextPiece) :
  adopt x lw rw k = Ok k' ->
  exists a b, k = a ++ b /\ k' = a ++ x :: b /\
              lw = last_id a /\ rw = head_id b.
Proof.
  unfold adopt, gapAt.
  destruct (gap_from None lw rw k) as [[a b]|] eqn:G; [|discriminate].
  intros [= <-]. apply gap_from_sound in G. destruct G as (-> & -> & ->).
  exists a, b. repeat split. now destruct a.
Qed.

Lemma createDir_inv (text : string) (dir : Direction) (st st' : Region)
  (n : nat) :
  createDir text dir st = Ok (n, st') ->
  n = nextId st /\
  exists a b,
    kids (blk st) = a ++ b /\
    c_L (cursor st) = last_id a /\ c_R (cursor st) = head_id b /\
    st' = mkRegion (mkTextBlock (tb_id (blk st)) (ctrlSeq (blk st))
                      (anticursorPosition (blk st))
                      (a ++ mkTextPiece (nextId st) text :: b))
                   (cursor_set dir (Some (nextId st)) (cursor st))
                   (aria st) (S (nextId st)).
Proof.
  unfold createDir, bind, newId, gets, adoptPiece, setCursorAt, modify, ret.
  cbn [blk cursor kids aria nextId].
  destruct (adopt _ _ _ _) as [k'|] eqn:Ad; [|discriminate].
  intros [= <- <-]. split; [reflexivity|].
  apply adopt_inv in Ad. destruct Ad as (a & b & Ek & -> & HL & HR).
  now exists a, b.
Qed.

Section OpsKeepPiecesOk.
Variables (st st' : Region).
Hypothesis Hok : tree_ok st.

Lemma found_nonempty (x : nat) (p : TextPiece) :
  find_node x (kids (blk st)) = Some p -> textStr p <> "".
Proof.
  intros Hf. apply find_node_in in Hf. destruct Hf as [Hin _].
  destruct Hok as (_ & _ & Hne). rewrite Forall_forall in Hne. now apply Hne.
Qed.

Lemma append_nonempty_l (a b : string) : a <> "" -> a +++ b <> "".
Proof. destruct a; [congruence | discriminate]. Qed.

Lemma append_nonempty_r (a b : string) : b <> "" -> a +++ b <> "".
Proof. destruct a; [easy | discriminate]. Qed.

Lemma appendText_ok (x : nat) (text : string) :
  appendText x text st = Ok (tt, st') -> tree_ok st'.
Proof.
  unfold appendText, bind.
  destruct (getPiece x st) as [[p s1]|] eqn:G; [|discriminate].
  apply getPiece_inv in G. destruct G as [-> Hf].
  unfold setTextStr, modify. intros [= <-].
  apply pieces_ok_update; [exact Hok|].
  apply append_nonempty_l. now apply (found_nonempty x).
Qed.

Lemma prependText_ok (x : nat) (text : string) :
  prependText x text st = Ok (tt, st') -> tree_ok st'.
Proof.
  unfold prependText, bind.
  destruct (getPiece x st) as [[p s1]|] eqn:G; [|discriminate].
  apply getPiece_inv in G. destruct G as [-> Hf].
  unfold setTextStr, modify. intros [= <-].
  apply pieces_ok_update; [exact Hok|].
  apply append_nonempty_r. now apply (found_nonempty x).
Qed.

Lemma insTextAtDirEnd_ok (x : nat) (text : string) (dir : Direction) :
  insTextAtDirEnd x text dir st = Ok (tt, st') -> tree_ok st'.
Proof. destruct dir; [apply prependText_ok | apply appendText_ok]. Qed.

Lemma createDir_ok (text : string) (dir : Direction) (n : nat) :
  text <> "" -> createDir text dir st = Ok (n, st') -> tree_ok st'.
Proof.
  intros Ht E. apply createDir_inv in E.
  destruct E as (_ & a & b & Ek & _ & _ & ->).
  unfold tree_ok in *. cbn [blk kids nextId]. rewrite Ek in Hok.
  now apply pieces_ok_insert.
Qed.

(** [splitRight(i)] strictly inside the piece. *)
Lemma splitRight_ok (x : nat) (i : Z) (p : TextPiece) (n : nat) :
  find_node x (kids (blk st)) = Some p ->
  (0 < i < Str.len (textStr p))%Z ->
  splitRight x i st = Ok (n, st') -> tree_ok st'.
Proof.
  intros Hf Hi. unfold splitRight, bind.
  unfold getPiece. rewrite Hf.
  unfold node_at, gets, newId, adoptPiece. cbn [blk kids nextId cursor aria].
  destruct (adopt _ _ _ _) as [k'|] eqn:Ad; [|discriminate].
  unfold setTextStr, modify, ret. intros [= <- <-].
  apply adopt_inv in Ad. destruct Ad as (a & b & Ek & -> & _ & _).
  apply pieces_ok_update.
  - unfold set_kids. cbn [blk kids nextId].
    unfold tree_ok in Hok. rewrite Ek in Hok.
    apply pieces_ok_insert; [exact Hok|].
    intros E.
    pose proof (StrFacts.length_slice_suffix (textStr p) i ltac:(lia)) as Hl.
    rewrite E in Hl. unfold Str.len in *. simpl in Hl. lia.
  - intros E.
    pose proof (StrFacts.length_slice_prefix (textStr p) i ltac:(lia)) as Hl.
    rewrite E in Hl. unfold Str.len in *. simpl in Hl. lia.
Qed.

Lemma slice_tail_nonempty (s : string) :
  (1 < Str.len s)%Z -> Str.slice s 1 None <> "".
Proof.
  intros Hl E.
  pose proof (StrFacts.length_slice_suffix s 1 ltac:(lia)) as H1.
  rewrite E in H1. unfold Str.len in *. simpl in H1. lia.
Qed.

Lemma slice_init_nonempty (s : string) :
  (1 < Str.len s)%Z -> Str.slice s 0 (Some (-1)%Z) <> "".
Proof.
  intros Hl E. unfold Str.len in Hl.
  destruct (StrFacts.last_char s) as (r & c & Es).
  { intros ->. simpl in Hl. lia. }
  rewrite Es, StrFacts.slice_init in E. subst r. rewrite Es in Hl.
  simpl in Hl. lia.
Qed.

Lemma deleteTowards_ok (x : nat) (dir : Direction) :
  deleteTowards x dir st = Ok (tt, st') -> tree_ok st'.
Proof.
  unfold deleteTowards, bind.
  destruct (getPiece x st) as [[p s1]|] eqn:G; [|discriminate].
  apply getPiece_inv in G. destruct G as [-> Hf].
  destruct (Z.ltb_spec 1 (Str.len (textStr p))) as [Hl|Hl].
  - destruct dir; unfold setTextStr, aria_queue, modify; intros [= <-];
      unfold tree_ok; cbn [blk kids nextId set_kids];
      apply pieces_ok_update; try exact Hok.
    + now apply slice_init_nonempty.
    + now apply slice_tail_nonempty.
  - unfold node_at, gets, remove, setCursorAt, aria_queue, modify.
    intros [= <-]. unfold tree_ok. cbn [blk kids nextId set_kids set_cursor].
    now apply pieces_ok_disown.
Qed.

End OpsKeepPiecesOk.

Lemma endChar_nonempty (dir : Direction) (s : string) :
  s <> "" -> endChar dir s <> "".
Proof.
  intros Hs. destruct dir; unfold endChar.
  - destruct s; [congruence | discriminate].
  - destruct (StrFacts.last_char s Hs) as (r & c & ->).
    rewrite Z.add_comm, StrFacts.charAt_last. discriminate.
Qed.

(** The character handed to the neighbour [from] on the [-dir] side, as
    [moveTowards] and [selectTowards] both do it. *)
Lemma transfer_ok (st st' : Region) (from : NodeRef) (ch : string)
  (dir : Direction) :
  tree_ok st -> ch <> "" ->
  match from with
  | Some f => insTextAtDirEnd f ch dir
  | None => bind (createDir ch (opp dir)) (fun _ => ret tt)
  end st = Ok (tt, st') ->
  tree_ok st'.
Proof.
  intros Hok Hch. destruct from as [f|].
  - now apply insTextAtDirEnd_ok.
  - unfold bind.
    destruct (createDir ch (opp dir) st) as [[n s1]|] eqn:C; [|discriminate].
    unfold ret. intros [= <-]. now apply (createDir_ok st s1 Hok ch (opp dir) n).
Qed.

Lemma moveTowards_ok (st st' : Region) (x : nat) (dir : Direction) :
  tree_ok st -> moveTowards x dir st = Ok (tt, st') -> tree_ok st'.
Proof.
  intros Hok. unfold moveTowards. unfold bind at 1.
  destruct (getPiece x st) as [[p s1]|] eqn:G; [|discriminate].
  apply getPiece_inv in G. destruct G as [-> Hf].
  unfold bind at 1. unfold node_at, gets. unfold bind at 1.
  match goal with |- context [match ?m st with _ => _ end] =>
    destruct (m st) as [[[] s1]|] eqn:T; [|discriminate]
  end.
  apply transfer_ok in T;
    [| exact Hok | apply endChar_nonempty; now apply (found_nonempty st Hok x)].
  now apply deleteTowards_ok.
Qed.

Lemma selectTowards_ok (st st' : Region) (x : nat) (dir : Direction) :
  tree_ok st -> selectTowards x dir st = Ok (tt, st') -> tree_ok st'.
Proof.
  intros Hok. unfold selectTowards. unfold bind at 1. unfold gets at 1.
  destruct (anticursor (cursor st)) as [a|]; [|unfold ret; now intros [= <-]].
  unfold bind at 1.
  destruct (getPiece x st) as [[p s1]|] eqn:G; [|discriminate].
  apply getPiece_inv in G. destruct G as [-> Hf].
  assert (Hch : endChar (opp dir) (textStr p) <> "")
    by (apply endChar_nonempty; now apply (found_nonempty st Hok x)).
  unfold bind at 1.
  destruct (ref_eqb (anti_at dir a) (Some x)).
  - unfold bind at 1.
    destruct (createDir _ dir st) as [[n s1]|] eqn:C; [|discriminate].
    apply (createDir_ok st s1 Hok _ dir n Hch) in C.
    unfold bind at 1. unfold modify at 1.
    unfold insDirOf, bind, node_at, gets, modify.
    apply deleteTowards_ok. exact C.
  - unfold bind at 1. unfold node_at at 1, gets at 1. unfold bind at 1.
    match goal with |- context [match ?m st with _ => _ end] =>
      destruct (m st) as [[[] s1]|] eqn:T; [|discriminate]
    end.
    apply transfer_ok in T; [| exact Hok | exact Hch].
    destruct ((Str.len (textStr p) =? 1)%Z && ref_eqb (anti_at (opp dir) a) (Some x)).
    + unfold bind at 1, node_at, gets, modify.
      apply deleteTowards_ok. exact T.
    + unfold ret. now apply deleteTowards_ok.
Qed.

Lemma find_node_split (x : nat) (k : list TextPiece) (p : TextPiece) :
  find_node x k = Some p ->
  exists pre post, k = pre ++ p :: post /\ pc_id p = x /\ ~ In x (ids pre).
Proof.
  induction k as [|y l IH]; [discriminate|].
  cbn [find_node ident TextPiece_Ident].
  destruct (Nat.eqb_spec (pc_id y) x) as [E|E].
  - intros [= <-]. exists [], l. now repeat split.
  - intros Hf. destruct (IH Hf) as (pre & post & -> & Hp & Hn).
    exists (y :: pre), post. repeat split; [assumption|].
    cbn. intros [Hc|Hc]; [now apply E | now apply Hn].
Qed.

(** [splitRight(i)] on the piece [p] between [pre] and [post]. *)
Lemma splitRight_mid (st : Region) (i : Z)
  (pre : list TextPiece) (p : TextPiece) (post : list TextPiece) :
  kids (blk st) = pre ++ p :: post ->
  NoDup (ids (pre ++ p :: post)) ->
  splitRight (pc_id p) i st =
  Ok (nextId st,
      mkRegion (mkTextBlock (tb_id (blk st)) (ctrlSeq (blk st))
                  (anticursorPosition (blk st))
                  (pre ++ mkTextPiece (pc_id p) (Str.slice (textStr p) 0 (Some i))
                       :: mkTextPiece (nextId st) (Str.slice (textStr p) i None)
                       :: post))
               (cursor st) (aria st) (S (nextId st))).
Proof.
  intros Hk Hnd.
  pose proof (NoDup_mid_left pre p post Hnd) as Hpre.
  cbn [ident TextPiece_Ident] in Hpre.
  unfold splitRight. unfold bind at 1.
  rewrite (getPiece_mid st (pc_id p) pre p post Hk eq_refl Hpre).
  unfold bind at 1.
  rewrite (node_at_mid st (pc_id p) pre p post Hk eq_refl Hpre).
  unfold bind, newId, adoptPiece. cbn [neighbour blk kids nextId cursor aria].
  rewrite Hk.
  assert (Hnd2 : NoDup (ids ((pre ++ [p]) ++ post)))
    by now rewrite <- app_assoc.
  pose proof (adopt_split (mkTextPiece (nextId st) (Str.slice (textStr p) i None))
                (pre ++ [p]) post Hnd2) as Ad.
  rewrite last_id_snoc, <- app_assoc in Ad. cbn [app ident TextPiece_Ident] in Ad.
  rewrite Ad.
  unfold setTextStr, modify, ret, set_kids. cbn [blk kids nextId cursor aria].
  rewrite <- app_assoc. cbn [app].
  pose proof (update_mid (fun q => mkTextPiece (pc_id q)
                            (Str.slice (textStr p) 0 (Some i)))
                pre p (mkTextPiece (nextId st) (Str.slice (textStr p) i None) :: post))
    as Up.
  cbn [ident TextPiece_Ident] in Up. rewrite (Up Hpre). reflexivity.
Qed.

Lemma find_node_some (x : nat) (k : list TextPiece) :
  In x (ids k) -> exists p, find_node x k = Some p.
Proof.
  induction k as [|y l IH]; [intros []|].
  cbn [ids map find_node ident TextPiece_Ident].
  destruct (Nat.eqb_spec (pc_id y) x) as [E|E].
  - intros _. now exists y.
  - intros [H|H]; [contradiction|]. now apply IH.
Qed.

Lemma rightOf_in (n f : nat) (l : list TextPiece) :
  rightOf n l = Some f -> In f (ids l).
Proof.
  induction l as [|x r IH]; [discriminate|].
  cbn [rightOf ident TextPiece_Ident].
  destruct (Nat.eqb (pc_id x) n).
  - destruct r as [|y r']; [discriminate|].
    cbn. intros [= <-]. right. now left.
  - intros E. right. now apply IH.
Qed.

Lemma leftOf_from_in (prev : NodeRef) (n f : nat) (l : list TextPiece) :
  leftOf_from prev n l = Some f -> prev = Some f \/ In f (ids l).
Proof.
  revert prev. induction l as [|x r IH]; intros prev; [discriminate|].
  cbn [leftOf_from ident TextPiece_Ident].
  destruct (Nat.eqb (pc_id x) n).
  - intros ->. now left.
  - intros E. apply IH in E. right. destruct E as [[= <-]|E]; [now left | now right].
Qed.

Lemma sibling_in (dir : Direction) (n f : nat) (l : list TextPiece) :
  sibling dir n l = Some f -> In f (ids l).
Proof.
  destruct dir; cbn [sibling].
  - unfold leftOf. intros E. apply leftOf_from_in in E.
    destruct E as [E|E]; [discriminate | exact E].
  - apply rightOf_in.
Qed.

Section Returns.
Variables (st : Region) (this : nat).
Hypothesis Hin : In this (ids (kids (blk st))).

Lemma setText_returns (f : string -> string) :
  exists st',
    bind (getPiece this) (fun p => setTextStr this (f (textStr p))) st =
      Ok (tt, st') /\
    ids (kids (blk st')) = ids (kids (blk st)) /\
    cursor st' = cursor st /\ nextId st' = nextId st.
Proof.
  destruct (find_node_some this _ Hin) as (p & Hf).
  unfold bind, getPiece. rewrite Hf. unfold setTextStr, modify.
  eexists. split; [reflexivity|]. cbn [set_kids blk kids cursor nextId].
  split; [apply ids_update | split; reflexivity].
Qed.

Lemma insTextAtDirEnd_returns (text : string) (dir : Direction) :
  exists st',
    insTextAtDirEnd this text dir st = Ok (tt, st') /\
    ids (kids (blk st')) = ids (kids (blk st)).
Proof.
  destruct dir; cbn [insTextAtDirEnd].
  - destruct (setText_returns (fun s => text +++ s)) as (st' & E & I & _).
    exists st'. split; [exact E | exact I].
  - destruct (setText_returns (fun s => s +++ text)) as (st' & E & I & _).
    exists st'. split; [exact E | exact I].
Qed.

Lemma deleteTowards_returns (dir : Direction) :
  exists st', deleteTowards this dir st = Ok (tt, st').
Proof.
  destruct (find_node_some this _ Hin) as (p & Hf).
  unfold deleteTowards. unfold bind at 1. unfold getPiece. rewrite Hf.
  destruct (1 <? Str.len (textStr p))%Z; [destruct dir|]; eexists; reflexivity.
Qed.

End Returns.

Lemma createDir_returns (st : Region) (text : string) (dir : Direction) :
  NoDup (ids (kids (blk st))) ->
  cursor_in_gap st ->
  exists st',
    createDir text dir st = Ok (nextId st, st') /\
    (forall x, In x (ids (kids (blk st))) -> In x (ids (kids (blk st')))).
Proof.
  intros Hnd (a & b & Hk & HL & HR). rewrite Hk in Hnd.
  rewrite (createDir_gap st text dir a b Hk HL HR Hnd).
  eexists. split; [reflexivity|]. cbn [blk kids]. rewrite Hk.
  intros x. rewrite !ids_app. cbn [ids map]. rewrite !in_app_iff. cbn. tauto.
Qed.

(** The transfer of a character out of [this]: into the neighbour on the
    [opp dir] side, or into a new piece at the cursor. *)
Lemma transfer_returns (st : Region) (this : nat) (ch : string)
  (dir : Direction) :
  NoDup (ids (kids (blk st))) ->
  cursor_in_gap st ->
  In this (ids (kids (blk st))) ->
  exists st',
    match sibling (opp dir) this (kids (blk st)) with
    | Some f => insTextAtDirEnd f ch dir
    | None => bind (createDir ch (opp dir)) (fun _ => ret tt)
    end st = Ok (tt, st') /\
    In this (ids (kids (blk st'))).
Proof.
  intros Hnd Hgap Hin.
  destruct (sibling (opp dir) this (kids (blk st))) as [f|] eqn:Sb.
  - apply sibling_in in Sb.
    destruct (insTextAtDirEnd_returns st f Sb ch dir) as (st' & E & I).
    exists st'. split; [exact E | now rewrite I].
  - destruct (createDir_returns st ch (opp dir) Hnd Hgap) as (st' & E & I).
    exists st'. unfold bind. rewrite E. split; [reflexivity | now apply I].
Qed.

Lemma moveTowards_returns (st : Region) (this : nat) (dir : Direction) :
  NoDup (ids (kids (blk st))) ->
  cursor_in_gap st ->
  In this (ids (kids (blk st))) ->
  exists st', moveTowards this dir st = Ok (tt, st').
Proof.
  intros Hnd Hgap Hin.
  destruct (find_node_some this _ Hin) as (p & Hf).
  unfold moveTowards. unfold bind at 1. unfold getPiece. rewrite Hf.
  unfold bind at 1. unfold bind at 1. unfold node_at, gets.
  destruct (transfer_returns st this (endChar (opp dir) (textStr p)) dir
              Hnd Hgap Hin) as (st1 & E & I).
  unfold M in E. rewrite E. now apply deleteTowards_returns.
Qed.

Lemma selectTowards_returns (st : Region) (this : nat) (dir : Direction) :
  NoDup (ids (kids (blk st))) ->
  cursor_in_gap st ->
  In this (ids (kids (blk st))) ->
  exists st', selectTowards this dir st = Ok (tt, st').
Proof.
  intros Hnd Hgap Hin.
  destruct (find_node_some this _ Hin) as (p & Hf).
  unfold selectTowards. unfold bind at 1. unfold gets at 1.
  destruct (anticursor (cursor st)) as [a|]; [|now exists st].
  unfold bind at 1. unfold getPiece. rewrite Hf.
  unfold bind at 1.
  destruct (ref_eqb (anti_at dir a) (Some this)).
  - destruct (createDir_returns st (endChar (opp dir) (textStr p)) dir Hnd Hgap)
      as (st1 & E & I).
    unfold bind at 1. rewrite E.
    unfold bind at 1. unfold modify at 1.
    unfold insDirOf. unfold bind at 1. unfold node_at, gets. unfold modify at 1.
    apply deleteTowards_returns.
    cbn [set_cursor set_anticursor blk kids]. now apply I.
  - unfold bind at 1. unfold bind at 1. unfold node_at at 1. unfold gets at 1.
    destruct (transfer_returns st this (endChar (opp dir) (textStr p)) dir
                Hnd Hgap Hin) as (st1 & E & I).
    unfold M in E. rewrite E.
    destruct ((Str.len (textStr p) =? 1)%Z
              && ref_eqb (anti_at (opp dir) a) (Some this)).
    + unfold bind at 1. unfold node_at, gets. unfold modify.
      apply deleteTowards_returns. exact I.
    + unfold ret. apply deleteTowards_returns. exact I.
Qed.

Lemma splitRight_returns (st : Region) (this : nat) (i : Z) :
  NoDup (ids (kids (blk st))) ->
  In this (ids (kids (blk st))) ->
  exists n st', splitRight this i st = Ok (n, st').
Proof.
  intros Hnd Hin.
  destruct (find_node_some this _ Hin) as (p & Hf).
  destruct (find_node_split this _ p Hf) as (pre & post & Hk & <- & _).
  rewrite Hk in Hnd.
  rewrite (splitRight_mid st i pre p post Hk Hnd). eexists. eexists. reflexivity.
Qed.

(** Every public operation of a piece of the block returns when the cursor
    stands in a gap of the block. *)
Lemma run_op_returns (st : Region) (this : nat) (op : PieceOp) :
  NoDup (ids (kids (blk st))) ->
  cursor_in_gap st ->
  In this (ids (kids (blk st))) ->
  exists st', run_op this op st = Ok (tt, st').
Proof.
  intros Hnd Hgap Hin. destruct op; cbn [run_op].
  - destruct (setText_returns st this Hin (fun s => s +++ text)) as (st' & E & _).
    now exists st'.
  - destruct (setText_returns st this Hin (fun s => text +++ s)) as (st' & E & _).
    now exists st'.
  - destruct (splitRight_returns st this i Hnd Hin) as (n & st' & E).
    exists st'. unfold bind. now rewrite E.
  - now apply moveTowards_returns.
  - now apply deleteTowards_returns.
  - now apply selectTowards_returns.
Qed.

(** C6.  In a block whose pieces are all nonempty (and have the unique ids
    the constructors gave them), every public operation of a piece [this]
    (append, prepend, split at an interior offset, move-character-towards,
    delete-towards, select-towards) returns when [this] is in the block and
    the cursor stands in a gap of the block, and whenever it returns it
    leaves a block whose pieces are all nonempty; and deleting the only
    character of a piece removes the piece from the tree. *)
Theorem pieces_never_empty (st : Region) (this : nat) (op : PieceOp) :
  tree_ok st ->
  interior this op st ->
  (cursor_in_gap st ->
   In this (ids (kids (blk st))) ->
   exists st', run_op this op st = Ok (tt, st')) /\
  (forall st',
     run_op this op st = Ok (tt, st') ->
     tree_ok st' /\
     Forall (fun p => textStr p <> "") (kids (blk st')) /\
     (forall dir p,
        op = DeleteTowards dir ->
        find_node this (kids (blk st)) = Some p ->
        String.length (textStr p) = 1 ->
        find_node this (kids (blk st')) = None)).
Proof.
  intros Hok Hin. split.
  { intros Hgap Hthis. apply run_op_returns; [apply Hok | exact Hgap | exact Hthis]. }
  intros st' Hrun.
  assert (Hok' : tree_ok st').
  { destruct op; cbn [run_op interior] in *.
    - now apply (appendText_ok st st' Hok this text).
    - now apply (prependText_ok st st' Hok this text).
    - destruct Hin as (p & Hf & Hi). unfold bind in Hrun.
      destruct (splitRight this i st) as [[n s1]|] eqn:S; [|discriminate].
      unfold ret in Hrun. injection Hrun as <-.
      now apply (splitRight_ok st s1 Hok this i p n).
    - now apply (moveTowards_ok st st' this dir).
    - now apply (deleteTowards_ok st st' Hok this dir).
    - now apply (selectTowards_ok st st' this dir). }
  split; [exact Hok'|]. split; [apply Hok'|].
  intros dir p -> Hf Hlen. cbn [run_op] in Hrun.
  destruct (find_node_split this _ p Hf) as (pre & post & Hk & Hp & Hpre).
  rewrite (deleteTowards_single st this dir pre p post Hk Hp Hpre) in Hrun by lia.
  injection Hrun as <-. cbn [with_text blk kids].
  apply find_node_absent.
  destruct Hok as (Hnd & _ & _). rewrite Hk in Hnd.
  pose proof (NoDup_mid_not_in pre p post Hnd) as (_ & Hpost & _).
  rewrite ids_app. intros Hc. apply in_app_or in Hc.
  cbn [ident TextPiece_Ident] in Hpost. rewrite Hp in Hpost. tauto.
Qed.

(** Deleting leftward from the cursor after ["a"] in ["a"]["cd"]: the
    piece ["a"] is gone and the block is ["cd"]. *)
Lemma pieces_never_empty_witness :
  exists st',
    run_op 1 (DeleteTowards L)
      (mkRegion (mkTextBlock 10 "\text" None
                   [mkTextPiece 1 "a"; mkTextPiece 2 "cd"])
         (mkCursor 10 (Some 1) (Some 2) None) [] 20) = Ok (tt, st') /\
    tree_ok st' /\ find_node 1 (kids (blk st')) = None.
Proof.
  assert (Hok : tree_ok
                  (mkRegion (mkTextBlock 10 "\text" None
                               [mkTextPiece 1 "a"; mkTextPiece 2 "cd"])
                     (mkCursor 10 (Some 1) (Some 2) None) [] 20)).
  { repeat split.
    - repeat constructor; simpl; intuition discriminate.
    - simpl. intros n [<-|[<-|[]]]; lia.
    - repeat constructor; discriminate. }
  destruct (pieces_never_empty _ 1 (DeleteTowards L) Hok I) as [Hret Hinv].
  destruct Hret as (st' & Run).
  - exists [mkTextPiece 1 "a"], [mkTextPiece 2 "cd"]. now repeat split.
  - simpl. now left.
  - exists st'. split; [exact Run|].
    destruct (Hinv st' Run) as (H1 & _ & H3).
    split; [exact H1|].
    exact (H3 L (mkTextPiece 1 "a") eq_refl eq_refl eq_refl).
Defined.

(* ================================================================== *)
(** * [TextPiece.splitRight] and the anticursor in [seek] *)
(* ================================================================== *)

Lemma offset_of_split (a b : list TextPiece) :
  NoDup (ids (a ++ b)) ->
  offset_of (last_id a) (head_id b) (a ++ b) = Some (Str.len (text_of a)).
Proof. intros Hnd. unfold offset_of. now rewrite gapAt_split. Qed.

Lemma text_of_one (p : TextPiece) : text_of [p] = textStr p.
Proof. rewrite text_of_cons, text_of_nil. apply StrFacts.append_nil_r. Qed.

Lemma at_most_one {A : Type} (l : list A) :
  length l <= 1 -> l = [] \/ exists x, l = [x].
Proof.
  destruct l as [|x [|y l]]; cbn; intros Hl;
    [now left | right; now exists x | lia].
Qed.

Section SeekAnticursor.
Variables (st : Region) (lp rp : list TextPiece).
Hypothesis Hkids : kids (blk st) = lp ++ rp.
Hypothesis Hlp : length lp <= 1.
Hypothesis Hrp : length rp <= 1.
Hypothesis Hnd : NoDup (ids (lp ++ rp)).
Hypothesis Hfresh : ~ In (nextId st) (ids (lp ++ rp)).
Hypothesis HcL : c_L (cursor st) = last_id lp.
Hypothesis HcR : c_R (cursor st) = head_id rp.

Lemma cursorPosition_gap :
  cursorPosition st = Ok (Str.len (text_of lp), st).
Proof.
  unfold cursorPosition, bind, cursorAt, gets. cbn [cursor_at]. rewrite HcL.
  destruct (at_most_one lp Hlp) as [E | (l & E)]; rewrite E in *.
  - reflexivity.
  - cbn [last_id ident TextPiece_Ident].
    rewrite (getPiece_mid st (pc_id l) [] l rp Hkids eq_refl (fun H => H)).
    unfold ret. now rewrite text_of_one.
Qed.

(** No anticursor yet: the cursor's character offset is cached. *)
Lemma seek_anticursor_cache :
  anticursor (cursor st) = None ->
  seek_anticursor st =
  Ok (tt, set_anticursorPosition (Some (Str.len (text_of lp))) st).
Proof.
  intros Ha. unfold seek_anticursor, bind, gets. rewrite Ha.
  now rewrite cursorPosition_gap.
Qed.

Variables (a : Anticursor) (ap : Z).
Hypothesis Hanti : anticursor (cursor st) = Some a.
Hypothesis Hparent : a_parent a = tb_id (blk st).
Hypothesis Hcached : anticursorPosition (blk st) = Some ap.

Lemma seek_anticursor_head :
  seek_anticursor st =
  (if (ap =? Str.len (text_of lp))%Z then
     modify (fun s => set_anticursor (Some (fromCursor (cursor s))) s) st
   else
     bind
       (if (ap <? Str.len (text_of lp))%Z then
          match last_id lp with
          | Some l =>
              bind (splitRight l ap)
                (fun n => bind (setCursorAt L (Some n)) (fun _ => ret n))
          | None => throw "TypeError: splitRight of 0"
          end
        else
          bind (cursorAt R)
            (fun cursorR =>
               match cursorR with
               | Some r => splitRight r (ap - Str.len (text_of lp))
               | None => throw "TypeError: splitRight of 0"
               end))
       (fun newTextPc =>
          bind (node_at L newTextPc)
            (fun newL =>
               modify (set_anticursor
                         (Some (mkAnticursor (tb_id (blk st)) newL
                                  (Some newTextPc)))))) st).
Proof.
  unfold seek_anticursor. unfold bind at 1. unfold gets at 1.
  unfold bind at 1. unfold gets at 1. rewrite Hanti, Hparent, Nat.eqb_refl.
  unfold bind at 1. unfold cursorAt at 1, gets at 1. cbn [cursor_at].
  unfold bind at 1. rewrite cursorPosition_gap.
  unfold bind at 1. unfold gets at 1. rewrite Hcached, HcL.
  now destruct (ap =? Str.len (text_of lp))%Z.
Qed.

(** The cached offset is the cursor's: the anticursor is put at the
    cursor. *)
Lemma seek_anticursor_same :
  ap = Str.len (text_of lp) ->
  seek_anticursor st =
  Ok (tt, set_anticursor (Some (fromCursor (cursor st))) st).
Proof.
  intros E. rewrite seek_anticursor_head.
  now rewrite (proj2 (Z.eqb_eq _ _) E).
Qed.

(** The cached offset is left of the cursor: the cursor's left neighbour
    is split there. *)
Lemma seek_anticursor_left :
  (0 <= ap < Str.len (text_of lp))%Z ->
  exists l,
    lp = [l] /\
    seek_anticursor st =
    Ok (tt,
        mkRegion (mkTextBlock (tb_id (blk st)) (ctrlSeq (blk st)) (Some ap)
                    (mkTextPiece (pc_id l) (Str.slice (textStr l) 0 (Some ap))
                     :: mkTextPiece (nextId st) (Str.slice (textStr l) ap None)
                     :: rp))
                 (mkCursor (parent (cursor st)) (Some (nextId st))
                    (c_R (cursor st))
                    (Some (mkAnticursor (tb_id (blk st)) (Some (pc_id l))
                             (Some (nextId st)))))
                 (aria st) (S (nextId st))).
Proof.
  intros Hap. rewrite seek_anticursor_head.
  destruct (at_most_one lp Hlp) as [E | (l & E)]; rewrite E in *.
  { cbn in Hap. lia. }
  exists l. split; [reflexivity|].
  destruct (Z.eqb_spec ap (Str.len (text_of [l]))); [lia|].
  destruct (Z.ltb_spec ap (Str.len (text_of [l]))); [|lia].
  cbn [last_id ident TextPiece_Ident]. unfold bind at 1. unfold bind at 1.
  rewrite (splitRight_mid st ap [] l rp Hkids Hnd).
  unfold bind at 1. unfold setCursorAt, modify, ret. cbn [app].
  unfold bind at 1. unfold node_at, gets, set_cursor.
  cbn [blk kids cursor aria nextId sibling].
  pose proof (leftOf_mid [mkTextPiece (pc_id l) (Str.slice (textStr l) 0 (Some ap))]
                (mkTextPiece (nextId st) (Str.slice (textStr l) ap None)) rp) as Lf.
  cbn [app ident TextPiece_Ident pc_id last_id] in Lf. rewrite Lf.
  - unfold set_anticursor, set_cursor, cursor_set.
    cbn [blk cursor aria nextId parent c_L c_R anticursor tb_id ctrlSeq
         anticursorPosition kids].
    rewrite Hcached. reflexivity.
  - cbn. intros [Hc|[]]. apply Hfresh. cbn. now left.
Qed.

(** The cached offset is right of the cursor: the cursor's right
    neighbour is split there. *)
Lemma seek_anticursor_right :
  (Str.len (text_of lp) < ap <= Str.len (text_of (lp ++ rp)))%Z ->
  exists r,
    rp = [r] /\
    seek_anticursor st =
    Ok (tt,
        mkRegion (mkTextBlock (tb_id (blk st)) (ctrlSeq (blk st)) (Some ap)
                    (lp ++
                     [mkTextPiece (pc_id r)
                        (Str.slice (textStr r) 0
                           (Some (ap - Str.len (text_of lp))%Z));
                      mkTextPiece (nextId st)
                        (Str.slice (textStr r)
                           (ap - Str.len (text_of lp)) None)]))
                 (mkCursor (parent (cursor st)) (c_L (cursor st))
                    (c_R (cursor st))
                    (Some (mkAnticursor (tb_id (blk st)) (Some (pc_id r))
                             (Some (nextId st)))))
                 (aria st) (S (nextId st))).
Proof.
  intros Hap. rewrite seek_anticursor_head.
  destruct (at_most_one rp Hrp) as [E | (r & E)]; rewrite E in *.
  { rewrite app_nil_r in Hap. lia. }
  exists r. split; [reflexivity|].
  destruct (Z.eqb_spec ap (Str.len (text_of lp))); [lia|].
  destruct (Z.ltb_spec ap (Str.len (text_of lp))); [lia|].
  unfold bind at 1. unfold bind at 1. unfold cursorAt, gets. cbn [cursor_at].
  rewrite HcR. cbn [head_id ident TextPiece_Ident].
  rewrite (splitRight_mid st _ lp r [] Hkids Hnd).
  unfold bind at 1. unfold node_at, gets, set_cursor.
  cbn [blk kids cursor aria nextId sibling].
  pose proof (leftOf_mid
                (lp ++ [mkTextPiece (pc_id r)
                          (Str.slice (textStr r) 0
                             (Some (ap - Str.len (text_of lp))%Z))])
                (mkTextPiece (nextId st)
                   (Str.slice (textStr r) (ap - Str.len (text_of lp)) None)) [])
    as Lf.
  rewrite <- app_assoc in Lf. cbn [app ident TextPiece_Ident pc_id] in Lf.
  rewrite Lf.
  - rewrite last_id_snoc. cbn [ident TextPiece_Ident pc_id].
    unfold modify, set_anticursor, set_cursor.
    cbn [blk cursor aria nextId parent c_L c_R anticursor tb_id ctrlSeq
         anticursorPosition kids].
    rewrite Hcached, ?HcR. reflexivity.
  - rewrite ids_snoc. cbn [pc_id]. rewrite <- ids_snoc.
    intros Hc. apply Hfresh. rewrite ids_app in *.
    apply in_app_or in Hc. apply in_or_app. cbn in *. tauto.
Qed.

End SeekAnticursor.

Lemma len_append (a b : string) :
  Str.len (a +++ b) = (Str.len a + Str.len b)%Z.
Proof. unfold Str.len. rewrite StrFacts.length_append. lia. Qed.

Lemma NoDup_fresh_pair (x n : nat) (l : list nat) :
  NoDup (x :: l) -> ~ In n (x :: l) -> NoDup (x :: n :: l).
Proof.
  intros Hnd Hn. apply (NoDup_insert [x] l n); assumption.
Qed.

(** The end of [seek] in a block holding the pieces [lp] left of the
    cursor and [rp] right of it (at most one each, as the hit test leaves
    them), [pos] being the cursor's character offset.  With no anticursor,
    [pos] is cached ([0] at the left end).  With an anticursor of this block
    and a cached offset [ap] inside the text: the anticursor ends up as a
    gap of the block at character offset [ap], and the text is unchanged;
    if [ap = pos] it is the cursor's own point; if [ap < pos] the cursor's
    left neighbour was split at [ap]; if [ap > pos] the right neighbour was
    split at [ap - pos]; the anticursor is the point at the split. *)
Lemma seek_anticursor_at (st : Region) (lp rp : list TextPiece) :
  kids (blk st) = lp ++ rp ->
  length lp <= 1 -> length rp <= 1 ->
  NoDup (ids (lp ++ rp)) ->
  ~ In (nextId st) (ids (lp ++ rp)) ->
  parent (cursor st) = tb_id (blk st) ->
  c_L (cursor st) = last_id lp ->
  c_R (cursor st) = head_id rp ->
  let pos := Str.len (text_of lp) in
  offset_of (c_L (cursor st)) (c_R (cursor st)) (kids (blk st)) = Some pos /\
  (anticursor (cursor st) = None ->
   seek_anticursor st = Ok (tt, set_anticursorPosition (Some pos) st)) /\
  (forall a ap,
     anticursor (cursor st) = Some a ->
     a_parent a = tb_id (blk st) ->
     anticursorPosition (blk st) = Some ap ->
     (0 <= ap <= Str.len (textContents (blk st)))%Z ->
     exists st' a',
       seek_anticursor st = Ok (tt, st') /\
       anticursor (cursor st') = Some a' /\
       tb_id (blk st') = tb_id (blk st) /\
       a_parent a' = tb_id (blk st) /\
       offset_of (a_L a') (a_R a') (kids (blk st')) = Some ap /\
       textContents (blk st') = textContents (blk st) /\
       (ap = pos ->
        st' = set_anticursor (Some (fromCursor (cursor st))) st) /\
       ((ap < pos)%Z ->
        exists l,
          lp = [l] /\
          kids (blk st') =
            mkTextPiece (pc_id l) (Str.slice (textStr l) 0 (Some ap))
            :: mkTextPiece (nextId st) (Str.slice (textStr l) ap None) :: rp /\
          c_L (cursor st') = Some (nextId st) /\
          a' = mkAnticursor (tb_id (blk st)) (Some (pc_id l)) (Some (nextId st))) /\
       ((pos < ap)%Z ->
        exists r,
          rp = [r] /\
          kids (blk st') =
            lp ++ [mkTextPiece (pc_id r)
                     (Str.slice (textStr r) 0 (Some (ap - pos)%Z));
                   mkTextPiece (nextId st)
                     (Str.slice (textStr r) (ap - pos) None)] /\
          cursor_at R (cursor st') = Some (pc_id r) /\
          a' = mkAnticursor (tb_id (blk st)) (Some (pc_id r)) (Some (nextId st)))).
Proof.
  intros Hkids Hlp Hrp Hnd Hfresh Hpar HcL HcR pos.
  split; [rewrite HcL, HcR, Hkids; now apply offset_of_split|].
  split; [intros Hno; eapply (seek_anticursor_cache st lp rp); eassumption|].
  intros a ap Hanti Hparent Hcached Hap.
  unfold textContents in Hap. rewrite Hkids, text_of_app, len_append in Hap.
  fold pos in Hap.
  destruct (Z.lt_trichotomy ap pos) as [Hlt|[Heq|Hgt]].
  - (* the cached offset is left of the cursor *)
    edestruct (seek_anticursor_left st lp rp) as (l & El & Run);
      try eassumption; [fold pos; lia|].
    subst lp. unfold pos in *. rewrite text_of_one in *.
    eexists. eexists. split; [exact Run|].
    cbn [cursor anticursor blk kids tb_id a_parent a_L a_R c_L].
    split; [reflexivity|]. split; [reflexivity|]. split; [reflexivity|].
    split; [|split; [|split; [|split]]].
    + pose proof (offset_of_split
                    [mkTextPiece (pc_id l) (Str.slice (textStr l) 0 (Some ap))]
                    (mkTextPiece (nextId st) (Str.slice (textStr l) ap None) :: rp))
        as Off.
      cbn [last_id head_id app ident TextPiece_Ident pc_id] in Off.
      cbn [a_L a_R]. rewrite Off.
      * rewrite text_of_one. cbn [textStr].
        now rewrite StrFacts.length_slice_prefix by lia.
      * cbn. apply NoDup_fresh_pair; [exact Hnd | exact Hfresh].
    + unfold textContents. cbn [kids]. rewrite Hkids.
      change ([l] ++ rp) with (l :: rp). rewrite !text_of_cons. cbn [textStr].
      now rewrite <- StrFacts.append_assoc, StrFacts.slice_split.
    + intros E. lia.
    + intros _. exists l. now repeat split.
    + intros E. lia.
  - (* the cached offset is the cursor's *)
    exists (set_anticursor (Some (fromCursor (cursor st))) st), (fromCursor (cursor st)).
    split; [eapply (seek_anticursor_same st lp rp); eassumption|].
    cbn [set_anticursor set_cursor cursor anticursor blk fromCursor a_parent a_L a_R].
    split; [reflexivity|]. split; [reflexivity|]. split; [exact Hpar|].
    split; [rewrite HcL, HcR, Hkids, Heq; now apply offset_of_split|].
    split; [reflexivity|].
    split; [reflexivity|]. split; intros E; lia.
  - (* the cached offset is right of the cursor *)
    edestruct (seek_anticursor_right st lp rp) as (r & Er & Run);
      try eassumption; [rewrite text_of_app, len_append; fold pos; lia|].
    subst rp. rewrite text_of_one in Hap. fold pos in Run.
    eexists. eexists. split; [exact Run|].
    cbn [cursor anticursor blk kids tb_id a_parent a_L a_R c_L c_R cursor_at].
    split; [reflexivity|]. split; [reflexivity|]. split; [reflexivity|].
    split; [|split; [|split; [|split]]].
    + pose proof (offset_of_split
                    (lp ++ [mkTextPiece (pc_id r)
                              (Str.slice (textStr r) 0 (Some (ap - pos)%Z))])
                    [mkTextPiece (nextId st)
                       (Str.slice (textStr r) (ap - pos) None)])
        as Off.
      rewrite last_id_snoc, <- app_assoc in Off.
      cbn [head_id app ident TextPiece_Ident pc_id] in Off.
      cbn [a_L a_R]. rewrite Off.
      * rewrite text_of_app, text_of_one, len_append. cbn [textStr].
        rewrite StrFacts.length_slice_prefix by lia. fold pos. f_equal. lia.
      * rewrite ids_app. cbn [ids map ident TextPiece_Ident pc_id].
        change (pc_id r :: [nextId st]) with ([pc_id r] ++ [nextId st]).
        rewrite app_assoc.
        apply (NoDup_insert (map pc_id lp ++ [pc_id r]) [] (nextId st));
          rewrite app_nil_r;
          [rewrite ids_app in Hnd | rewrite ids_app in Hfresh]; assumption.
    + unfold textContents. cbn [kids]. rewrite Hkids.
      rewrite !text_of_app. f_equal.
      rewrite text_of_one, !text_of_cons, text_of_nil. cbn [textStr].
      now rewrite StrFacts.append_nil_r, StrFacts.slice_split.
    + intros E. lia.
    + intros E. lia.
    + intros _. exists r. rewrite HcR. now repeat split.
Qed.

(* ================================================================== *)
(** * [TextBlockFuseChildren] *)
(* ================================================================== *)

Lemma normalize_mirror (k : list TextPiece) :
  normalize (mirror k) =
  match text_of k with
  | EmptyString => []
  | s => [DText s]
  end.
Proof.
  induction k as [|p k IH]; [reflexivity|].
  rewrite text_of_cons. cbn [mirror map normalize]. fold (mirror k).
  rewrite IH. destruct (textStr p) as [|c s]; [reflexivity|].
  destruct (text_of k); cbn; [now rewrite StrFacts.append_nil_r | reflexivity].
Qed.

Lemma fuse_text (st : Region) (span : list DomNode) (d : string) :
  normalize span = [DText d] ->
  TextBlockFuseChildren span st = Ok (Some (nextId st), fused st d).
Proof.
  intros E. unfold TextBlockFuseChildren. rewrite E. cbn [oneText].
  reflexivity.
Qed.

(** C9.  [TextBlockFuseChildren] on a block whose rendered container has
    the children [span]: when nothing is left after normalizing, it returns
    nothing and changes nothing; when what is left is one Text node, the
    block's former children are disowned and one new piece holding that
    node's text is its only child; in every other case it aborts on the
    assertion.  When the container mirrors the pieces, it never aborts, and
    the one piece holds the block's merged text. *)
Theorem fuse_spec (st : Region) (span : list DomNode) :
  (normalize span = [] -> TextBlockFuseChildren span st = Ok (None, st)) /\
  (forall d, normalize span = [DText d] ->
     TextBlockFuseChildren span st = Ok (Some (nextId st), fused st d)) /\
  (normalize span <> [] -> (forall d, normalize span <> [DText d]) ->
     TextBlockFuseChildren span st =
     Throw "only node in TextBlock span is Text node") /\
  (span = mirror (kids (blk st)) ->
   (textContents (blk st) = "" ->
    TextBlockFuseChildren span st = Ok (None, st)) /\
   (textContents (blk st) <> "" ->
    TextBlockFuseChildren span st =
    Ok (Some (nextId st), fused st (textContents (blk st))))).
Proof.
  split; [|split; [|split]].
  - intros E. unfold TextBlockFuseChildren. now rewrite E.
  - intros d E. now apply fuse_text.
  - intros Hne Hnot. unfold TextBlockFuseChildren.
    destruct (normalize span) as [|[d|t] [|y r]] eqn:E;
      try reflexivity; [congruence | exfalso; now apply (Hnot d)].
  - intros ->. unfold textContents.
    pose proof (normalize_mirror (kids (blk st))) as N. split.
    + intros E. rewrite E in N. unfold TextBlockFuseChildren. now rewrite N.
    + intros Hne. apply fuse_text. rewrite N.
      destruct (text_of (kids (blk st))); [congruence | reflexivity].
Qed.

(** The pieces ["ab"]["cd"] with a mirroring container are fused into the
    one piece ["abcd"]. *)
Lemma fuse_spec_witness :
  TextBlockFuseChildren [DText "ab"; DText "cd"]
    (mkRegion (mkTextBlock 10 "\text" None
                 [mkTextPiece 1 "ab"; mkTextPiece 2 "cd"])
       (mkCursor 10 (Some 1) (Some 2) None) [] 20) =
  Ok (Some 20,
      mkRegion (mkTextBlock 10 "\text" None [mkTextPiece 20 "abcd"])
        (mkCursor 10 (Some 1) (Some 2) None) [] 21).
Proof.
  apply (proj2 (proj2 (proj2 (fuse_spec
           (mkRegion (mkTextBlock 10 "\text" None
                        [mkTextPiece 1 "ab"; mkTextPiece 2 "cd"])
              (mkCursor 10 (Some 1) (Some 2) None) [] 20)
           [DText "ab"; DText "cd"])))).
  - reflexivity.
  - discriminate.
Defined.

(* ================================================================== *)
(** * [seek]: the hit test and the anticursor *)
(* ================================================================== *)

(** One step of a sequence that succeeds. *)
Lemma bind_ok {S A B : Type} (m : St S A) (k : A -> St S B) (st st' : S) (a : A) :
  m st = Ok (a, st') -> bind m k st = k a st'.
Proof. unfold bind. now intros ->. Qed.

(** The id counter is ahead of every piece. *)
Lemma tree_ok_fresh (st : Region) :
  tree_ok st -> ~ In (nextId st) (ids (kids (blk st))).
Proof.
  intros (_ & Hlt & _) Hin. apply Hlt in Hin. lia.
Qed.

(** A side of at most one piece that has a first (a last) piece is that
    piece. *)
Lemma head_one (rp : list TextPiece) (n : nat) :
  length rp <= 1 -> head_id rp = Some n -> exists p, rp = [p] /\ pc_id p = n.
Proof.
  intros Hl Hh. destruct (at_most_one rp Hl) as [-> | (p & ->)]; [discriminate|].
  exists p. split; [reflexivity|]. now injection Hh.
Qed.

Lemma last_one (lp : list TextPiece) (n : nat) :
  length lp <= 1 -> last_id lp = Some n -> exists p, lp = [p] /\ pc_id p = n.
Proof.
  intros Hl Hh. destruct (at_most_one lp Hl) as [-> | (p & ->)]; [discriminate|].
  exists p. split; [reflexivity|]. now injection Hh.
Qed.

(** One step of the cursor over a character keeps the shape; the side it
    walks into loses one character, and the side it leaves is not empty
    afterwards. *)
Lemma hit_shape_move (st0 st : Region) (lp rp : list TextPiece)
  (dir : Direction) (n : nat) :
  hit_shape st0 st lp rp ->
  cursor_at dir (cursor st) = Some n ->
  exists st' lp' rp',
    moveTowards n dir st = Ok (tt, st') /\
    hit_shape st0 st' lp' rp' /\
    S (String.length (text_of (side dir lp' rp'))) =
      String.length (text_of (side dir lp rp)) /\
    cursor_at (opp dir) (cursor st') <> None.
Proof.
  intros (Hk & Hlp & Hrp & Hok & Hpar & HcL & HcR & Htxt & Hid & Hap & Hanti) Hn.
  pose proof Hok as (Hnd & _ & Hne).
  pose proof (tree_ok_fresh st Hok) as Hfresh.
  rewrite Hk in Hnd, Hfresh, Hne.
  destruct dir; cbn [cursor_at side opp] in *.
  - (* leftwards: the left piece gives its last character *)
    rewrite HcL in Hn. destruct (last_one lp n Hlp Hn) as (p & -> & <-).
    assert (Hp : textStr p <> "").
    { rewrite Forall_forall in Hne. apply Hne. now left. }
    destruct (StrFacts.last_char (textStr p) Hp) as (rest & c & Et).
    destruct (moveTowards_left st [] p rp c rest Hk Hnd Hfresh)
      as (st' & recv & Run & K & Hrecv & CL & CR & F); try assumption.
    exists st', (left_over (pc_id p) rest), recv.
    split; [exact Run|]. cbn [app] in K, CL.
    destruct F as (F1 & F2 & F3 & F4 & F5).
    assert (Lrecv : length recv <= 1 /\ recv <> [] /\
                    text_of recv = String c (text_of rp)).
    { destruct Hrecv as [[-> ->] | (q & post0 & -> & ->)].
      - split; [simpl; lia | split; [discriminate | reflexivity]].
      - destruct post0; [|simpl in Hrp; lia].
        split; [simpl; lia | split; [discriminate |]].
        now rewrite !text_of_one. }
    destruct Lrecv as (L1 & L2 & L3).
    split; [|split].
    + split; [exact K|]. split; [destruct rest; simpl; lia|].
      split; [exact L1|].
      split; [now apply (moveTowards_ok st st' (pc_id p) L)|].
      split; [congruence|]. split; [exact CL|]. split; [exact CR|].
      split; [|split; [|split]]; try congruence.
      rewrite <- Htxt, !text_of_app, text_of_left_over, L3, text_of_one, Et.
        now rewrite StrFacts.append_assoc.
    + rewrite text_of_left_over, text_of_one, Et, StrFacts.length_append.
      simpl. lia.
    + rewrite CR. destruct recv; [congruence | discriminate].
  - (* rightwards: the right piece gives its first character *)
    rewrite HcR in Hn. destruct (head_one rp n Hrp Hn) as (p & -> & <-).
    assert (Hp : textStr p <> "").
    { rewrite Forall_forall in Hne. apply Hne. apply in_or_app. right. now left. }
    destruct (textStr p) as [|c rest] eqn:Et; [congruence|].
    destruct (moveTowards_right st lp p [] c rest Hk Hnd Hfresh)
      as (st' & recv & Run & K & Hrecv & CL & CR & F); try assumption.
    exists st', recv, (left_over (pc_id p) rest).
    split; [exact Run|]. rewrite app_nil_r in K, CR.
    destruct F as (F1 & F2 & F3 & F4 & F5).
    assert (Lrecv : length recv <= 1 /\ recv <> [] /\
                    text_of recv = text_of lp +++ String c "").
    { destruct Hrecv as [[-> ->] | (pre0 & q & -> & ->)].
      - split; [simpl; lia | split; [discriminate | reflexivity]].
      - destruct pre0; [|rewrite length_app in Hlp; simpl in Hlp; lia].
        split; [simpl; lia | split; [discriminate |]].
        cbn [app]. now rewrite !text_of_one. }
    destruct Lrecv as (L1 & L2 & L3).
    split; [|split].
    + split; [exact K|]. split; [exact L1|].
      split; [destruct rest; simpl; lia|].
      split; [now apply (moveTowards_ok st st' (pc_id p) R)|].
      split; [congruence|]. split; [exact CL|]. split; [exact CR|].
      split; [|split; [|split]]; try congruence.
      rewrite <- Htxt, !text_of_app, text_of_left_over, L3, text_of_one, Et.
        now rewrite StrFacts.append_assoc.
    + rewrite text_of_left_over, text_of_one, Et. reflexivity.
    + rewrite CL. destruct (snoc_case recv) as [-> | (r0 & x & ->)];
        [congruence | rewrite last_id_snoc; discriminate].
Qed.

(** The walk: with more fuel than characters on the [dir] side it ends
    normally; either it did not move at all, or there is a piece behind the
    cursor. *)
Lemma seek_steps_shape (displacement : Region -> Z) (st0 : Region) (fuel : nat) :
  forall (dir : Direction) (displ prev : Z) (st : Region)
         (lp rp : list TextPiece),
  hit_shape st0 st lp rp ->
  String.length (text_of (side dir lp rp)) < fuel ->
  exists st' lp' rp' r,
    seek_steps displacement fuel dir displ prev st = Ok (r, st') /\
    hit_shape st0 st' lp' rp' /\
    ((r = (displ, prev) /\ st' = st) \/ cursor_at (opp dir) (cursor st') <> None).
Proof.
  induction fuel as [|k IH]; intros dir displ prev st lp rp Hs Hlen; [lia|].
  cbn [seek_steps]. unfold bind at 1. unfold cursorAt, gets.
  destruct (cursor_at dir (cursor st)) as [n|] eqn:Hn.
  - destruct (displ * prev >? 0)%Z.
    + destruct (hit_shape_move st0 st lp rp dir n Hs Hn)
        as (st1 & lp1 & rp1 & Run & Hs1 & Hdec & Hback).
      rewrite (bind_ok _ _ _ _ _ Run). unfold bind at 1.
      destruct (IH dir (displacement st1) displ st1 lp1 rp1 Hs1 ltac:(lia))
        as (st' & lp' & rp' & r & Run' & Hs' & Hr).
      exists st', lp', rp', r. split; [exact Run'|]. split; [exact Hs'|].
      right. destruct Hr as [[_ ->] | Hr]; assumption.
    + exists st, lp, rp, (displ, prev). split; [reflexivity|].
      split; [exact Hs|]. now left.
  - exists st, lp, rp, (displ, prev). split; [reflexivity|].
    split; [exact Hs|]. now left.
Qed.

Lemma side_length (dir : Direction) (lp rp : list TextPiece) :
  String.length (text_of (side dir lp rp)) <= String.length (text_of (lp ++ rp)).
Proof.
  rewrite text_of_app, StrFacts.length_append. destruct dir; cbn [side]; lia.
Qed.

(** The correction succeeds and keeps the shape: the walk ends within its
    fuel, and the step back always finds a piece to step over. *)
Lemma seek_refine_shape (displacement : Region -> Z) (st0 st : Region)
  (lp rp : list TextPiece) :
  hit_shape st0 st lp rp ->
  exists st' lp' rp',
    seek_refine displacement st = Ok (tt, st') /\
    hit_shape st0 st' lp' rp'.
Proof.
  intros Hs. unfold seek_refine. unfold bind at 1. unfold gets at 1.
  cbv zeta. unfold bind at 1. unfold gets at 1.
  set (displ := displacement st).
  set (dir := if (displ <? 0)%Z then L else R).
  assert (Hfuel : String.length (text_of (side dir lp rp)) <
                  S (String.length (textContents (blk st)))).
  { destruct Hs as (Hk & _). unfold textContents. rewrite Hk.
    pose proof (side_length dir lp rp). lia. }
  destruct (seek_steps_shape displacement st0 _ dir displ (dir_num dir)
              st lp rp Hs Hfuel)
    as (st1 & lp1 & rp1 & r & Run & Hs1 & Hr).
  rewrite (bind_ok _ _ _ _ _ Run).
  destruct (dir_num dir * fst r <? - dir_num dir * snd r)%Z eqn:Hover.
  - destruct Hr as [[-> _] | Hback].
    + exfalso. apply Z.ltb_lt in Hover. cbn [fst snd] in Hover.
      subst dir. destruct (Z.ltb_spec displ 0); cbn [dir_num] in Hover; lia.
    + unfold bind at 1. unfold cursorAt, gets.
      destruct (cursor_at (opp dir) (cursor st1)) as [n|] eqn:Hn; [|congruence].
      destruct (hit_shape_move st0 st1 lp1 rp1 (opp dir) n Hs1 Hn)
        as (st2 & lp2 & rp2 & Run2 & Hs2 & _).
      now exists st2, lp2, rp2.
  - now exists st1, lp1, rp1.
Qed.

(** The one piece a fuse leaves is well formed. *)
Lemma tree_ok_fused (st : Region) (t : string) :
  t <> "" -> tree_ok (fused st t).
Proof.
  intros Ht. unfold tree_ok, pieces_ok, fused. cbn [blk kids nextId].
  split; [|split].
  - repeat constructor. intros [].
  - intros n [<-|[]]. cbn. lia.
  - repeat constructor. exact Ht.
Qed.

(** The first guess leaves the fused text in at most one piece on each
    side of the cursor. *)
Lemma seek_place_shape (approxPosition : Region -> option Z) (st0 : Region) :
  textContents (blk st0) <> "" ->
  exists st2 lp rp,
    seek_place approxPosition (nextId st0)
      (fused st0 (textContents (blk st0))) = Ok (tt, st2) /\
    hit_shape st0 st2 lp rp.
Proof.
  intros Ht. set (t := textContents (blk st0)) in *.
  set (P := mkTextPiece (nextId st0) t).
  set (F := fused st0 t).
  pose proof (tree_ok_fused st0 t Ht) as HokF. fold F in HokF.
  assert (Hleft : exists st2 lp rp,
            insAtDirEnd L F = Ok (tt, st2) /\ hit_shape st0 st2 lp rp).
  { eexists. exists [], [P]. split; [reflexivity|].
    unfold hit_shape. cbn. repeat split; try lia; try apply HokF;
      try apply StrFacts.append_nil_r. }
  unfold seek_place. unfold bind at 1. unfold gets at 1.
  destruct (approxPosition F) as [a|]; [|exact Hleft].
  assert (G : getPiece (nextId st0) F = Ok (P, F)).
  { unfold getPiece, F, fused. cbn [blk kids find_node ident TextPiece_Ident pc_id].
    now rewrite Nat.eqb_refl. }
  rewrite (bind_ok _ _ _ _ _ G). cbn [textStr P].
  destruct (Z.leb_spec a 0) as [Ha0|Ha0]; [exact Hleft|].
  destruct (Z.geb_spec a (Str.len t)) as [Ha1|Ha1].
  - eexists. exists [P], []. split; [reflexivity|].
    unfold hit_shape. cbn. repeat split; try lia; try apply HokF;
      try apply StrFacts.append_nil_r.
  - assert (Hnd : NoDup (ids ([] ++ P :: []))).
    { repeat constructor. intros []. }
    pose proof (splitRight_mid F a [] P [] eq_refl Hnd) as Sp.
    cbn [app pc_id P textStr] in Sp.
    rewrite (bind_ok _ _ _ _ _ Sp).
    match type of Sp with _ = Ok (_, ?s) => set (F2 := s) in * end.
    assert (Hok2 : tree_ok F2).
    { apply (splitRight_ok F F2 HokF (nextId st0) a P (nextId F));
        [| cbn [textStr P]; lia | exact Sp].
      unfold F, fused. cbn [blk kids find_node ident TextPiece_Ident pc_id P].
      now rewrite Nat.eqb_refl. }
    set (P1 := mkTextPiece (nextId st0) (Str.slice t 0 (Some a))) in *.
    set (P2 := mkTextPiece (nextId F) (Str.slice t a None)) in *.
    assert (Hk2 : kids (blk F2) = [P1] ++ P2 :: []) by reflexivity.
    assert (Hp2 : ~ In (nextId F) (ids [P1])).
    { unfold F, fused. cbn. lia. }
    unfold insDirOf. unfold bind at 1.
    rewrite (node_at_mid F2 (nextId F) [P1] P2 [] Hk2 eq_refl Hp2 L).
    eexists. exists [P1], [P2]. split; [reflexivity|].
    unfold hit_shape.
    cbn [set_cursor blk kids cursor cursor_set opp parent c_L c_R anticursor
         neighbour last_id head_id ident TextPiece_Ident pc_id F2 P1 P2 app
         tb_id anticursorPosition length].
    split; [reflexivity|]. split; [lia|]. split; [lia|].
    split; [exact Hok2|].
    split; [reflexivity|]. split; [reflexivity|]. split; [reflexivity|].
    split; [|split; [|split]]; try reflexivity.
    rewrite !text_of_cons, text_of_nil, StrFacts.append_nil_r. cbn [textStr].
    apply StrFacts.slice_split.
Qed.

(** [seek] on a block without text does nothing: nothing is rendered, and
    it returns after the fuse. *)
Lemma seek_empty (approxPosition : Region -> option Z)
  (displacement : Region -> Z) (st : Region) :
  textContents (blk st) = "" ->
  seek approxPosition displacement st = Ok (tt, st).
Proof.
  intros Ht. unfold seek. unfold bind at 1. unfold gets at 1.
  pose proof (normalize_mirror (kids (blk st))) as N.
  unfold textContents in Ht. rewrite Ht in N.
  unfold bind, TextBlockFuseChildren. now rewrite N.
Qed.

(** The hit test of [seek] on a block with text: it reaches the anticursor
    part in a state [hit] that holds the block's text in at most one piece
    on each side of the cursor. *)
Lemma seek_hit (approxPosition : Region -> option Z)
  (displacement : Region -> Z) (st : Region) :
  textContents (blk st) <> "" ->
  exists hit lp rp,
    seek approxPosition displacement st = seek_anticursor hit /\
    hit_shape st hit lp rp.
Proof.
  intros Ht. unfold seek. unfold bind at 1. unfold gets at 1.
  assert (Fu : TextBlockFuseChildren (mirror (kids (blk st))) st =
               Ok (Some (nextId st), fused st (textContents (blk st)))).
  { apply fuse_text. rewrite normalize_mirror. unfold textContents in *.
    destruct (text_of (kids (blk st))); [congruence | reflexivity]. }
  rewrite (bind_ok _ _ _ _ _ Fu).
  destruct (seek_place_shape approxPosition st Ht)
    as (st2 & lp2 & rp2 & Run2 & Hs2).
  rewrite (bind_ok _ _ _ _ _ Run2).
  destruct (seek_refine_shape displacement st st2 lp2 rp2 Hs2)
    as (st3 & lp3 & rp3 & Run3 & Hs3).
  rewrite (bind_ok _ _ _ _ _ Run3).
  now exists st3, lp3, rp3.
Qed.

Lemma hit_shape_fresh (st0 hit : Region) (lp rp : list TextPiece) :
  hit_shape st0 hit lp rp ->
  NoDup (ids (lp ++ rp)) /\ ~ In (nextId hit) (ids (lp ++ rp)).
Proof.
  intros (Hk & _ & _ & Hok & _). split.
  - rewrite <- Hk. apply Hok.
  - rewrite <- Hk. now apply tree_ok_fresh.
Qed.

(** C1 (as amended).  [seek(clientX, cursor)] on a block with text,
    whatever is measured on the screen.  The hit test ends in a state [hit] with the
    cursor inside the block between the pieces [lp] and [rp], at the
    character offset [pos]; the block's text is kept.  With no anticursor,
    [seek] ends there with [pos] cached ([0] at the left end).  With an
    anticursor of this block and a cached offset [ap] inside the text,
    [seek] ends with the anticursor a gap of the block at character offset
    [ap] and the text unchanged: if [ap = pos] the anticursor is the
    cursor's own point; if [ap < pos] the cursor's left neighbour was split
    at [ap]; if [pos < ap] the right neighbour was split at [ap - pos]; the
    anticursor is the point at the split. *)
Theorem seek_spec (approxPosition : Region -> option Z)
  (displacement : Region -> Z) (st : Region) :
  textContents (blk st) <> "" ->
  exists (hit : Region) (lp rp : list TextPiece),
    seek approxPosition displacement st = seek_anticursor hit /\
    kids (blk hit) = lp ++ rp /\
    parent (cursor hit) = tb_id (blk st) /\
    c_L (cursor hit) = last_id lp /\
    c_R (cursor hit) = head_id rp /\
    textContents (blk hit) = textContents (blk st) /\
    let pos := Str.len (text_of lp) in
    offset_of (c_L (cursor hit)) (c_R (cursor hit)) (kids (blk hit)) = Some pos /\
    (anticursor (cursor st) = None ->
     seek approxPosition displacement st =
     Ok (tt, set_anticursorPosition (Some pos) hit)) /\
    (forall a ap,
       anticursor (cursor st) = Some a ->
       a_parent a = tb_id (blk st) ->
       anticursorPosition (blk st) = Some ap ->
       (0 <= ap <= Str.len (textContents (blk st)))%Z ->
       exists st' a',
         seek approxPosition displacement st = Ok (tt, st') /\
         anticursor (cursor st') = Some a' /\
         a_parent a' = tb_id (blk st) /\
         offset_of (a_L a') (a_R a') (kids (blk st')) = Some ap /\
         textContents (blk st') = textContents (blk st) /\
         (ap = pos ->
          st' = set_anticursor (Some (fromCursor (cursor hit))) hit) /\
         ((ap < pos)%Z ->
          exists l,
            lp = [l] /\
            kids (blk st') =
              mkTextPiece (pc_id l) (Str.slice (textStr l) 0 (Some ap))
              :: mkTextPiece (nextId hit) (Str.slice (textStr l) ap None) :: rp /\
            c_L (cursor st') = Some (nextId hit) /\
            a' = mkAnticursor (tb_id (blk st)) (Some (pc_id l))
                   (Some (nextId hit))) /\
         ((pos < ap)%Z ->
          exists r,
            rp = [r] /\
            kids (blk st') =
              lp ++ [mkTextPiece (pc_id r)
                       (Str.slice (textStr r) 0 (Some (ap - pos)%Z));
                     mkTextPiece (nextId hit)
                       (Str.slice (textStr r) (ap - pos) None)] /\
            c_R (cursor st') = Some (pc_id r) /\
            a' = mkAnticursor (tb_id (blk st)) (Some (pc_id r))
                   (Some (nextId hit)))).
Proof.
  intros Ht.
  destruct (seek_hit approxPosition displacement st Ht)
    as (hit & lp & rp & Run & Hs).
  destruct (hit_shape_fresh st hit lp rp Hs) as [Hnd Hfresh].
  destruct Hs as (Hk & Hlp & Hrp & Hok & Hpar & HcL & HcR & Htxt & Hid & Hap
                  & Hanti).
  assert (Htext : textContents (blk hit) = textContents (blk st)).
  { unfold textContents at 1. now rewrite Hk. }
  destruct (seek_anticursor_at hit lp rp Hk Hlp Hrp Hnd Hfresh Hpar HcL HcR)
    as (Hoff & Hnone & Hsome).
  exists hit, lp, rp. rewrite Run.
  split; [reflexivity|]. split; [exact Hk|]. split; [congruence|].
  split; [exact HcL|]. split; [exact HcR|]. split; [exact Htext|].
  intros pos. split; [exact Hoff|]. split.
  - intros Hno. apply Hnone. congruence.
  - intros a ap Ha Hpa Hc Hrange.
    rewrite <- Hanti in Ha. rewrite <- Hid in Hpa. rewrite <- Hap in Hc.
    rewrite <- Htext in Hrange.
    destruct (Hsome a ap Ha Hpa Hc Hrange)
      as (st' & a' & Run' & A1 & A2 & A3 & A4 & A5 & A6 & A7 & A8).
    exists st', a'. rewrite <- Hid, <- Htext.
    split; [exact Run'|]. split; [exact A1|]. split; [exact A3|].
    split; [exact A4|]. split; [exact A5|]. split; [exact A6|].
    split; [exact A7|].
    intros Hgt. destruct (A8 Hgt) as (r & Er & K & C & Ea).
    exists r. now repeat split.
Qed.

(** A drag that began at offset 1 of ["hello"]: the hit test puts the
    cursor between ["hell"] and ["o"]; the anticursor is put back between
    ["h"] and ["ell"], at offset 1. *)
Lemma seek_spec_witness :
  exists st' a',
    seek (fun _ => Some 4%Z) (fun _ => 0%Z)
      (mkRegion (mkTextBlock 10 "\text" (Some 1%Z)
                   [mkTextPiece 1 "h"; mkTextPiece 2 "ello"])
         (mkCursor 10 (Some 1) (Some 2) (Some (mkAnticursor 10 (Some 1) (Some 2))))
         [] 20) = Ok (tt, st') /\
    anticursor (cursor st') = Some a' /\
    offset_of (a_L a') (a_R a') (kids (blk st')) = Some 1%Z /\
    textContents (blk st') = "hello".
Proof.
  destruct (seek_spec (fun _ => Some 4%Z) (fun _ => 0%Z)
              (mkRegion (mkTextBlock 10 "\text" (Some 1%Z)
                           [mkTextPiece 1 "h"; mkTextPiece 2 "ello"])
                 (mkCursor 10 (Some 1) (Some 2)
                    (Some (mkAnticursor 10 (Some 1) (Some 2))))
                 [] 20))
    as (hit & lp & rp & _ & _ & _ & _ & _ & _ & _ & _ & H).
  - discriminate.
  - destruct (H (mkAnticursor 10 (Some 1) (Some 2)) 1%Z eq_refl eq_refl eq_refl)
      as (st' & a' & Run & Ha & _ & Off & Txt & _).
    + unfold textContents, Str.len; simpl; lia.
    + exists st', a'. repeat split; assumption.
Defined.

(** C1 as stated fails on a block without text.  The cursor stands in the
    empty block, at character offset [0], and there is no anticursor:
    [seek] returns right after the fuse, and no offset is cached. *)
Lemma seek_empty_caches_nothing :
  let st := mkRegion (mkTextBlock 10 "\text" None [])
              (mkCursor 10 None None None) [] 20 in
  anticursor (cursor st) = None /\
  offset_of (c_L (cursor st)) (c_R (cursor st)) (kids (blk st)) = Some 0%Z /\
  exists st',
    seek (fun _ => Some 0%Z) (fun _ => 0%Z) st = Ok (tt, st') /\
    anticursorPosition (blk st') = None.
Proof.
  intros st. split; [reflexivity|]. split; [reflexivity|].
  exists st. split; [|reflexivity].
  now apply seek_empty.
Qed.

(** X4.  A drag: the mouse goes down in a block with text and nothing
    selected; the selection starts at the cursor; the mouse moves on.
    Wherever the second hit test puts the cursor, and however the pieces
    are cut by then, the anticursor is again at the character offset of
    the first hit, and the text is the same. *)
Lemma drag_keeps_anticursor_offset (down_at move_at : Region -> option Z)
  (down_displ move_displ : Region -> Z) (st : Region) :
  textContents (blk st) <> "" ->
  anticursor (cursor st) = None ->
  exists (down : Region) (pos : Z),
    seek down_at down_displ st = Ok (tt, down) /\
    anticursorPosition (blk down) = Some pos /\
    offset_of (c_L (cursor down)) (c_R (cursor down)) (kids (blk down)) =
      Some pos /\
    anticursor (cursor (startSelection down)) =
      Some (mkAnticursor (tb_id (blk st)) (c_L (cursor down)) (c_R (cursor down))) /\
    exists (st' : Region) (a' : Anticursor),
      seek move_at move_displ (startSelection down) = Ok (tt, st') /\
      anticursor (cursor st') = Some a' /\
      a_parent a' = tb_id (blk st) /\
      offset_of (a_L a') (a_R a') (kids (blk st')) = Some pos /\
      textContents (blk st') = textContents (blk st).
Proof.
  intros Ht Hno.
  destruct (seek_hit down_at down_displ st Ht) as (h1 & lp1 & rp1 & Run1 & Hs1).
  destruct (hit_shape_fresh st h1 lp1 rp1 Hs1) as [Hnd1 Hfresh1].
  destruct Hs1 as (Hk1 & Hlp1 & Hrp1 & Hok1 & Hpar1 & HcL1 & HcR1 & Htxt1 & Hid1
                   & Hap1 & Hanti1).
  destruct (seek_anticursor_at h1 lp1 rp1 Hk1 Hlp1 Hrp1 Hnd1 Hfresh1 Hpar1
              HcL1 HcR1) as (Hoff1 & Hnone1 & _).
  set (pos := Str.len (text_of lp1)) in *.
  set (down := set_anticursorPosition (Some pos) h1).
  assert (Hdown : seek down_at down_displ st = Ok (tt, down)).
  { rewrite Run1. apply Hnone1. congruence. }
  set (sel := startSelection down).
  assert (Htsel : textContents (blk sel) = textContents (blk st)).
  { unfold textContents at 1. cbn [sel startSelection set_anticursor set_cursor
      down set_anticursorPosition blk kids]. now rewrite Hk1. }
  assert (Ht2 : textContents (blk sel) <> "") by now rewrite Htsel.
  destruct (seek_hit move_at move_displ sel Ht2) as (h2 & lp2 & rp2 & Run2 & Hs2).
  destruct (hit_shape_fresh sel h2 lp2 rp2 Hs2) as [Hnd2 Hfresh2].
  destruct Hs2 as (Hk2 & Hlp2 & Hrp2 & Hok2 & Hpar2 & HcL2 & HcR2 & Htxt2 & Hid2
                   & Hap2 & Hanti2).
  destruct (seek_anticursor_at h2 lp2 rp2 Hk2 Hlp2 Hrp2 Hnd2 Hfresh2 Hpar2
              HcL2 HcR2) as (_ & _ & Hsome2).
  cbn [sel startSelection set_anticursor set_cursor down set_anticursorPosition
       blk cursor anticursor anticursorPosition tb_id] in Hid2, Hap2, Hanti2.
  destruct (Hsome2 (fromCursor (cursor h1)) pos) as
    (st' & a' & Run' & A1 & A2 & A3 & A4 & A5 & _).
  - exact Hanti2.
  - cbn [fromCursor a_parent]. congruence.
  - exact Hap2.
  - unfold textContents. rewrite Hk2, Htxt2, Htsel, <- Htxt1, text_of_app, len_append.
    unfold pos, Str.len. lia.
  - exists down, pos. split; [exact Hdown|]. split; [reflexivity|].
    split; [exact Hoff1|]. split.
    + cbn [startSelection set_anticursor set_cursor cursor anticursor fromCursor
           down set_anticursorPosition]. unfold fromCursor.
      now rewrite Hpar1, Hid1.
    + exists st', a'. fold sel. rewrite Run2. split; [exact Run'|]. split; [exact A1|].
      split; [congruence|]. split; [exact A4|].
      rewrite A5. unfold textContents at 1. now rewrite Hk2, Htxt2.
Qed.

Lemma drag_keeps_anticursor_offset_witness :
  exists (down : Region) (pos : Z),
    seek (fun _ => Some 1%Z) (fun _ => 0%Z)
      (mkRegion (mkTextBlock 10 "\text" None [mkTextPiece 1 "hello"])
         (mkCursor 0 None None None) [] 20) = Ok (tt, down) /\
    anticursorPosition (blk down) = Some pos /\
    exists (st' : Region) (a' : Anticursor),
      seek (fun _ => Some 4%Z) (fun _ => 0%Z) (startSelection down) =
        Ok (tt, st') /\
      anticursor (cursor st') = Some a' /\
      offset_of (a_L a') (a_R a') (kids (blk st')) = Some pos /\
      textContents (blk st') = "hello".
Proof.
  destruct (drag_keeps_anticursor_offset
              (fun _ => Some 1%Z) (fun _ => Some 4%Z)
              (fun _ => 0%Z) (fun _ => 0%Z)
              (mkRegion (mkTextBlock 10 "\text" None [mkTextPiece 1 "hello"])
                 (mkCursor 0 None None None) [] 20))
    as (down & pos & Run & Hc & _ & _ & st' & a' & Run' & A & _ & Off & Txt).
  - discriminate.
  - reflexivity.
  - exists down, pos. split; [exact Run|]. split; [exact Hc|].
    exists st', a'. split; [exact Run'|]. split; [exact A|].
    split; [exact Off | exact Txt].
Defined.

(** A drag that began at the left end of ["hello"] (cached offset [0]):
    the split that puts the anticursor back is at the boundary of the
    cursor's left neighbour, and leaves that piece empty. *)
Lemma seek_split_at_left_end :
  seek (fun _ => Some 3%Z) (fun _ => 0%Z)
    (mkRegion (mkTextBlock 5 "\text" (Some 0%Z) [mkTextPiece 1 "hello"])
       (mkCursor 5 None (Some 1) (Some (mkAnticursor 5 None (Some 1))))
       [] 6) =
  Ok (tt, mkRegion (mkTextBlock 5 "\text" (Some 0%Z)
                      [mkTextPiece 6 ""; mkTextPiece 8 "hel"; mkTextPiece 7 "lo"])
            (mkCursor 5 (Some 8) (Some 7)
               (Some (mkAnticursor 5 (Some 6) (Some 8))))
            [] 9).
Proof. reflexivity. Qed.

(* ================================================================== *)
(** * [TextBlock.parser] and [TextBlock.latex] *)
(* ================================================================== *)

Lemma replace_braces_app (a b : string) :
  replace_braces (a +++ b) = replace_braces a +++ replace_braces b.
Proof.
  induction a as [|c a IH]; [reflexivity|].
  cbn [String.append replace_braces].
  destruct (Ascii.eqb c "{" || Ascii.eqb c "}"); cbn; now rewrite IH.
Qed.

(** The two passes of [latex()] are the escaping, character by character. *)
Lemma replace_is_escape (s : string) :
  replace_braces (replace_backslash s) = escape s.
Proof.
  induction s as [|c s IH]; [reflexivity|].
  cbn [replace_backslash escape]. unfold escape_char.
  destruct (Ascii.eqb_spec c "\") as [->|Hb].
  - rewrite replace_braces_app, IH. reflexivity.
  - cbn [replace_braces].
    destruct (Ascii.eqb_spec c "{") as [->|Hl]; [cbn; now rewrite IH|].
    destruct (Ascii.eqb_spec c "}") as [->|Hr]; cbn; now rewrite IH.
Qed.

Lemma escape_plain (s : string) :
  str_forall plain_char s = true -> escape s = s.
Proof.
  induction s as [|c s IH]; [reflexivity|].
  cbn [str_forall escape]. intros H. apply andb_true_iff in H.
  destruct H as [Hc Hs]. rewrite (IH Hs).
  unfold plain_char in Hc. apply negb_true_iff in Hc.
  apply orb_false_iff in Hc. destruct Hc as [Hc Hb].
  apply orb_false_iff in Hc. destruct Hc as [Hl Hr].
  unfold escape_char. now rewrite Hb, Hl, Hr.
Qed.

Lemma span_while_stop (f : ascii -> bool) (s : string) (c : ascii)
  (rest : string) :
  str_forall f s = true -> f c = false ->
  span_while f (s +++ String c rest) = (s, String c rest).
Proof.
  intros Hs Hc. induction s as [|x s IH]; cbn.
  - now rewrite Hc.
  - cbn in Hs. apply andb_true_iff in Hs. destruct Hs as [Hx Hs].
    rewrite Hx, (IH Hs). reflexivity.
Qed.

Lemma plain_not_close (s : string) :
  str_forall plain_char s = true ->
  str_forall (fun c => negb (Ascii.eqb c "}")) s = true.
Proof.
  induction s as [|c s IH]; [reflexivity|].
  cbn. intros H. apply andb_true_iff in H. destruct H as [Hc Hs].
  rewrite (IH Hs), andb_true_r.
  unfold plain_char in Hc. apply negb_true_iff in Hc.
  apply orb_false_iff in Hc. destruct Hc as [Hc _].
  apply orb_false_iff in Hc. destruct Hc as [_ Hr]. now rewrite Hr.
Qed.

Lemma latex_escape (b : TextBlock) :
  latex b =
  match textContents b with
  | EmptyString => EmptyString
  | contents => ctrlSeq b +++ "{" +++ escape contents +++ "}"
  end.
Proof.
  unfold latex. rewrite replace_is_escape.
  now destruct (textContents b).
Qed.

Lemma is_space_open : is_space "{" = false.
Proof. reflexivity. Qed.

(** C4.  For a string [s] with no brace and no backslash, the parser of a
    fresh block on [{s}] gives, when [s] is not empty, the block with the
    one piece [s], whose [latex()] is [s] wrapped in the block's control
    sequence; for the empty [s] it gives an empty fragment and the block,
    left without content, renders as the empty string.  For every block,
    [latex()] is the empty string when the content is empty, and otherwise
    the content wrapped in the control sequence with every backslash
    written [\backslash ] (trailing space) and every brace prefixed by a
    backslash. *)
Theorem latex_of_parsed (tb : TextBlock) (n : nat) (s rest : string) :
  kids tb = [] ->
  str_forall plain_char s = true ->
  match s with
  | EmptyString =>
      TextBlock_parser tb n ("{" +++ s +++ "}" +++ rest) =
        Some (Ok EmptyFragment, rest) /\
      latex tb = ""
  | _ =>
      exists tb',
        TextBlock_parser tb n ("{" +++ s +++ "}" +++ rest) =
          Some (Ok (ParsedBlock tb'), rest) /\
        kids tb' = [mkTextPiece n s] /\
        ctrlSeq tb' = ctrlSeq tb /\
        latex tb' = ctrlSeq tb +++ "{" +++ s +++ "}"
  end /\
  (forall b : TextBlock,
     latex b =
     match textContents b with
     | EmptyString => EmptyString
     | contents => ctrlSeq b +++ "{" +++ escape contents +++ "}"
     end) /\
  escape_char "\" = "\backslash " /\
  escape_char "{" = "\{" /\
  escape_char "}" = "\}".
Proof.
  intros Hk Hs. split; [|split; [exact latex_escape | now repeat split]].
  assert (Hp : forall t,
            p_skip
              (p_then (p_then optWhitespace (p_string "{"))
                 (p_regex_class (fun c => negb (Ascii.eqb c "}"))))
              (p_string "}") ("{" +++ s +++ "}" +++ t) = Some (s, t)).
  { intros t. unfold p_skip, p_then, optWhitespace, p_regex_class, p_string.
    change ("{" +++ s +++ "}" +++ t) with (String "{" (s +++ String "}" t)).
    cbn [span_while]. rewrite is_space_open.
    cbn [strip_prefix]. rewrite Ascii.eqb_refl.
    rewrite (span_while_stop _ s "}" t (plain_not_close s Hs) eq_refl).
    cbn [strip_prefix]. now rewrite Ascii.eqb_refl. }
  destruct s as [|c s'] eqn:Es.
  - split.
    + unfold TextBlock_parser, p_map. rewrite (Hp rest). reflexivity.
    + rewrite latex_escape. unfold textContents. now rewrite Hk.
  - exists (mkTextBlock (tb_id tb) (ctrlSeq tb) (anticursorPosition tb)
              [mkTextPiece n (String c s')]).
    split; [|split; [reflexivity | split; [reflexivity|]]].
    + unfold TextBlock_parser, p_map. rewrite (Hp rest), Hk. reflexivity.
    + rewrite latex_escape. unfold textContents. cbn [kids ctrlSeq].
      rewrite text_of_one. cbn [textStr].
      now rewrite (escape_plain (String c s') Hs).
Qed.

(** [{hello}] parsed into a fresh [\text] block renders as
    [\text{hello}]. *)
Lemma latex_of_parsed_witness :
  exists tb',
    TextBlock_parser (mkTextBlock 10 "\text" None []) 11 "{hello}" =
      Some (Ok (ParsedBlock tb'), "") /\
    latex tb' = "\text{hello}".
Proof.
  destruct (latex_of_parsed (mkTextBlock 10 "\text" None []) 11 "hello" ""
              eq_refl eq_refl) as ((tb' & P & _ & _ & Lx) & _).
  exists tb'. split; [exact P | exact Lx].
Defined.

(* ================================================================== *)
(** * [TextBlock.write]: a character other than [$] *)
(* ================================================================== *)

Section DocFacts.
Variables (d : Doc) (this : nat) (pre : list Item) (tb : TextBlock)
  (post : list Item).
Hypothesis Hitems : items d = pre ++ ITextBlock tb :: post.
Hypothesis Hthis : tb_id tb = this.
Hypothesis Hpre : ~ In this (ids pre).

Let Hpre' : ~ In (ident (ITextBlock tb)) (ids pre).
Proof. cbn [ident Item_Ident]. now rewrite Hthis. Qed.

Lemma find_item_mid : find_node this (items d) = Some (ITextBlock tb).
Proof.
  rewrite Hitems, <- Hthis.
  change (tb_id tb) with (ident (ITextBlock tb)).
  apply (find_node_mid pre (ITextBlock tb) post Hpre').
Qed.

Lemma update_item_mid (f : Item -> Item) :
  update this f (items d) = pre ++ f (ITextBlock tb) :: post.
Proof.
  rewrite Hitems, <- Hthis.
  change (tb_id tb) with (ident (ITextBlock tb)).
  apply (update_mid f pre (ITextBlock tb) post Hpre').
Qed.

Lemma sibling_item_mid (dir : Direction) :
  sibling dir this (items d) = neighbour dir pre post.
Proof.
  rewrite Hitems, <- Hthis.
  change (tb_id tb) with (ident (ITextBlock tb)).
  apply (sibling_mid dir pre (ITextBlock tb) post Hpre').
Qed.

Lemma disown_item_mid : disown this (items d) = pre ++ post.
Proof.
  rewrite Hitems, <- Hthis.
  change (tb_id tb) with (ident (ITextBlock tb)).
  apply (disown_mid pre (ITextBlock tb) post Hpre').
Qed.

Lemma getTextBlock_mid : getTextBlock this d = Ok (tb, d).
Proof. unfold getTextBlock. now rewrite find_item_mid. Qed.

(** A method of the block that succeeds inside it succeeds in the tree. *)
Lemma zoom_mid {A : Type} (m : M A) (a : A) (r : Region) :
  m (mkRegion tb (d_cursor d) (d_aria d) (d_nextId d)) = Ok (a, r) ->
  zoom this m d =
  Ok (a, mkDoc (root d) (pre ++ ITextBlock (blk r) :: post)
           (cursor r) (aria r) (nextId r)).
Proof.
  intros E. unfold zoom. rewrite find_item_mid, E.
  now rewrite update_item_mid.
Qed.

End DocFacts.

(** C3.  [write(cursor, ch)] with [ch] other than [$], on the block [tb]
    whose pieces are [kl] left of the cursor and [kr] right of it, once the
    selection is deleted: with no piece on the cursor's left a new piece
    holding [ch] is made there, immediately left of the cursor; otherwise
    [ch] is appended to the left neighbour; in both cases the block's text
    is the text left of the cursor, then [ch], then the text right of it,
    and [ch] is announced. *)
Theorem write_char_spec (deleteSelection : Doc -> Doc) (d : Doc)
  (this : nat) (ch : string)
  (pre : list Item) (tb : TextBlock) (post : list Item)
  (kl kr : list TextPiece) :
  ch <> "$" ->
  items (deleteSelection d) = pre ++ ITextBlock tb :: post ->
  tb_id tb = this ->
  ~ In this (ids pre) ->
  kids tb = kl ++ kr ->
  NoDup (ids (kl ++ kr)) ->
  c_L (d_cursor (deleteSelection d)) = last_id kl ->
  c_R (d_cursor (deleteSelection d)) = head_id kr ->
  exists d' tb',
    TextBlock_write deleteSelection this ch d = Ok (tt, d') /\
    items d' = pre ++ ITextBlock tb' :: post /\
    textContents tb' = text_of kl +++ ch +++ text_of kr /\
    d_aria d' = d_aria (deleteSelection d) ++ [Alert ch] /\
    (c_L (d_cursor (deleteSelection d)) = None ->
     kl = [] /\
     kids tb' = mkTextPiece (d_nextId (deleteSelection d)) ch :: kr /\
     c_L (d_cursor d') = Some (d_nextId (deleteSelection d)) /\
     c_R (d_cursor d') = c_R (d_cursor (deleteSelection d))) /\
    (forall l, c_L (d_cursor (deleteSelection d)) = Some l ->
     exists kl0 p,
       kl = kl0 ++ [p] /\ pc_id p = l /\
       kids tb' = kl0 ++ mkTextPiece l (textStr p +++ ch) :: kr /\
       d_cursor d' = d_cursor (deleteSelection d)).
Proof.
  intros Hch Hitems Hthis Hpre Hk Hnd HcL HcR.
  set (d1 := deleteSelection d) in *.
  assert (Hneq : String.eqb ch "$" = false)
    by (apply String.eqb_neq; exact Hch).
  unfold TextBlock_write. unfold bind at 1. unfold modify at 1. fold d1.
  unfold bind at 1. rewrite Hneq. cbn [negb].
  destruct (snoc_case kl) as [E | (kl0 & p & E)].
  - (* no left neighbour: a new piece *)
    subst kl. cbn [last_id app] in *.
    pose proof (createDir_gap (mkRegion tb (d_cursor d1) (d_aria d1) (d_nextId d1))
                  ch L [] kr Hk HcL HcR Hnd) as Cr.
    cbn [blk cursor aria nextId app] in Cr.
    erewrite (zoom_mid d1 this pre tb post Hitems Hthis Hpre).
    2:{ unfold bind at 1. unfold cursorAt, gets. cbn [cursor cursor_at].
        rewrite HcL. unfold bind. rewrite Cr. reflexivity. }
    eexists. eexists. split; [reflexivity|].
    cbn [items d_aria d_cursor blk cursor aria nextId].
    split; [reflexivity|]. split.
    { unfold textContents. cbn [kids]. now rewrite text_of_cons, text_of_nil. }
    split; [reflexivity|]. split.
    + intros _. now repeat split.
    + intros l Hl. rewrite HcL in Hl. discriminate.
  - (* a left neighbour: the character is appended to it *)
    subst kl. rewrite last_id_snoc in HcL. cbn [ident TextPiece_Ident] in HcL.
    assert (Hk2 : kids tb = kl0 ++ p :: kr) by now rewrite Hk, <- app_assoc.
    assert (Hp : ~ In (pc_id p) (ids kl0)).
    { intros Hin. apply (NoDup_mid_left kl0 p kr); [|exact Hin].
      now rewrite <- app_assoc in Hnd. }
    pose proof (appendText_mid (mkRegion tb (d_cursor d1) (d_aria d1) (d_nextId d1))
                  (pc_id p) ch kl0 p kr Hk2 eq_refl Hp) as Ap.
    erewrite (zoom_mid d1 this pre tb post Hitems Hthis Hpre).
    2:{ unfold bind at 1. unfold cursorAt, gets. cbn [cursor cursor_at].
        rewrite HcL. exact Ap. }
    eexists. eexists. split; [reflexivity|].
    cbn [items d_aria d_cursor blk cursor aria nextId set_kids kids].
    split; [reflexivity|]. split.
    { unfold textContents. cbn [kids].
      rewrite !text_of_app, !text_of_cons, text_of_nil. cbn [textStr].
      now rewrite StrFacts.append_nil_r, !StrFacts.append_assoc. }
    split; [reflexivity|]. split.
    + intros Hl. rewrite HcL in Hl. discriminate.
    + intros l Hl. rewrite HcL in Hl. injection Hl as <-.
      exists kl0, p. now repeat split.
Qed.

(** ["cat"] with the cursor between ["ca"] and ["t"]: writing [d] gives
    ["cadt"]. *)
Lemma write_char_spec_witness :
  exists d' tb',
    TextBlock_write (fun d => d) 5 "d"
      (mkDoc 0 [ITextBlock (mkTextBlock 5 "\text" None
                              [mkTextPiece 6 "ca"; mkTextPiece 7 "t"])]
         (mkCursor 5 (Some 6) (Some 7) None) [] 20) = Ok (tt, d') /\
    items d' = [ITextBlock tb'] /\
    textContents tb' = "cadt".
Proof.
  destruct (write_char_spec (fun d => d)
              (mkDoc 0 [ITextBlock (mkTextBlock 5 "\text" None
                                      [mkTextPiece 6 "ca"; mkTextPiece 7 "t"])]
                 (mkCursor 5 (Some 6) (Some 7) None) [] 20)
              5 "d" [] (mkTextBlock 5 "\text" None
                          [mkTextPiece 6 "ca"; mkTextPiece 7 "t"]) []
              [mkTextPiece 6 "ca"] [mkTextPiece 7 "t"])
    as (d' & tb' & Run & It & Txt & _).
  - discriminate.
  - reflexivity.
  - reflexivity.
  - intros [].
  - reflexivity.
  - repeat constructor; simpl; intuition discriminate.
  - reflexivity.
  - reflexivity.
  - exists d', tb'. repeat split; assumption.
Defined.

(* ================================================================== *)
(** * [TextBlock.write]: the character [$] *)
(* ================================================================== *)

Section DollarFacts.
Variables (d : Doc) (this : nat) (pre : list Item) (tb : TextBlock)
  (post : list Item).
Hypothesis Hitems : items d = pre ++ ITextBlock tb :: post.
Hypothesis Hthis : tb_id tb = this.
Hypothesis Hnd : NoDup (ids (pre ++ ITextBlock tb :: post)).

Let Hpre : ~ In this (ids pre).
Proof.
  rewrite <- Hthis. exact (NoDup_mid_left pre (ITextBlock tb) post Hnd).
Qed.

(** [cursor.insRightOf(this)], [cursor.insLeftOf(this)]. *)
Lemma d_insDirOf_mid (dir : Direction) :
  d_insDirOf dir this d =
  Ok (tt, set_d_cursor
            (cursor_set dir (neighbour dir pre post)
               (cursor_set (opp dir) (Some this)
                  (mkCursor (root d) None None (anticursor (d_cursor d)))))
            d).
Proof.
  unfold d_insDirOf, bind, d_node_at, gets, modify.
  now rewrite (sibling_item_mid d this pre tb post Hitems Hthis Hpre).
Qed.

End DollarFacts.

(** A node made at the cursor, the cursor standing in the enclosing block
    between [pre] and [post]. *)
Lemma d_createDir_gap (d : Doc) (node : Item) (dir : Direction)
  (pre post : list Item) :
  items d = pre ++ post ->
  NoDup (ids (pre ++ post)) ->
  parent (d_cursor d) = root d ->
  c_L (d_cursor d) = last_id pre ->
  c_R (d_cursor d) = head_id post ->
  d_createDir node dir d =
  Ok (tt, mkDoc (root d) (pre ++ node :: post)
            (cursor_set dir (Some (ident node)) (d_cursor d))
            (d_aria d) (d_nextId d)).
Proof.
  intros Hit Hnd Hpar HL HR.
  unfold d_createDir. unfold bind at 1. unfold gets at 1.
  unfold bind at 1. unfold gets at 1. rewrite Hpar, Nat.eqb_refl.
  unfold bind. rewrite Hit, HL, HR, (adopt_split node pre post Hnd).
  reflexivity.
Qed.

Lemma textContents_empty (tb : TextBlock) : kids tb = [] -> textContents tb = "".
Proof. unfold textContents. now intros ->. Qed.

(** [blur(cursor)] of a block without text: the block leaves the tree, and
    a pointer of the cursor that named it names its former sibling. *)
Lemma blur_empty (d : Doc) (this : nat) (pre : list Item) (tb : TextBlock)
  (post : list Item) :
  items d = pre ++ ITextBlock tb :: post ->
  tb_id tb = this ->
  ~ In this (ids pre) ->
  textContents tb = "" ->
  TextBlock_blur this d =
  Ok (tt, mkDoc (root d) (pre ++ post)
            (if ref_eqb (c_L (d_cursor d)) (Some this)
             then cursor_set L (last_id pre) (d_cursor d)
             else if ref_eqb (c_R (d_cursor d)) (Some this)
                  then cursor_set R (head_id post) (d_cursor d)
                  else d_cursor d)
            (d_aria d) (d_nextId d)).
Proof.
  intros Hit Hthis Hpre Htxt.
  unfold TextBlock_blur. unfold bind at 1.
  rewrite (getTextBlock_mid d this pre tb post Hit Hthis Hpre), Htxt.
  cbn [String.eqb]. unfold bind, d_node_at, gets, modify, d_setCursorAt.
  rewrite !(sibling_item_mid d this pre tb post Hit Hthis Hpre).
  rewrite (disown_item_mid d this pre tb post Hit Hthis Hpre).
  cbn [set_items d_cursor neighbour].
  destruct (ref_eqb (c_L (d_cursor d)) (Some this)); [reflexivity|].
  destruct (ref_eqb (c_R (d_cursor d)) (Some this)); [reflexivity|].
  unfold ret. now destruct d.
Qed.

(** C7.  [$] written into an empty text block [tb] (any selection deleted
    first): the cursor is put in the enclosing block just right of [tb] and
    a symbol with control sequence [\$] is made on its left, so between
    [tb] and its right sibling.  When the block then loses focus
    ([blur]), being without text it leaves the tree: what stands in its
    place among its former siblings is the [\$] symbol.  And in general
    [blur] of a block without text re-links a pointer of the cursor that
    named the block to the block's former sibling on that side. *)
Theorem write_dollar_empty (deleteSelection : Doc -> Doc) (d : Doc)
  (this : nat) (pre : list Item) (tb : TextBlock) (post : list Item) :
  items (deleteSelection d) = pre ++ ITextBlock tb :: post ->
  tb_id tb = this ->
  NoDup (ids (pre ++ ITextBlock tb :: post)) ->
  ~ In (d_nextId (deleteSelection d)) (ids (pre ++ ITextBlock tb :: post)) ->
  kids tb = [] ->
  let d1 := deleteSelection d in
  let dollar := IVanillaSymbol (mkSymbol (d_nextId d1) "\$") in
  exists d2 d3,
    TextBlock_write deleteSelection this "$" d = Ok (tt, d2) /\
    items d2 = pre ++ ITextBlock tb :: dollar :: post /\
    d_cursor d2 = mkCursor (root d1) (Some (d_nextId d1)) (head_id post)
                    (anticursor (d_cursor d1)) /\
    TextBlock_blur this d2 = Ok (tt, d3) /\
    items d3 = pre ++ dollar :: post /\
    d_cursor d3 = d_cursor d2 /\
    (forall c : Cursor,
       TextBlock_blur this (set_d_cursor c d2) =
       Ok (tt, set_d_cursor
                 (if ref_eqb (c_L c) (Some this)
                  then cursor_set L (last_id pre) c
                  else if ref_eqb (c_R c) (Some this)
                       then cursor_set R (Some (d_nextId d1)) c
                       else c)
                 d3)).
Proof.
  intros Hitems Hthis Hnd Hfresh Hk d1 dollar. fold d1 in Hitems, Hfresh.
  pose proof (NoDup_mid_left pre (ITextBlock tb) post Hnd) as Hpre.
  cbn [ident Item_Ident] in Hpre. rewrite Hthis in Hpre.
  assert (Hne : d_nextId d1 <> this).
  { intros E. apply Hfresh. rewrite ids_app. apply in_or_app. right.
    cbn. left. now rewrite Hthis. }
  (* the run of write *)
  assert (Run : TextBlock_write deleteSelection this "$" d =
                Ok (tt, mkDoc (root d1) (pre ++ ITextBlock tb :: dollar :: post)
                          (mkCursor (root d1) (Some (d_nextId d1)) (head_id post)
                             (anticursor (d_cursor d1)))
                          (d_aria d1 ++ [Alert "$"]) (S (d_nextId d1)))).
  { unfold TextBlock_write. unfold bind at 1. unfold modify at 1. fold d1.
    cbn [String.eqb Ascii.eqb Bool.eqb negb andb].
    unfold bind at 1. unfold bind at 1.
    rewrite (getTextBlock_mid d1 this pre tb post Hitems Hthis Hpre).
    unfold bind at 1. unfold gets at 1. rewrite Hk.
    unfold bind at 1.
    rewrite (d_insDirOf_mid d1 this pre tb post Hitems Hthis Hnd R).
    unfold bind at 1. unfold d_newId at 1.
    cbn [set_d_cursor root items d_cursor d_aria d_nextId cursor_set opp
         neighbour parent c_L c_R anticursor].
    erewrite (d_createDir_gap _ dollar L (pre ++ [ITextBlock tb]) post).
    - unfold d_aria_alert, modify.
      cbn [root items d_cursor d_aria d_nextId cursor_set parent c_L c_R
           anticursor ident Item_Ident sym_id].
      rewrite <- app_assoc. reflexivity.
    - cbn [items]. now rewrite Hitems, <- app_assoc.
    - now rewrite <- app_assoc.
    - reflexivity.
    - cbn [d_cursor c_L]. rewrite last_id_snoc. cbn [ident Item_Ident].
      now rewrite Hthis.
    - reflexivity. }
  eexists. eexists. split; [exact Run|].
  cbn [items d_cursor].
  split; [reflexivity|]. split; [reflexivity|].
  assert (Blur : forall c,
            TextBlock_blur this
              (mkDoc (root d1) (pre ++ ITextBlock tb :: dollar :: post) c
                 (d_aria d1 ++ [Alert "$"]) (S (d_nextId d1))) =
            Ok (tt, mkDoc (root d1) (pre ++ dollar :: post)
                      (if ref_eqb (c_L c) (Some this)
                       then cursor_set L (last_id pre) c
                       else if ref_eqb (c_R c) (Some this)
                            then cursor_set R (Some (d_nextId d1)) c
                            else c)
                      (d_aria d1 ++ [Alert "$"]) (S (d_nextId d1)))).
  { intros c.
    match goal with |- TextBlock_blur _ ?dd = _ =>
      apply (blur_empty dd this pre tb (dollar :: post))
    end; try assumption; [reflexivity | now apply textContents_empty]. }
  split; [apply Blur|].
  cbn [c_L c_R ref_eqb].
  replace (Nat.eqb (d_nextId d1) this) with false
    by (symmetry; now apply Nat.eqb_neq).
  assert (Hr : ref_eqb (head_id post) (Some this) = false).
  { destruct (ref_eqb (head_id post) (Some this)) eqn:E; [|reflexivity].
    apply ref_eqb_eq in E. exfalso.
    destruct (NoDup_mid_not_in pre (ITextBlock tb) post Hnd) as (_ & Hpost & _).
    apply Hpost. destruct post as [|y post']; [discriminate|].
    cbn in E. injection E as E. cbn. left. now rewrite Hthis. }
  rewrite Hr. split; [reflexivity|]. split; [reflexivity|].
  intros c. unfold set_d_cursor at 1. cbn [root items d_aria d_nextId].
  rewrite Blur. reflexivity.
Qed.

(** An empty text block between the symbols [a] and [b], the cursor in it:
    after [$] and the loss of focus, [\$] stands between [a] and [b]. *)
Lemma write_dollar_empty_witness :
  exists d2 d3,
    TextBlock_write (fun d => d) 5 "$"
      (mkDoc 0 [IVanillaSymbol (mkSymbol 1 "a");
                ITextBlock (mkTextBlock 5 "\text" None []);
                IVanillaSymbol (mkSymbol 2 "b")]
         (mkCursor 5 None None None) [] 20) = Ok (tt, d2) /\
    TextBlock_blur 5 d2 = Ok (tt, d3) /\
    items d3 = [IVanillaSymbol (mkSymbol 1 "a");
                IVanillaSymbol (mkSymbol 20 "\$");
                IVanillaSymbol (mkSymbol 2 "b")] /\
    d_cursor d3 = mkCursor 0 (Some 20) (Some 2) None.
Proof.
  destruct (write_dollar_empty (fun d => d)
              (mkDoc 0 [IVanillaSymbol (mkSymbol 1 "a");
                        ITextBlock (mkTextBlock 5 "\text" None []);
                        IVanillaSymbol (mkSymbol 2 "b")]
                 (mkCursor 5 None None None) [] 20)
              5 [IVanillaSymbol (mkSymbol 1 "a")]
              (mkTextBlock 5 "\text" None [])
              [IVanillaSymbol (mkSymbol 2 "b")])
    as (d2 & d3 & Run & _ & Cur2 & Blur & It & Cur3 & _).
  - reflexivity.
  - reflexivity.
  - repeat constructor; simpl; intuition discriminate.
  - simpl; intuition discriminate.
  - reflexivity.
  - exists d2, d3. repeat split; try assumption.
    rewrite Cur3. exact Cur2.
Defined.

Section BlurFirst.
Local Open Scope st_scope.

(** In the engine the block loses focus as soon as the cursor leaves it,
    before the symbol is made.  In that order the result is the same: the
    symbol stands where the block was. *)
Lemma write_dollar_empty_blur_first (d1 : Doc) (this : nat)
  (pre : list Item) (tb : TextBlock) (post : list Item) :
  items d1 = pre ++ ITextBlock tb :: post ->
  tb_id tb = this ->
  NoDup (ids (pre ++ ITextBlock tb :: post)) ->
  kids tb = [] ->
  (d_insDirOf R this ;;;
   TextBlock_blur this ;;;
   n <- d_newId ;;
   d_createDir (IVanillaSymbol (mkSymbol n "\$")) L) d1 =
  Ok (tt, mkDoc (root d1)
            (pre ++ IVanillaSymbol (mkSymbol (d_nextId d1) "\$") :: post)
            (mkCursor (root d1) (Some (d_nextId d1)) (head_id post)
               (anticursor (d_cursor d1)))
            (d_aria d1) (S (d_nextId d1))).
Proof.
  intros Hitems Hthis Hnd Hk.
  pose proof (NoDup_mid_left pre (ITextBlock tb) post Hnd) as Hpre.
  cbn [ident Item_Ident] in Hpre. rewrite Hthis in Hpre.
  assert (Hnd' : NoDup (ids (pre ++ post))).
  { rewrite ids_app in *. cbn [ids map] in Hnd. now apply NoDup_remove_1 in Hnd. }
  unfold bind at 1.
  rewrite (d_insDirOf_mid d1 this pre tb post Hitems Hthis Hnd R).
  unfold bind at 1.
  match goal with |- context [TextBlock_blur this ?dd] =>
    rewrite (blur_empty dd this pre tb post Hitems Hthis Hpre
               (textContents_empty tb Hk))
  end.
  cbn [set_d_cursor root items d_cursor d_aria d_nextId cursor_set opp
       neighbour parent c_L c_R anticursor ref_eqb].
  rewrite Nat.eqb_refl.
  unfold bind at 1. unfold d_newId at 1.
  cbn [root items d_cursor d_aria d_nextId].
  erewrite (d_createDir_gap _ _ L pre post); try reflexivity.
  exact Hnd'.
Qed.

End BlurFirst.


(** A drag over ["hello"] from offset 1 to offset 4 leaves three pieces,
    two of them left of the cursor. *)
Lemma drag_leaves_three_pieces :
  seek (fun _ => Some 4%Z) (fun _ => 0%Z)
    (mkRegion (mkTextBlock 5 "\text" (Some 1%Z)
                 [mkTextPiece 1 "h"; mkTextPiece 2 "ello"])
       (mkCursor 5 (Some 1) (Some 2) (Some (mkAnticursor 5 (Some 1) (Some 2))))
       [] 6) =
  Ok (tt, mkRegion (mkTextBlock 5 "\text" (Some 1%Z)
                      [mkTextPiece 6 "h"; mkTextPiece 8 "ell"; mkTextPiece 7 "o"])
            (mkCursor 5 (Some 8) (Some 7)
               (Some (mkAnticursor 5 (Some 6) (Some 8))))
            [] 9).
Proof. reflexivity. Qed.

(** So does a selection by keyboard that starts between two pieces:
    [c|at], then the character to the right is selected. *)
Lemma selectTowards_leaves_three_pieces :
  selectTowards 2 R
    (mkRegion (mkTextBlock 5 "\text" None
                 [mkTextPiece 1 "c"; mkTextPiece 2 "at"])
       (mkCursor 5 (Some 1) (Some 2) (Some (mkAnticursor 5 (Some 1) (Some 2))))
       [] 6) =
  Ok (tt, mkRegion (mkTextBlock 5 "\text" None
                      [mkTextPiece 1 "c"; mkTextPiece 6 "a"; mkTextPiece 2 "t"])
            (mkCursor 5 (Some 6) (Some 2)
               (Some (mkAnticursor 5 (Some 1) (Some 6))))
            [Queue "a"] 7).
Proof. reflexivity. Qed.

(** C2 fails on this input: the block as the drag above left it, the
    selection then given up with the cursor where it is (between ["ell"]
    and ["o"]).  The text left of the cursor is ["hell"], but [$] moves
    only ["h"] into the new block on the left; ["ell"] stays in the
    original block, now right of the cursor. *)
Theorem write_dollar_three_pieces :
  let d := mkDoc 0
             [ITextBlock (mkTextBlock 5 "\text" (Some 1%Z)
                            [mkTextPiece 6 "h"; mkTextPiece 8 "ell";
                             mkTextPiece 7 "o"])]
             (mkCursor 5 (Some 8) (Some 7) None) [] 9 in
  text_of [mkTextPiece 6 "h"; mkTextPiece 8 "ell"] = "hell" /\
  exists d' leftBlock rightBlock,
    TextBlock_write (fun d => d) 5 "$" d = Ok (tt, d') /\
    items d' = [ITextBlock leftBlock; ITextBlock rightBlock] /\
    d_cursor d' = mkCursor 0 (Some (tb_id leftBlock)) (Some (tb_id rightBlock)) None /\
    textContents leftBlock = "h" /\
    textContents rightBlock = "ello".
Proof.
  intros d. split; [reflexivity|].
  eexists. eexists. eexists.
  split; [vm_compute; reflexivity|].
  repeat split.
Qed.

(* ================================================================== *)
(** * [RootMathCommand]: [$] in the inner block *)
(* ================================================================== *)

Section GapAbsent.
Context {A : Type} `{Ident A}.

(** No gap has a left neighbour that is not a child. *)
Lemma gap_from_absent (prev : NodeRef) (n : nat) (rw : NodeRef) (l : list A) :
  prev <> Some n -> ~ In n (ids l) ->
  gap_from prev (Some n) rw l = None.
Proof.
  revert prev; induction l as [|x l IH]; intros prev Hp Hn; cbn [gap_from].
  - destruct (ref_eqb prev (Some n)) eqn:E; [|reflexivity].
    apply ref_eqb_eq in E. contradiction.
  - destruct (ref_eqb prev (Some n)) eqn:E.
    { apply ref_eqb_eq in E. contradiction. }
    cbn [andb]. rewrite IH; [reflexivity | | ].
    + intros [= E']. apply Hn. cbn. now left.
    + intros Hc. apply Hn. cbn. now right.
Qed.

Lemma adopt_stale (x : A) (n : nat) (rw : NodeRef) (l : list A) :
  ~ In n (ids l) -> adopt x (Some n) rw l = Throw "prayWellFormed".
Proof.
  intros Hn. unfold adopt, gapAt.
  rewrite gap_from_absent; [reflexivity | discriminate | exact Hn].
Qed.

End GapAbsent.

Lemma find_block_mid (this cmd : nat) (inner : list Symbol)
  (pre post : list Item) :
  find_block this pre = None ->
  find_block this (pre ++ IRootMathCommand cmd this inner :: post) =
  Some (cmd, inner).
Proof.
  induction pre as [|y pre IH]; cbn [app find_block]; intros Hp.
  - now rewrite Nat.eqb_refl.
  - destruct y as [tb|s|id b inn]; try (apply IH; exact Hp).
    destruct (Nat.eqb b this); [discriminate | apply IH; exact Hp].
Qed.

Section RootMathFacts.
Variable MathBlock_write : nat -> string -> D unit.
Variables (d : Doc) (this cmd : nat) (inner : list Symbol)
  (pre post : list Item).
Hypothesis Hitems : items d = pre ++ IRootMathCommand cmd this inner :: post.
Hypothesis Hblock : find_block this pre = None.
Hypothesis Hnd : NoDup (ids (pre ++ IRootMathCommand cmd this inner :: post)).

Let Hpre : ~ In (ident (IRootMathCommand cmd this inner)) (ids pre).
Proof. exact (NoDup_mid_left pre _ post Hnd). Qed.

Lemma cmd_insDirOf (dir : Direction) :
  d_insDirOf dir cmd d =
  Ok (tt, set_d_cursor
            (cursor_set dir (neighbour dir pre post)
               (cursor_set (opp dir) (Some cmd)
                  (mkCursor (root d) None None (anticursor (d_cursor d)))))
            d).
Proof.
  unfold d_insDirOf, bind, d_node_at, gets, modify. rewrite Hitems.
  change cmd with (ident (IRootMathCommand cmd this inner)) at 1.
  now rewrite (sibling_mid dir pre _ post Hpre).
Qed.

(** Any character but [$] goes to the ordinary write of a math block. *)
Lemma RootMathCommand_write_char (ch : string) :
  ch <> "$" ->
  RootMathCommand_write MathBlock_write this ch d = MathBlock_write this ch d.
Proof.
  intros Hch. unfold RootMathCommand_write.
  now rewrite (proj2 (String.eqb_neq ch "$") Hch).
Qed.

(** [$] in a block that is not empty: at the right end the cursor leaves
    the command to the right, at the left end to the left, nothing being
    inserted; elsewhere the ordinary write runs. *)
Lemma RootMathCommand_write_dollar_nonempty :
  inner <> [] ->
  RootMathCommand_write MathBlock_write this "$" d =
  match c_R (d_cursor d), c_L (d_cursor d) with
  | None, _ =>
      Ok (tt, set_d_cursor
                (mkCursor (root d) (Some cmd) (head_id post)
                   (anticursor (d_cursor d))) d)
  | Some _, None =>
      Ok (tt, set_d_cursor
                (mkCursor (root d) (last_id pre) (Some cmd)
                   (anticursor (d_cursor d))) d)
  | Some _, Some _ => MathBlock_write this "$" d
  end.
Proof.
  intros Hne. unfold RootMathCommand_write.
  cbn [String.eqb Ascii.eqb Bool.eqb negb andb].
  unfold bind at 1. unfold getBlock.
  rewrite Hitems, (find_block_mid this cmd inner pre post Hblock).
  unfold bind at 1. unfold gets at 1. cbn [fst snd].
  assert (E : exists x xs, inner = x :: xs)
    by (clear - Hne; destruct inner as [|x xs]; [congruence | eauto]).
  destruct E as (x & xs & E). rewrite E.
  destruct (c_R (d_cursor d)) as [r|], (c_L (d_cursor d)) as [l|];
    try reflexivity; now rewrite cmd_insDirOf.
Qed.

(** [$] in an empty block: the cursor is put right of the command, the
    command is removed by [deleteTowards(undefined, cursor)], which
    re-links no pointer of the cursor, and the [\$] symbol is then adopted
    with the removed command as its left neighbour: the tree's assertion
    fails. *)
Lemma RootMathCommand_write_dollar_empty :
  inner = [] ->
  RootMathCommand_write MathBlock_write this "$" d = Throw "prayWellFormed".
Proof.
  intros Hin. unfold RootMathCommand_write.
  cbn [String.eqb Ascii.eqb Bool.eqb negb andb].
  unfold bind at 1. unfold getBlock.
  rewrite Hitems, (find_block_mid this cmd inner pre post Hblock).
  unfold bind at 1. unfold gets at 1. cbn [fst snd]. rewrite Hin.
  unfold bind at 1. rewrite cmd_insDirOf.
  unfold bind at 1. unfold MathCommand_deleteTowards. unfold bind at 1.
  cbn [set_d_cursor items]. rewrite Hitems.
  pose proof (find_node_mid pre _ post Hpre) as Fn.
  pose proof (disown_mid pre _ post Hpre) as Dn.
  cbn [ident Item_Ident] in Fn, Dn.
  rewrite Fn. cbn [isEmptyItem]. rewrite Hin.
  unfold modify at 1. unfold set_items, set_d_cursor.
  cbn [items root d_cursor d_aria d_nextId].
  rewrite Hitems, Dn.
  unfold bind at 1. unfold d_newId at 1.
  cbn [root items d_cursor d_aria d_nextId].
  unfold d_createDir. unfold bind at 1. unfold gets at 1.
  unfold bind at 1. unfold gets at 1.
  cbn [root d_cursor parent cursor_set opp c_L c_R]. rewrite Nat.eqb_refl.
  unfold bind at 1. cbn [items ident Item_Ident].
  rewrite adopt_stale; [reflexivity|].
  destruct (NoDup_mid_not_in pre _ post Hnd) as (H1 & H2 & _).
  rewrite ids_app. intros Hc. apply in_app_or in Hc.
  cbn [ident Item_Ident] in H1, H2. tauto.
Qed.

End RootMathFacts.

(** C8 fails on this input.  An empty [RootMathCommand] (id 5, inner block
    6) between the symbols [a] and [b], the cursor in its inner block: [$]
    aborts, whatever the ordinary write of a math block is.  The command is
    removed, but no [\$] symbol is inserted. *)
Theorem rootmath_dollar_in_empty_block (MathBlock_write : nat -> string -> D unit) :
  RootMathCommand_write MathBlock_write 6 "$"
    (mkDoc 0 [IVanillaSymbol (mkSymbol 1 "a"); IRootMathCommand 5 6 [];
              IVanillaSymbol (mkSymbol 2 "b")]
       (mkCursor 6 None None None) [] 20) =
  Throw "prayWellFormed".
Proof. reflexivity. Qed.

(* ================================================================== *)
(** * Further properties: [TextPiece] *)
(* ================================================================== *)

Lemma len_zero (t : string) : Str.len t = 0%Z <-> t = "".
Proof.
  unfold Str.len. split.
  - intros E. apply StrFacts.length_zero. lia.
  - now intros ->.
Qed.

(** X1.  [splitRight(i)] with [0 <= i <= length], on a piece [p] of a
    block: a new piece stands immediately right of [p]; [p] keeps its first
    [i] characters and the new piece holds the others, so the block's
    [textContents()] is unchanged; the cursor is not touched.  Both pieces
    have text exactly when the cut is strictly inside: at [0] the piece
    [p] is left without text, at [length] the new piece has none. *)
Theorem splitRight_keeps_text (st : Region) (i : Z)
  (pre : list TextPiece) (p : TextPiece) (post : list TextPiece) :
  kids (blk st) = pre ++ p :: post ->
  NoDup (ids (pre ++ p :: post)) ->
  (0 <= i <= Str.len (textStr p))%Z ->
  exists (st' : Region) (left right : TextPiece),
    splitRight (pc_id p) i st = Ok (pc_id right, st') /\
    kids (blk st') = pre ++ left :: right :: post /\
    pc_id left = pc_id p /\
    pc_id right = nextId st /\
    textStr left +++ textStr right = textStr p /\
    Str.len (textStr left) = i /\
    textContents (blk st') = textContents (blk st) /\
    sibling R (pc_id p) (kids (blk st')) = Some (pc_id right) /\
    cursor st' = cursor st /\
    aria st' = aria st /\
    (textStr left <> "" /\ textStr right <> "" <->
     (0 < i < Str.len (textStr p))%Z).
Proof.
  intros Hk Hnd Hi.
  pose proof (NoDup_mid_left pre p post Hnd) as Hpre.
  eexists. exists (mkTextPiece (pc_id p) (Str.slice (textStr p) 0 (Some i))),
             (mkTextPiece (nextId st) (Str.slice (textStr p) i None)).
  split; [exact (splitRight_mid st i pre p post Hk Hnd)|].
  cbn [blk kids cursor aria pc_id textStr].
  pose proof (StrFacts.length_slice_prefix (textStr p) i Hi) as E1.
  pose proof (StrFacts.length_slice_suffix (textStr p) i Hi) as E2.
  split; [reflexivity|]. split; [reflexivity|]. split; [reflexivity|].
  split; [apply StrFacts.slice_split|].
  split; [exact E1|].
  split.
  { unfold textContents. cbn [kids]. rewrite Hk, !text_of_app, !text_of_cons.
    cbn [textStr]. f_equal.
    now rewrite <- StrFacts.append_assoc, StrFacts.slice_split. }
  split.
  { pose proof (sibling_mid R pre
                  (mkTextPiece (pc_id p) (Str.slice (textStr p) 0 (Some i)))
                  (mkTextPiece (nextId st) (Str.slice (textStr p) i None) :: post))
      as Sb.
    cbn [ident TextPiece_Ident pc_id neighbour head_id] in Sb.
    apply Sb. exact Hpre. }
  split; [reflexivity|]. split; [reflexivity|].
  split.
  - intros [Hl Hr]. rewrite <- len_zero in Hl, Hr. lia.
  - intros Hin. split; intros E; apply len_zero in E; lia.
Qed.

(** ["hello"] cut at [2]. *)
Lemma splitRight_keeps_text_witness :
  exists st',
    splitRight 1 2
      (mkRegion (mkTextBlock 10 "\text" None [mkTextPiece 1 "hello"])
         (mkCursor 10 (Some 1) None None) [] 20) = Ok (20, st') /\
    kids (blk st') = [mkTextPiece 1 "he"; mkTextPiece 20 "llo"] /\
    textContents (blk st') = "hello".
Proof.
  destruct (splitRight_keeps_text
              (mkRegion (mkTextBlock 10 "\text" None [mkTextPiece 1 "hello"])
                 (mkCursor 10 (Some 1) None None) [] 20)
              2 [] (mkTextPiece 1 "hello") [])
    as (st' & l & r & Run & K & Il & Ir & _ & _ & Txt & _).
  - reflexivity.
  - repeat constructor. intros [].
  - unfold Str.len; simpl; lia.
  - exists st'. split; [|split; [|exact Txt]].
    + rewrite Ir in Run. exact Run.
    + vm_compute in Run. injection Run as _ <-. reflexivity.
Defined.

(** One step of [moveTowards] from a gap of the block: the cursor is again
    in a gap, one character further in the direction [dir]. *)
Lemma moveTowards_step (st : Region) (dir : Direction)
  (a b : list TextPiece) (n : nat) :
  tree_ok st ->
  kids (blk st) = a ++ b ->
  c_L (cursor st) = last_id a ->
  c_R (cursor st) = head_id b ->
  cursor_at dir (cursor st) = Some n ->
  exists st' a' b',
    moveTowards n dir st = Ok (tt, st') /\
    kids (blk st') = a' ++ b' /\
    c_L (cursor st') = last_id a' /\
    c_R (cursor st') = head_id b' /\
    tree_ok st' /\
    text_of (a' ++ b') = text_of (a ++ b) /\
    Str.len (text_of a') = (Str.len (text_of a) + dir_num dir)%Z /\
    cursor_at (opp dir) (cursor st') <> None /\
    same_frame st st'.
Proof.
  intros Hok Hk HcL HcR Hn.
  pose proof Hok as (Hnd & _ & Hne).
  pose proof (tree_ok_fresh st Hok) as Hfresh.
  rewrite Hk in Hnd, Hfresh, Hne.
  destruct dir; cbn [cursor_at opp dir_num] in *.
  - (* leftwards *)
    rewrite HcL in Hn.
    destruct (snoc_case a) as [-> | (pre & p & ->)]; [discriminate|].
    rewrite last_id_snoc in Hn. injection Hn as <-.
    cbn [ident TextPiece_Ident] in *.
    assert (Hk2 : kids (blk st) = pre ++ p :: b) by now rewrite Hk, <- app_assoc.
    rewrite <- app_assoc in Hnd, Hfresh, Hne. cbn [app] in Hnd, Hfresh, Hne.
    assert (Hp : textStr p <> "").
    { rewrite Forall_forall in Hne. apply Hne. apply in_or_app. right. now left. }
    destruct (StrFacts.last_char (textStr p) Hp) as (rest & c & Et).
    destruct (moveTowards_left st pre p b c rest Hk2 Hnd Hfresh)
      as (st' & recv & Run & K & Hrecv & CL & CR & F); try assumption.
    { rewrite HcL, last_id_snoc. reflexivity. }
    exists st', (pre ++ left_over (pc_id p) rest), recv.
    split; [exact Run|]. split; [now rewrite K, app_assoc|].
    split; [exact CL|]. split; [exact CR|].
    split; [now apply (moveTowards_ok st st' (pc_id p) L)|].
    assert (L3 : text_of recv = String c (text_of b) /\ recv <> []).
    { destruct Hrecv as [[-> ->] | (q & post0 & -> & ->)].
      - split; [reflexivity | discriminate].
      - split; [|discriminate]. now rewrite !text_of_cons. }
    destruct L3 as [L3 L4].
    split; [|split; [|split]].
    + rewrite !text_of_app, text_of_left_over, L3, text_of_one, Et.
      now rewrite !StrFacts.append_assoc.
    + rewrite !text_of_app, text_of_left_over, text_of_one, Et, !len_append.
      unfold Str.len. simpl. lia.
    + rewrite CR. destruct recv; [congruence | discriminate].
    + exact F.
  - (* rightwards *)
    rewrite HcR in Hn. destruct b as [|p post]; [discriminate|].
    injection Hn as <-. cbn [ident TextPiece_Ident] in *.
    assert (Hp : textStr p <> "").
    { rewrite Forall_forall in Hne. apply Hne. apply in_or_app. right. now left. }
    destruct (textStr p) as [|c rest] eqn:Et; [congruence|].
    destruct (moveTowards_right st a p post c rest Hk Hnd Hfresh)
      as (st' & recv & Run & K & Hrecv & CL & CR & F); try assumption.
    exists st', recv, (left_over (pc_id p) rest ++ post).
    split; [exact Run|]. split; [exact K|].
    split; [exact CL|]. split; [exact CR|].
    split; [now apply (moveTowards_ok st st' (pc_id p) R)|].
    assert (L3 : text_of recv = text_of a +++ String c "" /\ recv <> []).
    { destruct Hrecv as [[-> ->] | (pre0 & q & -> & ->)].
      - split; [reflexivity | discriminate].
      - split; [|intros E; now apply app_eq_nil in E].
        rewrite !text_of_app, !text_of_one. cbn [textStr].
        now rewrite StrFacts.append_assoc. }
    destruct L3 as [L3 L4].
    split; [|split; [|split]].
    + rewrite !text_of_app, text_of_left_over, L3, text_of_cons, Et.
      now rewrite !StrFacts.append_assoc.
    + rewrite L3, len_append. unfold Str.len. simpl. lia.
    + rewrite CL. destruct (snoc_case recv) as [-> | (r0 & x & ->)];
        [congruence | rewrite last_id_snoc; discriminate].
    + exact F.
Qed.

(** X2.  [TextPiece.moveTowards(dir)] on the piece [cursor[dir]], the cursor
    standing in a gap of a well-formed block at the character offset [pos]:
    the call returns and the cursor is at [pos + dir], one character
    further, however the pieces are cut; the text and the well-formedness
    of the block (distinct ids, no empty piece) are kept.  The cursor then
    has a neighbour on the side it came from, and the step back on that
    neighbour returns the cursor to [pos], the text being the same; the
    pieces need not be cut as before. *)
Theorem moveTowards_steps_one (st : Region) (dir : Direction)
  (a b : list TextPiece) (n : nat) :
  tree_ok st ->
  kids (blk st) = a ++ b ->
  c_L (cursor st) = last_id a ->
  c_R (cursor st) = head_id b ->
  cursor_at dir (cursor st) = Some n ->
  exists (st' : Region) (pos : Z),
    offset_of (c_L (cursor st)) (c_R (cursor st)) (kids (blk st)) = Some pos /\
    moveTowards n dir st = Ok (tt, st') /\
    offset_of (c_L (cursor st')) (c_R (cursor st')) (kids (blk st')) =
      Some (pos + dir_num dir)%Z /\
    textContents (blk st') = textContents (blk st) /\
    tree_ok st' /\
    exists (back : nat) (st'' : Region),
      cursor_at (opp dir) (cursor st') = Some back /\
      moveTowards back (opp dir) st' = Ok (tt, st'') /\
      offset_of (c_L (cursor st'')) (c_R (cursor st'')) (kids (blk st'')) =
        Some pos /\
      textContents (blk st'') = textContents (blk st).
Proof.
  intros Hok Hk HcL HcR Hn.
  destruct (moveTowards_step st dir a b n Hok Hk HcL HcR Hn)
    as (st1 & a1 & b1 & Run1 & K1 & L1 & R1 & Ok1 & T1 & P1 & B1 & _).
  destruct (cursor_at (opp dir) (cursor st1)) as [back|] eqn:Hb; [|congruence].
  destruct (moveTowards_step st1 (opp dir) a1 b1 back Ok1 K1 L1 R1 Hb)
    as (st2 & a2 & b2 & Run2 & K2 & L2 & R2 & Ok2 & T2 & P2 & _).
  exists st1, (Str.len (text_of a)).
  assert (Hnd : NoDup (ids (a ++ b))) by (rewrite <- Hk; apply Hok).
  assert (Hnd1 : NoDup (ids (a1 ++ b1))) by (rewrite <- K1; apply Ok1).
  assert (Hnd2 : NoDup (ids (a2 ++ b2))) by (rewrite <- K2; apply Ok2).
  split; [rewrite HcL, HcR, Hk; now apply offset_of_split|].
  split; [exact Run1|].
  split; [rewrite L1, R1, K1, <- P1; now apply offset_of_split|].
  split; [unfold textContents; now rewrite K1, Hk|].
  split; [exact Ok1|].
  exists back, st2. split; [exact Hb|]. split; [exact Run2|].
  split.
  - rewrite L2, R2, K2, (offset_of_split a2 b2 Hnd2). f_equal.
    rewrite P2, P1. destruct dir; cbn; lia.
  - unfold textContents. now rewrite K2, T2, T1, Hk.
Qed.

Lemma moveTowards_steps_one_witness :
  exists st',
    moveTowards 2 R
      (mkRegion (mkTextBlock 10 "\text" None
                   [mkTextPiece 1 "ab"; mkTextPiece 2 "cd"])
         (mkCursor 10 (Some 1) (Some 2) None) [] 20) = Ok (tt, st') /\
    offset_of (c_L (cursor st')) (c_R (cursor st')) (kids (blk st')) = Some 3%Z /\
    textContents (blk st') = "abcd".
Proof.
  destruct (moveTowards_steps_one
              (mkRegion (mkTextBlock 10 "\text" None
                           [mkTextPiece 1 "ab"; mkTextPiece 2 "cd"])
                 (mkCursor 10 (Some 1) (Some 2) None) [] 20)
              R [mkTextPiece 1 "ab"] [mkTextPiece 2 "cd"] 2)
    as (st' & pos & Off & Run & Off' & Txt & _).
  - repeat split.
    + repeat constructor; simpl; intuition discriminate.
    + simpl. intros n [<-|[<-|[]]]; lia.
    + repeat constructor; discriminate.
  - reflexivity.
  - reflexivity.
  - reflexivity.
  - reflexivity.
  - exists st'. split; [exact Run|]. split; [|exact Txt].
    vm_compute in Off. injection Off as <-. exact Off'.
Defined.

Section SelectTowards.
Variables (st : Region)
  (pre : list TextPiece) (p : TextPiece) (post : list TextPiece)
  (c : ascii) (rest : string) (ac : Anticursor).
Hypothesis Hkids : kids (blk st) = pre ++ p :: post.
Hypothesis Hnd : NoDup (ids (pre ++ p :: post)).
Hypothesis Hfresh : ~ In (nextId st) (ids (pre ++ p :: post)).
Hypothesis Hanti : anticursor (cursor st) = Some ac.

Let Hpre : ~ In (pc_id p) (ids pre).
Proof. exact (NoDup_mid_left pre p post Hnd). Qed.

(** The selection starts here and grows rightwards: the anticursor is at
    the cursor, left of the piece [p]. *)
Lemma selectTowards_near_right :
  c_R (cursor st) = Some (pc_id p) ->
  c_L (cursor st) = last_id pre ->
  textStr p = String c rest ->
  a_R ac = Some (pc_id p) ->
  exists st',
    selectTowards (pc_id p) R st = Ok (tt, st') /\
    kids (blk st') =
      pre ++ mkTextPiece (nextId st) (String c "")
          :: left_over (pc_id p) rest ++ post /\
    c_L (cursor st') = Some (nextId st) /\
    c_R (cursor st') = head_id (left_over (pc_id p) rest ++ post) /\
    anticursor (cursor st') = Some (anti_set R (Some (nextId st)) ac).
Proof.
  intros Hcur Hopp Htext HaR.
  unfold selectTowards. unfold bind at 1. unfold gets at 1. rewrite Hanti.
  unfold bind at 1.
  rewrite (getPiece_mid st (pc_id p) pre p post Hkids eq_refl Hpre).
  rewrite Htext, (endChar_boundary R c rest). cbn [anti_at opp].
  rewrite HaR, ref_eqb_refl.
  unfold bind at 1. unfold bind at 1.
  rewrite (createDir_gap st (String c "") R pre (p :: post) Hkids Hopp Hcur Hnd).
  unfold bind at 1. unfold modify at 1.
  unfold insDirOf. unfold bind at 1.
  match goal with |- context [node_at R (nextId st) ?s] =>
    rewrite (node_at_mid s (nextId st) pre (mkTextPiece (nextId st) (String c ""))
               (p :: post) eq_refl eq_refl)
  end.
  2:{ intros Hin. apply Hfresh. rewrite ids_app. apply in_or_app. now left. }
  unfold modify at 1. cbn [neighbour head_id ident TextPiece_Ident].
  match goal with |- context [deleteTowards _ _ ?s] =>
    destruct (deleteTowards_after s R
                (pre ++ [mkTextPiece (nextId st) (String c "")])
                p post c rest Htext)
      as (st' & E & K & CL & CR & _ & F)
  end.
  - cbn [set_cursor set_anticursor blk kids]. now rewrite <- app_assoc.
  - rewrite ids_snoc. cbn [pc_id]. intros Hin. apply in_app_or in Hin.
    destruct Hin as [Hin|[Hin|[]]]; [now apply Hpre|].
    apply Hfresh. rewrite ids_app. apply in_or_app. right. left.
    symmetry. exact Hin.
  - exists st'. split; [exact E|].
    split; [now rewrite K, <- app_assoc|].
    cbn [opp cursor_at cursor set_cursor set_anticursor cursor_set c_L c_R
         neighbour] in CL, CR.
    split; [exact CL|].
    split; [rewrite CR; now destruct rest|].
    destruct F as (_ & _ & _ & _ & F5). rewrite F5. reflexivity.
Qed.


(** The same leftwards. *)
Lemma selectTowards_near_left :
  c_L (cursor st) = Some (pc_id p) ->
  c_R (cursor st) = head_id post ->
  textStr p = rest +++ String c "" ->
  a_L ac = Some (pc_id p) ->
  exists st',
    selectTowards (pc_id p) L st = Ok (tt, st') /\
    kids (blk st') =
      pre ++ left_over (pc_id p) rest
          ++ mkTextPiece (nextId st) (String c "") :: post /\
    c_L (cursor st') = last_id (pre ++ left_over (pc_id p) rest) /\
    c_R (cursor st') = Some (nextId st) /\
    anticursor (cursor st') = Some (anti_set L (Some (nextId st)) ac).
Proof.
  intros Hcur Hopp Htext HaL.
  unfold selectTowards. unfold bind at 1. unfold gets at 1. rewrite Hanti.
  unfold bind at 1.
  rewrite (getPiece_mid st (pc_id p) pre p post Hkids eq_refl Hpre).
  rewrite Htext, (endChar_boundary L c rest). cbn [anti_at opp].
  rewrite HaL, ref_eqb_refl.
  assert (Hlast : match rest with
                  | EmptyString => last_id pre
                  | _ => Some (pc_id p)
                  end = last_id (pre ++ left_over (pc_id p) rest)).
  { destruct rest; cbn [left_over]; [now rewrite app_nil_r|].
    now rewrite last_id_snoc. }
  assert (Hk2 : kids (blk st) = (pre ++ [p]) ++ post)
    by now rewrite <- app_assoc.
  assert (Hnd2 : NoDup (ids ((pre ++ [p]) ++ post)))
    by now rewrite <- app_assoc.
  assert (HL2 : c_L (cursor st) = last_id (pre ++ [p]))
    by now rewrite last_id_snoc.
  unfold bind at 1. unfold bind at 1.
  rewrite (createDir_gap st (String c "") L (pre ++ [p]) post Hk2 HL2 Hopp Hnd2).
  unfold bind at 1. unfold modify at 1.
  unfold insDirOf. unfold bind at 1.
  match goal with |- context [node_at L (nextId st) ?s] =>
    rewrite (node_at_mid s (nextId st) (pre ++ [p])
               (mkTextPiece (nextId st) (String c "")) post eq_refl eq_refl)
  end.
  2:{ intros Hin. apply Hfresh. rewrite ids_snoc in Hin. rewrite ids_app.
      apply in_app_or in Hin. apply in_or_app.
      destruct Hin as [Hin|[Hin|[]]]; [now left | right; now left]. }
  unfold modify at 1. cbn [neighbour]. rewrite last_id_snoc.
  cbn [ident TextPiece_Ident].
  match goal with |- context [deleteTowards _ _ ?s] =>
    destruct (deleteTowards_after s L pre p
                (mkTextPiece (nextId st) (String c "") :: post) c rest Htext)
      as (st' & E & K & CR & CL & _ & F)
  end.
  - cbn [set_cursor set_anticursor blk kids]. now rewrite <- app_assoc.
  - exact Hpre.
  - exists st'. split; [exact E|]. split; [exact K|].
    cbn [opp cursor_at cursor set_cursor set_anticursor cursor_set c_L c_R
         neighbour] in CL, CR.
    split; [rewrite CL; exact Hlast|].
    split; [exact CR|].
    destruct F as (_ & _ & _ & _ & F5). rewrite F5. reflexivity.
Qed.

(** The selection began elsewhere, the cursor goes rightwards through [p]:
    the step of [moveTowards]; an anticursor right after a one-character
    [p] goes to the piece that took the character. *)
Lemma selectTowards_far_right :
  c_R (cursor st) = Some (pc_id p) ->
  c_L (cursor st) = last_id pre ->
  textStr p = String c rest ->
  a_R ac <> Some (pc_id p) ->
  exists st' recv,
    selectTowards (pc_id p) R st = Ok (tt, st') /\
    kids (blk st') = recv ++ left_over (pc_id p) rest ++ post /\
    ((pre = [] /\ recv = [mkTextPiece (nextId st) (String c "")]) \/
     (exists pre0 q, pre = pre0 ++ [q] /\
        recv = pre0 ++ [mkTextPiece (pc_id q) (textStr q +++ String c "")])) /\
    c_L (cursor st') = last_id recv /\
    c_R (cursor st') = head_id (left_over (pc_id p) rest ++ post) /\
    anticursor (cursor st') =
      Some (if (Str.len (String c rest) =? 1)%Z
               && ref_eqb (a_L ac) (Some (pc_id p))
            then anti_set L (last_id recv) ac else ac).
Proof.
  intros Hcur Hopp Htext HaR.
  assert (Hne : ref_eqb (a_R ac) (Some (pc_id p)) = false).
  { destruct (ref_eqb (a_R ac) (Some (pc_id p))) eqn:E; [|reflexivity].
    apply ref_eqb_eq in E. congruence. }
  unfold selectTowards. unfold bind at 1. unfold gets at 1. rewrite Hanti.
  unfold bind at 1.
  rewrite (getPiece_mid st (pc_id p) pre p post Hkids eq_refl Hpre).
  rewrite Htext, (endChar_boundary R c rest). cbn [anti_at opp].
  rewrite Hne.
  unfold bind at 1. unfold bind at 1. unfold bind at 1.
  rewrite (node_at_mid st (pc_id p) pre p post Hkids eq_refl Hpre).
  cbn [neighbour].
  destruct (snoc_case pre) as [E0 | (pre0 & q & E0)].
  - rewrite E0 in *. cbn [last_id]. unfold bind at 1.
    rewrite (createDir_gap st (String c "") L [] (p :: post) Hkids Hopp Hcur Hnd).
    cbn [ret app].
    set (s1 := mkRegion _ _ _ _).
    assert (N1 : node_at L (pc_id p) s1 =
                 Ok (Some (nextId st), s1)).
    { apply (node_at_mid s1 (pc_id p) [mkTextPiece (nextId st) (String c "")]
               p post eq_refl eq_refl).
      simpl. intros [E|[]]. apply Hfresh. simpl. now left. }
    destruct ((Str.len (String c rest) =? 1)%Z
              && ref_eqb (a_L ac) (Some (pc_id p))) eqn:Efix.
    + unfold bind at 1. rewrite N1. unfold modify at 1.
      match goal with |- context [deleteTowards _ _ ?s] =>
        destruct (deleteTowards_after s R [mkTextPiece (nextId st) (String c "")]
                    p post c rest Htext)
          as (st' & E & K & CL & CR & _ & F)
      end.
      * reflexivity.
      * simpl. intros [E|[]]. apply Hfresh. simpl. now left.
      * exists st', [mkTextPiece (nextId st) (String c "")].
        split; [exact E|]. split; [exact K|]. split; [now left|].
        cbn [opp cursor_at cursor cursor_set c_L c_R neighbour s1 set_anticursor
             set_cursor] in CL, CR.
        split; [exact CL|]. split; [rewrite CR; now destruct rest|].
        destruct F as (_ & _ & _ & _ & F5). rewrite F5. reflexivity.
    + unfold ret at 1.
      match goal with |- context [deleteTowards _ _ ?s] =>
        destruct (deleteTowards_after s R [mkTextPiece (nextId st) (String c "")]
                    p post c rest Htext)
          as (st' & E & K & CL & CR & _ & F)
      end.
      * reflexivity.
      * simpl. intros [E|[]]. apply Hfresh. simpl. now left.
      * exists st', [mkTextPiece (nextId st) (String c "")].
        split; [exact E|]. split; [exact K|]. split; [now left|].
        cbn [opp cursor_at cursor cursor_set c_L c_R neighbour s1] in CL, CR.
        split; [exact CL|]. split; [rewrite CR; now destruct rest|].
        destruct F as (_ & _ & _ & _ & F5). rewrite F5.
        cbn [s1 cursor cursor_set anticursor]. exact Hanti.
  - rewrite E0 in *. rewrite last_id_snoc.
    cbn [ident TextPiece_Ident insTextAtDirEnd].
    assert (Hk2 : kids (blk st) = pre0 ++ q :: p :: post)
      by now rewrite Hkids, <- app_assoc.
    assert (Hq : ~ In (pc_id q) (ids pre0)).
    { intros Hin. apply (NoDup_mid_left pre0 q (p :: post)); [|exact Hin].
      now rewrite <- app_assoc in Hnd. }
    rewrite (appendText_mid st (pc_id q) _ pre0 q (p :: post) Hk2 eq_refl Hq).
    set (recv := pre0 ++ [mkTextPiece (pc_id q) (textStr q +++ String c "")]).
    set (s1 := set_kids _ st).
    assert (K1 : kids (blk s1) = recv ++ p :: post).
    { unfold s1, recv. cbn [set_kids blk kids]. now rewrite <- app_assoc. }
    assert (P1 : ~ In (pc_id p) (ids recv)).
    { unfold recv. rewrite ids_snoc. cbn [pc_id]. rewrite <- ids_snoc.
      exact Hpre. }
    assert (N1 : node_at L (pc_id p) s1 = Ok (last_id recv, s1)).
    { apply (node_at_mid s1 (pc_id p) recv p post K1 eq_refl P1). }
    destruct ((Str.len (String c rest) =? 1)%Z
              && ref_eqb (a_L ac) (Some (pc_id p))) eqn:Efix.
    + unfold bind at 1. rewrite N1. unfold modify at 1.
      match goal with |- context [deleteTowards _ _ ?s] =>
        destruct (deleteTowards_after s R recv p post c rest Htext)
          as (st' & E & K & CL & CR & _ & F)
      end.
      * exact K1.
      * exact P1.
      * exists st', recv.
        split; [exact E|]. split; [exact K|].
        split; [right; now exists pre0, q|].
        cbn [opp cursor_at cursor set_kids c_L c_R neighbour s1 set_anticursor
             set_cursor] in CL, CR.
        split; [rewrite CL, Hopp; unfold recv; now rewrite !last_id_snoc|].
        split; [rewrite CR, Hcur; now destruct rest|].
        destruct F as (_ & _ & _ & _ & F5). rewrite F5. reflexivity.
    + unfold ret at 1.
      match goal with |- context [deleteTowards _ _ ?s] =>
        destruct (deleteTowards_after s R recv p post c rest Htext)
          as (st' & E & K & CL & CR & _ & F)
      end.
      * exact K1.
      * exact P1.
      * exists st', recv.
        split; [exact E|]. split; [exact K|].
        split; [right; now exists pre0, q|].
        cbn [opp cursor_at cursor set_kids c_L c_R neighbour s1] in CL, CR.
        split; [rewrite CL, Hopp; unfold recv; now rewrite !last_id_snoc|].
        split; [rewrite CR, Hcur; now destruct rest|].
        destruct F as (_ & _ & _ & _ & F5). rewrite F5.
        cbn [s1 set_kids cursor anticursor]. exact Hanti.
Qed.


(** The same leftwards. *)
Lemma selectTowards_far_left :
  c_L (cursor st) = Some (pc_id p) ->
  c_R (cursor st) = head_id post ->
  textStr p = rest +++ String c "" ->
  a_L ac <> Some (pc_id p) ->
  exists st' recv,
    selectTowards (pc_id p) L st = Ok (tt, st') /\
    kids (blk st') = pre ++ left_over (pc_id p) rest ++ recv /\
    ((post = [] /\ recv = [mkTextPiece (nextId st) (String c "")]) \/
     (exists q post0, post = q :: post0 /\
        recv = mkTextPiece (pc_id q) (String c "" +++ textStr q) :: post0)) /\
    c_L (cursor st') = last_id (pre ++ left_over (pc_id p) rest) /\
    c_R (cursor st') = head_id recv /\
    anticursor (cursor st') =
      Some (if (Str.len (rest +++ String c "") =? 1)%Z
               && ref_eqb (a_R ac) (Some (pc_id p))
            then anti_set R (head_id recv) ac else ac).
Proof.
  intros Hcur Hopp Htext HaL.
  assert (Hne : ref_eqb (a_L ac) (Some (pc_id p)) = false).
  { destruct (ref_eqb (a_L ac) (Some (pc_id p))) eqn:E; [|reflexivity].
    apply ref_eqb_eq in E. congruence. }
  unfold selectTowards. unfold bind at 1. unfold gets at 1. rewrite Hanti.
  unfold bind at 1.
  rewrite (getPiece_mid st (pc_id p) pre p post Hkids eq_refl Hpre).
  rewrite Htext, (endChar_boundary L c rest). cbn [anti_at opp].
  rewrite Hne.
  unfold bind at 1. unfold bind at 1. unfold bind at 1.
  rewrite (node_at_mid st (pc_id p) pre p post Hkids eq_refl Hpre).
  cbn [neighbour].
  assert (Hlast : match rest with
                  | EmptyString => last_id pre
                  | _ => Some (pc_id p)
                  end = last_id (pre ++ left_over (pc_id p) rest)).
  { destruct rest; cbn [left_over]; [now rewrite app_nil_r|].
    now rewrite last_id_snoc. }
  assert (Step : forall (s1 : Region) (recv : list TextPiece),
            kids (blk s1) = pre ++ p :: recv ->
            c_L (cursor s1) = Some (pc_id p) ->
            c_R (cursor s1) = head_id recv ->
            anticursor (cursor s1) = Some ac ->
            exists st',
              bind (if (Str.len (rest +++ String c "") =? 1)%Z
                       && ref_eqb (a_R ac) (Some (pc_id p))
                    then bind (node_at R (pc_id p)) (fun thisOpp =>
                           modify (fun s =>
                             set_anticursor (Some (anti_set R thisOpp ac)) s))
                    else ret tt)
                   (fun _ => deleteTowards (pc_id p) L) s1 = Ok (tt, st') /\
              kids (blk st') = pre ++ left_over (pc_id p) rest ++ recv /\
              c_L (cursor st') = last_id (pre ++ left_over (pc_id p) rest) /\
              c_R (cursor st') = head_id recv /\
              anticursor (cursor st') =
                Some (if (Str.len (rest +++ String c "") =? 1)%Z
                         && ref_eqb (a_R ac) (Some (pc_id p))
                      then anti_set R (head_id recv) ac else ac)).
  { intros s1 recv K1 C1 C2 C3.
    assert (N1 : node_at R (pc_id p) s1 = Ok (head_id recv, s1))
      by apply (node_at_mid s1 (pc_id p) pre p recv K1 eq_refl Hpre).
    destruct ((Str.len (rest +++ String c "") =? 1)%Z
              && ref_eqb (a_R ac) (Some (pc_id p))) eqn:Efix.
    - unfold bind at 1. unfold bind at 1. rewrite N1. unfold modify at 1.
      match goal with |- context [deleteTowards _ _ ?s] =>
        destruct (deleteTowards_after s L pre p recv c rest Htext)
          as (st' & E & K & CR & CL & _ & F)
      end.
      + exact K1.
      + exact Hpre.
      + exists st'. split; [exact E|]. split; [exact K|].
        cbn [opp cursor_at cursor c_L c_R neighbour set_anticursor set_cursor]
          in CL, CR.
        split; [rewrite CL, C1; exact Hlast|].
        split; [rewrite CR; exact C2|].
        destruct F as (_ & _ & _ & _ & F5). rewrite F5. reflexivity.
    - unfold bind at 1. unfold ret at 1.
      destruct (deleteTowards_after s1 L pre p recv c rest Htext K1 Hpre)
        as (st' & E & K & CR & CL & _ & F).
      exists st'. split; [exact E|]. split; [exact K|].
      cbn [opp cursor_at cursor c_L c_R neighbour] in CL, CR.
      split; [rewrite CL, C1; exact Hlast|].
      split; [rewrite CR; exact C2|].
      destruct F as (_ & _ & _ & _ & F5). rewrite F5. exact C3. }
  destruct post as [|q post0] eqn:Epost.
  - cbn [head_id]. unfold bind at 1.
    assert (Hk2 : kids (blk st) = (pre ++ [p]) ++ [])
      by now rewrite app_nil_r.
    assert (Hnd2 : NoDup (ids ((pre ++ [p]) ++ [])))
      by now rewrite app_nil_r.
    assert (HL2 : c_L (cursor st) = last_id (pre ++ [p]))
      by now rewrite last_id_snoc.
    rewrite (createDir_gap st (String c "") R (pre ++ [p]) [] Hk2 HL2 Hopp Hnd2).
    cbn [ret].
    match goal with |- context [(if _ then _ else _) ?s] =>
      destruct (Step s [mkTextPiece (nextId st) (String c "")])
        as (st' & E & K & CL & CR & A)
    end.
    + cbn [blk kids]. now rewrite <- app_assoc.
    + cbn [cursor cursor_set c_L]. exact Hcur.
    + reflexivity.
    + cbn [cursor cursor_set anticursor]. exact Hanti.
    + exists st', [mkTextPiece (nextId st) (String c "")].
      split; [exact E|]. split; [exact K|]. split; [now left|].
      split; [exact CL|]. split; [exact CR | exact A].
  - cbn [head_id ident TextPiece_Ident insTextAtDirEnd].
    assert (Hk2 : kids (blk st) = (pre ++ [p]) ++ q :: post0)
      by now rewrite <- app_assoc.
    assert (Hq : ~ In (pc_id q) (ids (pre ++ [p]))).
    { intros Hin. apply (NoDup_mid_left (pre ++ [p]) q post0); [|exact Hin].
      now rewrite <- app_assoc. }
    rewrite (prependText_mid st (pc_id q) _ (pre ++ [p]) q post0 Hk2 eq_refl Hq).
    match goal with |- context [(if _ then _ else _) ?s] =>
      destruct (Step s (mkTextPiece (pc_id q) (String c "" +++ textStr q) :: post0))
        as (st' & E & K & CL & CR & A)
    end.
    + cbn [set_kids blk kids]. now rewrite <- app_assoc.
    + exact Hcur.
    + cbn [set_kids cursor head_id ident TextPiece_Ident pc_id]. exact Hopp.
    + exact Hanti.
    + exists st', (mkTextPiece (pc_id q) (String c "" +++ textStr q) :: post0).
      split; [exact E|]. split; [exact K|].
      split; [right; now exists q, post0|].
      split; [exact CL|]. split; [exact CR | exact A].
Qed.

End SelectTowards.

(** A child of a block with distinct ids stands at one place only. *)
Lemma split_unique (a x : list TextPiece) (p p' : TextPiece)
  (post y' : list TextPiece) :
  NoDup (ids (a ++ p :: post)) ->
  a ++ p :: post = x ++ p' :: y' ->
  pc_id p' = pc_id p ->
  x = a /\ p' = p /\ y' = post.
Proof.
  revert x. induction a as [|z a IH]; intros x Hnd E Hid.
  - destruct x as [|z' x'].
    + cbn in E. injection E as <- <-. auto.
    + cbn [app] in E. injection E as <- ->. exfalso.
      destruct (NoDup_mid_not_in [] p (x' ++ p' :: y') Hnd) as (_ & Hn & _).
      apply Hn. rewrite ids_app. apply in_or_app. right. left. exact Hid.
  - destruct x as [|z' x'].
    + cbn [app] in E. injection E as <- E'. exfalso.
      destruct (NoDup_mid_not_in [] z (a ++ p :: post) Hnd) as (_ & Hn & _).
      apply Hn. rewrite ids_app. apply in_or_app. right. left.
      symmetry. exact Hid.
    + cbn [app] in E. injection E as <- E'.
      destruct (NoDup_mid_not_in [] z (a ++ p :: post) Hnd) as (_ & _ & Hnd').
      destruct (IH x' Hnd' E' Hid) as (-> & -> & ->). auto.
Qed.

Lemma last_or_none (l : list TextPiece) : last_or None l = last_id l.
Proof. now destruct l. Qed.

(** A point of a block at a character offset is a gap between children. *)
Lemma offset_of_inv (lw rw : NodeRef) (k : list TextPiece) (pos : Z) :
  offset_of lw rw k = Some pos ->
  exists a b, k = a ++ b /\ lw = last_id a /\ rw = head_id b /\
              pos = Str.len (text_of a).
Proof.
  unfold offset_of, gapAt.
  destruct (gap_from None lw rw k) as [[a b]|] eqn:G; [|discriminate].
  intros [= <-]. apply gap_from_sound in G. destruct G as (-> & -> & ->).
  exists a, b. now rewrite last_or_none.
Qed.

Lemma not_last_of (l : list TextPiece) (n : nat) :
  ~ In n (ids l) -> ref_eqb (last_id l) (Some n) = false.
Proof.
  intros Hn. destruct (ref_eqb (last_id l) (Some n)) eqn:E; [|reflexivity].
  apply ref_eqb_eq in E. apply last_id_in in E. contradiction.
Qed.

Lemma len_one (c : ascii) (rest : string) :
  (Str.len (String c rest) =? 1)%Z = match rest with "" => true | _ => false end.
Proof.
  unfold Str.len. destruct rest; [reflexivity|]. cbn [String.length].
  apply Z.eqb_neq. lia.
Qed.

Lemma len_cons (c : ascii) (rest : string) :
  Str.len (String c rest) = (1 + Str.len rest)%Z.
Proof. unfold Str.len. cbn [String.length]. lia. Qed.

Lemma selectTowards_gaps_right (st : Region) (a : list TextPiece)
  (p : TextPiece) (post x y : list TextPiece) (ac : Anticursor) :
  tree_ok st ->
  kids (blk st) = a ++ p :: post ->
  c_L (cursor st) = last_id a ->
  c_R (cursor st) = Some (pc_id p) ->
  anticursor (cursor st) = Some ac ->
  kids (blk st) = x ++ y ->
  a_L ac = last_id x ->
  a_R ac = head_id y ->
  exists st' ac' a' b' x' y',
    selectTowards (pc_id p) R st = Ok (tt, st') /\
    anticursor (cursor st') = Some ac' /\
    a_parent ac' = a_parent ac /\
    kids (blk st') = a' ++ b' /\
    c_L (cursor st') = last_id a' /\
    c_R (cursor st') = head_id b' /\
    kids (blk st') = x' ++ y' /\
    a_L ac' = last_id x' /\
    a_R ac' = head_id y' /\
    text_of (a' ++ b') = text_of (a ++ p :: post) /\
    Str.len (text_of a') = (Str.len (text_of a) + 1)%Z /\
    Str.len (text_of x') = Str.len (text_of x).
Proof.
  intros Hok Hk HcL HcR Hanti Hk' HaL HaR.
  pose proof Hok as (Hnd & _ & Hne).
  pose proof (tree_ok_fresh st Hok) as Hfresh.
  rewrite Hk in Hnd, Hfresh, Hne.
  pose proof (NoDup_mid_not_in a p post Hnd) as (Hpa & Hpp & _).
  cbn [ident TextPiece_Ident] in Hpa, Hpp.
  assert (Hp : textStr p <> "").
  { rewrite Forall_forall in Hne. apply Hne. apply in_or_app. right. now left. }
  destruct (textStr p) as [|c rest] eqn:Et; [congruence|].
  rewrite Hk in Hk'.
  destruct (ref_eqb (a_R ac) (Some (pc_id p))) eqn:Enear.
  - (* the anticursor is at the cursor *)
    apply ref_eqb_eq in Enear.
    destruct y as [|p' y']; [rewrite HaR in Enear; discriminate|].
    rewrite HaR in Enear. cbn [head_id ident TextPiece_Ident] in Enear.
    injection Enear as Eid.
    destruct (split_unique a x p p' post y' Hnd Hk' Eid) as (-> & -> & ->).
    destruct (selectTowards_near_right st a p post c rest ac Hk Hnd Hfresh Hanti
                HcR HcL Et) as (st' & Run & K & CL & CR & A).
    { rewrite HaR. reflexivity. }
    exists st', (anti_set R (Some (nextId st)) ac),
      (a ++ [mkTextPiece (nextId st) (String c "")]),
      (left_over (pc_id p) rest ++ post),
      a, (mkTextPiece (nextId st) (String c "") :: left_over (pc_id p) rest ++ post).
    split; [exact Run|]. split; [exact A|]. split; [reflexivity|].
    split; [now rewrite K, <- app_assoc|].
    split; [now rewrite CL, last_id_snoc|]. split; [exact CR|].
    split; [exact K|]. split; [exact HaL|]. split; [reflexivity|].
    split.
    { rewrite !text_of_app, text_of_one, text_of_left_over, text_of_cons, Et.
      cbn [textStr]. now rewrite !StrFacts.append_assoc. }
    split; [|reflexivity].
    rewrite text_of_app, text_of_one, len_append. cbn [textStr].
    unfold Str.len. simpl. lia.
  - (* the anticursor is elsewhere *)
    assert (HaR' : a_R ac <> Some (pc_id p)).
    { intros E. rewrite E, ref_eqb_refl in Enear. discriminate. }
    destruct (selectTowards_far_right st a p post c rest ac Hk Hnd Hfresh Hanti
                HcR HcL Et HaR') as (st' & recv & Run & K & Hrecv & CL & CR & A).
    assert (L3 : text_of recv = text_of a +++ String c "").
    { destruct Hrecv as [[-> ->] | (pre0 & q & -> & ->)]; [reflexivity|].
      rewrite !text_of_app, !text_of_one. cbn [textStr].
      now rewrite StrFacts.append_assoc. }
    assert (L4 : Str.len (text_of recv) = (Str.len (text_of a) + 1)%Z).
    { rewrite L3, len_append. unfold Str.len. simpl. lia. }
    assert (T : text_of (recv ++ left_over (pc_id p) rest ++ post) =
                text_of (a ++ p :: post)).
    { rewrite !text_of_app, text_of_left_over, L3, text_of_cons, Et.
      now rewrite !StrFacts.append_assoc. }
    rewrite len_one in A.
    destruct (app_eq_app _ _ _ _ Hk') as (l & [[Ea Ey] | [Ex Eb]]).
    + (* left of the cursor *)
      destruct (snoc_case l) as [-> | (l0 & q2 & ->)].
      { exfalso. apply HaR'. rewrite HaR, Ey. reflexivity. }
      assert (Hx : ~ In (pc_id p) (ids x)).
      { intros Hin. apply Hpa. rewrite Ea, ids_app. apply in_or_app. now left. }
      rewrite HaL, (not_last_of x (pc_id p) Hx), andb_false_r in A.
      destruct Hrecv as [[E0 _] | (pre0 & q & E0 & ->)].
      { exfalso. rewrite E0 in Ea. symmetry in Ea. apply app_eq_nil in Ea.
        destruct Ea as [_ Ea]. now apply app_eq_nil in Ea. }
      rewrite Ea, app_assoc in E0. apply app_inj_tail in E0.
      destruct E0 as [<- <-].
      exists st', ac,
        ((x ++ l0) ++ [mkTextPiece (pc_id q2) (textStr q2 +++ String c "")]),
        (left_over (pc_id p) rest ++ post),
        x, (l0 ++ mkTextPiece (pc_id q2) (textStr q2 +++ String c "")
               :: left_over (pc_id p) rest ++ post).
      split; [exact Run|]. split; [exact A|]. split; [reflexivity|].
      split; [exact K|]. split; [exact CL|]. split; [exact CR|].
      split; [now rewrite K, <- !app_assoc|].
      split; [exact HaL|].
      split; [rewrite HaR, Ey; now destruct l0|].
      split; [exact T|]. split; [exact L4 | reflexivity].
    + (* right of the cursor *)
      destruct l as [|p2 l'].
      { exfalso. apply HaR'. rewrite HaR. cbn [app] in Eb. now rewrite <- Eb. }
      cbn [app] in Eb. injection Eb as <- Epost.
      destruct l' as [|z l'].
      * (* right after [p] *)
        cbn [app] in Epost. subst post.
        rewrite Ex, last_id_snoc in HaL. cbn [ident TextPiece_Ident] in HaL.
        rewrite HaL, ref_eqb_refl, andb_true_r in A.
        destruct rest as [|c' r'].
        -- exists st', (anti_set L (last_id recv) ac), recv, y, recv, y.
           cbn [left_over app] in K, CR, T.
           split; [exact Run|]. split; [exact A|]. split; [reflexivity|].
           split; [exact K|]. split; [exact CL|]. split; [exact CR|].
           split; [exact K|]. split; [reflexivity|]. split; [exact HaR|].
           split; [exact T|]. split; [exact L4|].
           rewrite L4, Ex, text_of_app, text_of_one, Et, len_append.
           unfold Str.len. simpl. lia.
        -- exists st', ac, recv, (left_over (pc_id p) (String c' r') ++ y),
             (recv ++ left_over (pc_id p) (String c' r')), y.
           split; [exact Run|]. split; [exact A|]. split; [reflexivity|].
           split; [exact K|]. split; [exact CL|]. split; [exact CR|].
           split; [now rewrite K, app_assoc|].
           split; [cbn [left_over]; now rewrite HaL, last_id_snoc|].
           split; [exact HaR|].
           split; [exact T|]. split; [exact L4|].
           rewrite Ex, !text_of_app, text_of_left_over, text_of_one, Et,
             !len_append, L4, !len_cons. lia.
      * (* further right *)
        subst post.
        assert (Hl : ~ In (pc_id p) (ids (z :: l'))).
        { intros Hin. apply Hpp. rewrite ids_app. apply in_or_app. now left. }
        assert (Hlast : last_id x = last_id (z :: l')).
        { rewrite Ex. change (p :: z :: l') with ([p] ++ z :: l').
          rewrite app_assoc. apply last_id_mid. }
        rewrite HaL, Hlast, (not_last_of _ _ Hl), andb_false_r in A.
        exists st', ac, recv, (left_over (pc_id p) rest ++ (z :: l') ++ y),
          (recv ++ left_over (pc_id p) rest ++ z :: l'), y.
        split; [exact Run|]. split; [exact A|]. split; [reflexivity|].
        split; [exact K|]. split; [exact CL|]. split; [exact CR|].
        split; [now rewrite K, <- !app_assoc|].
        split.
        { rewrite HaL, Hlast, !app_assoc. symmetry. apply last_id_mid. }
        split; [exact HaR|].
        split; [exact T|]. split; [exact L4|].
        rewrite Ex. change (p :: z :: l') with ([p] ++ z :: l').
        rewrite !text_of_app, text_of_left_over, text_of_one, Et,
          !len_append, L4, !len_cons. lia.
Qed.

Lemma not_head_of (l : list TextPiece) (n : nat) :
  ~ In n (ids l) -> ref_eqb (head_id l) (Some n) = false.
Proof.
  intros Hn. destruct (ref_eqb (head_id l) (Some n)) eqn:E; [|reflexivity].
  apply ref_eqb_eq in E. destruct l as [|z l]; [discriminate|].
  injection E as E. exfalso. apply Hn. now left.
Qed.

Lemma len_snoc (rest : string) (c : ascii) :
  Str.len (rest +++ String c "") = (Str.len rest + 1)%Z.
Proof. rewrite len_append. unfold Str.len. simpl. lia. Qed.

Lemma len_one_snoc (rest : string) (c : ascii) :
  (Str.len (rest +++ String c "") =? 1)%Z =
  match rest with "" => true | _ => false end.
Proof.
  rewrite len_snoc. destruct rest; [reflexivity|]. rewrite len_cons.
  apply Z.eqb_neq. unfold Str.len. lia.
Qed.

Lemma selectTowards_gaps_left (st : Region) (pre : list TextPiece)
  (p : TextPiece) (b x y : list TextPiece) (ac : Anticursor) :
  tree_ok st ->
  kids (blk st) = pre ++ p :: b ->
  c_L (cursor st) = Some (pc_id p) ->
  c_R (cursor st) = head_id b ->
  anticursor (cursor st) = Some ac ->
  kids (blk st) = x ++ y ->
  a_L ac = last_id x ->
  a_R ac = head_id y ->
  exists st' ac' a' b' x' y',
    selectTowards (pc_id p) L st = Ok (tt, st') /\
    anticursor (cursor st') = Some ac' /\
    a_parent ac' = a_parent ac /\
    kids (blk st') = a' ++ b' /\
    c_L (cursor st') = last_id a' /\
    c_R (cursor st') = head_id b' /\
    kids (blk st') = x' ++ y' /\
    a_L ac' = last_id x' /\
    a_R ac' = head_id y' /\
    text_of (a' ++ b') = text_of (pre ++ p :: b) /\
    Str.len (text_of a') = (Str.len (text_of (pre ++ [p])) + -1)%Z /\
    Str.len (text_of x') = Str.len (text_of x).
Proof.
  intros Hok Hk HcL HcR Hanti Hk' HaL HaR.
  pose proof Hok as (Hnd & _ & Hne).
  pose proof (tree_ok_fresh st Hok) as Hfresh.
  rewrite Hk in Hnd, Hfresh, Hne.
  pose proof (NoDup_mid_not_in pre p b Hnd) as (Hpa & Hpp & _).
  cbn [ident TextPiece_Ident] in Hpa, Hpp.
  assert (Hp : textStr p <> "").
  { rewrite Forall_forall in Hne. apply Hne. apply in_or_app. right. now left. }
  destruct (StrFacts.last_char (textStr p) Hp) as (rest & c & Et).
  rewrite Hk in Hk'.
  assert (La : Str.len (text_of (pre ++ left_over (pc_id p) rest)) =
               (Str.len (text_of (pre ++ [p])) + -1)%Z).
  { rewrite !text_of_app, text_of_left_over, text_of_one, Et, !len_append.
    unfold Str.len. simpl. lia. }
  destruct (ref_eqb (a_L ac) (Some (pc_id p))) eqn:Enear.
  - (* the anticursor is at the cursor *)
    apply ref_eqb_eq in Enear. rewrite HaL in Enear.
    destruct (snoc_case x) as [-> | (x0 & p' & ->)]; [discriminate|].
    rewrite last_id_snoc in Enear. cbn [ident TextPiece_Ident] in Enear.
    injection Enear as Eid.
    rewrite <- app_assoc in Hk'. cbn [app] in Hk'.
    destruct (split_unique pre x0 p p' b y Hnd Hk' Eid) as (-> & -> & ->).
    destruct (selectTowards_near_left st pre p b c rest ac Hk Hnd Hfresh Hanti
                HcL HcR Et) as (st' & Run & K & CL & CR & A).
    { rewrite HaL, last_id_snoc. reflexivity. }
    exists st', (anti_set L (Some (nextId st)) ac),
      (pre ++ left_over (pc_id p) rest),
      (mkTextPiece (nextId st) (String c "") :: b),
      ((pre ++ left_over (pc_id p) rest) ++ [mkTextPiece (nextId st) (String c "")]),
      b.
    split; [exact Run|]. split; [exact A|]. split; [reflexivity|].
    split; [now rewrite K, <- app_assoc|].
    split; [exact CL|]. split; [exact CR|].
    split; [now rewrite K, <- !app_assoc|].
    split; [cbn [anti_set a_L]; now rewrite last_id_snoc|].
    split; [exact HaR|].
    split.
    { rewrite !text_of_app, text_of_left_over, !text_of_cons, Et.
      cbn [textStr]. now rewrite !StrFacts.append_assoc. }
    split; [exact La|].
    rewrite (text_of_app _ [_]), text_of_one, len_append, La. cbn [textStr].
    unfold Str.len. simpl. lia.
  - (* the anticursor is elsewhere *)
    assert (HaL' : a_L ac <> Some (pc_id p)).
    { intros E. rewrite E, ref_eqb_refl in Enear. discriminate. }
    destruct (selectTowards_far_left st pre p b c rest ac Hk Hnd Hfresh Hanti
                HcL HcR Et HaL') as (st' & recv & Run & K & Hrecv & CL & CR & A).
    assert (L3 : text_of recv = String c (text_of b)).
    { destruct Hrecv as [[-> ->] | (q & post0 & -> & ->)]; [reflexivity|].
      now rewrite !text_of_cons. }
    assert (T : text_of ((pre ++ left_over (pc_id p) rest) ++ recv) =
                text_of (pre ++ p :: b)).
    { rewrite !text_of_app, text_of_left_over, L3, text_of_cons, Et.
      now rewrite !StrFacts.append_assoc. }
    rewrite len_one_snoc in A.
    assert (Here : x = pre -> y = p :: b ->
      exists st' ac' a' b' x' y',
        selectTowards (pc_id p) L st = Ok (tt, st') /\
        anticursor (cursor st') = Some ac' /\
        a_parent ac' = a_parent ac /\
        kids (blk st') = a' ++ b' /\
        c_L (cursor st') = last_id a' /\
        c_R (cursor st') = head_id b' /\
        kids (blk st') = x' ++ y' /\
        a_L ac' = last_id x' /\
        a_R ac' = head_id y' /\
        text_of (a' ++ b') = text_of (pre ++ p :: b) /\
        Str.len (text_of a') = (Str.len (text_of (pre ++ [p])) + -1)%Z /\
        Str.len (text_of x') = Str.len (text_of x)).
    { intros -> ->. cbn [head_id ident TextPiece_Ident] in HaR.
      rewrite HaR, ref_eqb_refl in A.
      destruct rest as [|c' r'].
      - exists st', (anti_set R (head_id recv) ac), pre, recv, pre, recv.
        cbn [left_over app] in K, CL, T. rewrite app_nil_r in CL, T.
        split; [exact Run|]. split; [exact A|]. split; [reflexivity|].
        split; [exact K|]. split; [exact CL|]. split; [exact CR|].
        split; [exact K|]. split; [exact HaL|]. split; [reflexivity|].
        split; [exact T|]. split; [|reflexivity].
        cbn [left_over] in La. now rewrite app_nil_r in La.
      - exists st', ac, (pre ++ left_over (pc_id p) (String c' r')), recv,
          pre, (left_over (pc_id p) (String c' r') ++ recv).
        split; [exact Run|]. split; [exact A|]. split; [reflexivity|].
        split; [now rewrite K, app_assoc|]. split; [exact CL|].
        split; [exact CR|].
        split; [exact K|]. split; [exact HaL|]. split; [exact HaR|].
        split; [exact T|]. split; [exact La | reflexivity]. }
    destruct (app_eq_app _ _ _ _ Hk') as (l & [[Ea Ey] | [Ex Eb]]).
    + (* left of the cursor's piece *)
      destruct l as [|z l'].
      { apply Here; [now rewrite Ea, app_nil_r | exact Ey]. }
      assert (Hy : ref_eqb (a_R ac) (Some (pc_id p)) = false).
      { rewrite HaR, Ey. cbn [app head_id ident TextPiece_Ident].
        destruct (ref_eqb (Some (pc_id z)) (Some (pc_id p))) eqn:E; [|reflexivity].
        apply ref_eqb_eq in E. injection E as E. exfalso. apply Hpa.
        rewrite Ea, ids_app. apply in_or_app. right. left. exact E. }
      rewrite Hy, andb_false_r in A.
      exists st', ac, (pre ++ left_over (pc_id p) rest), recv,
        x, ((z :: l') ++ left_over (pc_id p) rest ++ recv).
      split; [exact Run|]. split; [exact A|]. split; [reflexivity|].
      split; [now rewrite K, app_assoc|]. split; [exact CL|].
      split; [exact CR|].
      split; [now rewrite K, Ea, <- !app_assoc|].
      split; [exact HaL|].
      split; [now rewrite HaR, Ey|].
      split; [exact T|]. split; [exact La | reflexivity].
    + (* right of it *)
      destruct l as [|p2 l'].
      { apply Here; [now rewrite Ex, app_nil_r | now rewrite Eb]. }
      cbn [app] in Eb. injection Eb as <- Eb.
      destruct l' as [|q l''].
      { exfalso. apply HaL'. now rewrite HaL, Ex, last_id_snoc. }
      subst b.
      destruct Hrecv as [[E0 _] | (q0 & post0 & E0 & ->)]; [discriminate|].
      cbn [app] in E0. injection E0 as <- <-.
      assert (Hy : ref_eqb (a_R ac) (Some (pc_id p)) = false).
      { rewrite HaR. apply not_head_of. intros Hin. apply Hpp.
        rewrite ids_app. apply in_or_app. now right. }
      rewrite Hy, andb_false_r in A.
      exists st', ac, (pre ++ left_over (pc_id p) rest),
        (mkTextPiece (pc_id q) (String c "" +++ textStr q) :: l'' ++ y),
        ((pre ++ left_over (pc_id p) rest)
           ++ mkTextPiece (pc_id q) (String c "" +++ textStr q) :: l''), y.
      split; [exact Run|]. split; [exact A|]. split; [reflexivity|].
      split; [now rewrite K, app_assoc|]. split; [exact CL|].
      split; [exact CR|].
      split; [rewrite K, <- !app_assoc; reflexivity|].
      split.
      { rewrite HaL, Ex. change (p :: q :: l'') with ([p] ++ q :: l'').
        rewrite app_assoc, !last_id_mid. now destruct l''. }
      split; [exact HaR|].
      split; [exact T|]. split; [exact La|].
      rewrite Ex. change (p :: q :: l'') with ([p] ++ q :: l'').
      rewrite !text_of_app, text_of_left_over, !text_of_cons, text_of_nil, Et.
      cbn [textStr]. rewrite !len_append, !len_cons.
      change (Str.len "") with 0%Z. lia.
Qed.

(** X3.  [TextPiece.selectTowards(dir)] on the piece [cursor[dir]] of a
    well-formed block, the cursor standing at the character offset [pos].
    Without an anticursor nothing happens.  With an anticursor that is a
    point of the block at the offset [apos], wherever it is: the call
    returns; the cursor is at [pos + dir], one character further; the
    anticursor is again a point of the block, at the same offset [apos],
    also when the piece it pointed to is cut or removed; the text and the
    well-formedness of the block are kept. *)
Theorem selectTowards_keeps_offsets (st : Region) (dir : Direction) (n : nat)
  (pos : Z) :
  tree_ok st ->
  offset_of (c_L (cursor st)) (c_R (cursor st)) (kids (blk st)) = Some pos ->
  cursor_at dir (cursor st) = Some n ->
  (anticursor (cursor st) = None -> selectTowards n dir st = Ok (tt, st)) /\
  (forall (ac : Anticursor) (apos : Z),
     anticursor (cursor st) = Some ac ->
     offset_of (a_L ac) (a_R ac) (kids (blk st)) = Some apos ->
     exists (st' : Region) (ac' : Anticursor),
       selectTowards n dir st = Ok (tt, st') /\
       tree_ok st' /\
       textContents (blk st') = textContents (blk st) /\
       offset_of (c_L (cursor st')) (c_R (cursor st')) (kids (blk st')) =
         Some (pos + dir_num dir)%Z /\
       anticursor (cursor st') = Some ac' /\
       a_parent ac' = a_parent ac /\
       offset_of (a_L ac') (a_R ac') (kids (blk st')) = Some apos).
Proof.
  intros Hok Hpos Hn. split.
  { intros Hno. unfold selectTowards, bind, gets. now rewrite Hno. }
  intros ac apos Hanti Hapos.
  destruct (offset_of_inv _ _ _ _ Hpos) as (a & b & Hk & HcL & HcR & ->).
  destruct (offset_of_inv _ _ _ _ Hapos) as (x & y & Hk' & HaL & HaR & ->).
  assert (Fin : forall st' ac' a' b' x' y' d,
            selectTowards n dir st = Ok (tt, st') ->
            anticursor (cursor st') = Some ac' ->
            a_parent ac' = a_parent ac ->
            kids (blk st') = a' ++ b' ->
            c_L (cursor st') = last_id a' ->
            c_R (cursor st') = head_id b' ->
            kids (blk st') = x' ++ y' ->
            a_L ac' = last_id x' ->
            a_R ac' = head_id y' ->
            text_of (a' ++ b') = text_of (kids (blk st)) ->
            Str.len (text_of a') = (Str.len (text_of a) + d)%Z ->
            Str.len (text_of x') = Str.len (text_of x) ->
            exists (st' : Region) (ac' : Anticursor),
              selectTowards n dir st = Ok (tt, st') /\
              tree_ok st' /\
              textContents (blk st') = textContents (blk st) /\
              offset_of (c_L (cursor st')) (c_R (cursor st')) (kids (blk st')) =
                Some (Str.len (text_of a) + d)%Z /\
              anticursor (cursor st') = Some ac' /\
              a_parent ac' = a_parent ac /\
              offset_of (a_L ac') (a_R ac') (kids (blk st')) =
                Some (Str.len (text_of x))).
  { intros st' ac' a' b' x' y' d Run A Ap K CL CR K' AL AR T La Lx.
    pose proof (selectTowards_ok st st' n dir Hok Run) as Hok'.
    pose proof Hok' as (Hnd' & _).
    exists st', ac'. split; [exact Run|]. split; [exact Hok'|].
    split; [unfold textContents; now rewrite K, T|].
    split.
    { rewrite CL, CR, K, <- La. apply offset_of_split. now rewrite <- K. }
    split; [exact A|]. split; [exact Ap|].
    rewrite AL, AR, K', <- Lx. apply offset_of_split. now rewrite <- K'. }
  destruct dir; cbn [cursor_at dir_num] in *.
  - rewrite HcL in Hn.
    destruct (snoc_case a) as [-> | (pre & p & ->)]; [discriminate|].
    rewrite last_id_snoc in Hn. injection Hn as <-.
    cbn [ident TextPiece_Ident] in *.
    rewrite <- app_assoc in Hk. cbn [app] in Hk.
    rewrite last_id_snoc in HcL.
    destruct (selectTowards_gaps_left st pre p b x y ac Hok Hk HcL HcR Hanti
                Hk' HaL HaR)
      as (st' & ac' & a' & b' & x' & y' & Run & A & Ap & K & CL & CR & K' & AL
          & AR & T & La & Lx).
    apply (Fin st' ac' a' b' x' y'); try assumption. now rewrite Hk.
  - rewrite HcR in Hn. destruct b as [|p post]; [discriminate|].
    injection Hn as <-. cbn [ident TextPiece_Ident] in *.
    destruct (selectTowards_gaps_right st a p post x y ac Hok Hk HcL HcR Hanti
                Hk' HaL HaR)
      as (st' & ac' & a' & b' & x' & y' & Run & A & Ap & K & CL & CR & K' & AL
          & AR & T & La & Lx).
    apply (Fin st' ac' a' b' x' y'); try assumption. now rewrite Hk.
Qed.

Lemma selectTowards_keeps_offsets_witness :
  let st := mkRegion (mkTextBlock 10 "\text" None
                        [mkTextPiece 1 "ab"; mkTextPiece 2 "c"])
              (mkCursor 10 (Some 1) (Some 2)
                 (Some (mkAnticursor 10 (Some 2) None)))
              [] 20 in
  exists (st' : Region) (ac' : Anticursor),
    selectTowards 2 R st = Ok (tt, st') /\
    tree_ok st' /\
    textContents (blk st') = textContents (blk st) /\
    offset_of (c_L (cursor st')) (c_R (cursor st')) (kids (blk st')) =
      Some (2 + 1)%Z /\
    anticursor (cursor st') = Some ac' /\
    a_parent ac' = 10 /\
    offset_of (a_L ac') (a_R ac') (kids (blk st')) = Some 3%Z.
Proof.
  intros st.
  assert (Hok : tree_ok st).
  { unfold tree_ok, pieces_ok, st. cbn [blk kids nextId].
    split; [|split].
    - repeat constructor; simpl; intuition discriminate.
    - simpl. intros n [<-|[<-|[]]]; lia.
    - repeat constructor; discriminate. }
  exact (proj2 (selectTowards_keeps_offsets st R 2 2%Z Hok eq_refl eq_refl)
           (mkAnticursor 10 (Some 2) None) 3%Z eq_refl eq_refl).
Defined.

(* ================================================================== *)
(** * Further properties: [seek] and the fuse *)
(* ================================================================== *)



(** X6.  A drag that began at the left end of the block (the cached offset
    is [0]): when the hit test of the next [seek] leaves the cursor further
    right, the split that puts the anticursor back is at offset [0] of the
    cursor's left neighbour, and leaves that piece in the tree without
    text. *)
Theorem seek_leaves_empty_piece (approxPosition : Region -> option Z)
  (displacement : Region -> Z) (st : Region) (a : Anticursor) :
  textContents (blk st) <> "" ->
  anticursor (cursor st) = Some a ->
  a_parent a = tb_id (blk st) ->
  anticursorPosition (blk st) = Some 0%Z ->
  exists (st' : Region) (pos : Z),
    seek approxPosition displacement st = Ok (tt, st') /\
    offset_of (c_L (cursor st')) (c_R (cursor st')) (kids (blk st')) = Some pos /\
    textContents (blk st') = textContents (blk st) /\
    ((0 < pos)%Z ->
     exists (l : nat) (others : list TextPiece),
       kids (blk st') = mkTextPiece l "" :: others /\
       anticursor (cursor st') =
         Some (mkAnticursor (tb_id (blk st)) (Some l) (head_id others)) /\
       ~ tree_ok st').
Proof.
  intros Ht Ha Hpa Hc.
  destruct (seek_hit approxPosition displacement st Ht)
    as (hit & lp & rp & Run & Hs).
  destruct (hit_shape_fresh st hit lp rp Hs) as [Hnd Hfresh].
  destruct Hs as (Hk & Hlp & Hrp & Hok & Hpar & HcL & HcR & Htxt & Hid & Hap
                  & Hanti).
  assert (Htext : textContents (blk hit) = textContents (blk st)).
  { unfold textContents at 1. now rewrite Hk. }
  assert (Ha' : anticursor (cursor hit) = Some a) by congruence.
  assert (Hpa' : a_parent a = tb_id (blk hit)) by congruence.
  assert (Hc' : anticursorPosition (blk hit) = Some 0%Z) by congruence.
  assert (Hoff : offset_of (c_L (cursor hit)) (c_R (cursor hit)) (kids (blk hit))
                 = Some (Str.len (text_of lp))).
  { rewrite HcL, HcR, Hk. now apply offset_of_split. }
  exists (match seek_anticursor hit with Ok (_, s) => s | Throw _ => hit end),
         (Str.len (text_of lp)).
  rewrite Run.
  assert (Hpos : (0 <= Str.len (text_of lp))%Z) by (unfold Str.len; lia).
  destruct (Z.eq_dec (Str.len (text_of lp)) 0) as [E0|Hne].
  - (* the cursor is at the left end too *)
    rewrite (seek_anticursor_same hit lp rp Hk Hlp Hnd Hfresh HcL a 0%Z Ha' Hpa' Hc'
               (eq_sym E0)).
    cbn [set_anticursor set_cursor cursor blk c_L c_R].
    split; [reflexivity|]. split; [exact Hoff|]. split; [exact Htext|]. lia.
  - edestruct (seek_anticursor_left hit lp rp) as (l & El & Run');
      try eassumption; [lia|].
    rewrite Run'. subst lp.
    assert (Hslice : Str.slice (textStr l) 0 (Some 0%Z) = "").
    { apply len_zero. apply StrFacts.length_slice_prefix.
      unfold Str.len. lia. }
    assert (Hrest : Str.slice (textStr l) 0 None = textStr l).
    { pose proof (StrFacts.slice_split (textStr l) 0) as Sp.
      now rewrite Hslice in Sp. }
    rewrite Hslice, Hrest.
    cbn [blk kids cursor c_L c_R anticursor].
    split; [reflexivity|].
    split.
    { pose proof (offset_of_split
                    [mkTextPiece (pc_id l) "";
                     mkTextPiece (nextId hit) (textStr l)]
                    rp) as Off.
      cbn [last_id ident TextPiece_Ident pc_id app] in Off.
      rewrite HcR, Off.
      - reflexivity.
      - cbn. apply NoDup_fresh_pair; [exact Hnd | exact Hfresh]. }
    split.
    { unfold textContents at 1. cbn [kids]. rewrite <- Htxt.
      change ([l] ++ rp) with (l :: rp). now rewrite !text_of_cons. }
    intros _.
    exists (pc_id l),
      (mkTextPiece (nextId hit) (textStr l) :: rp).
    split; [reflexivity|]. split.
    + cbn [head_id ident TextPiece_Ident pc_id]. now rewrite Hid.
    + intros (_ & _ & Hall). cbn [blk kids] in Hall.
      inversion Hall as [|x xs Hx _]. now apply Hx.
Qed.

Lemma seek_leaves_empty_piece_witness :
  exists st' others,
    seek (fun _ => Some 3%Z) (fun _ => 0%Z)
      (mkRegion (mkTextBlock 5 "\text" (Some 0%Z) [mkTextPiece 1 "hello"])
         (mkCursor 5 None (Some 1) (Some (mkAnticursor 5 None (Some 1))))
         [] 6) = Ok (tt, st') /\
    kids (blk st') = mkTextPiece 6 "" :: others.
Proof.
  destruct (seek_leaves_empty_piece (fun _ => Some 3%Z) (fun _ => 0%Z)
              (mkRegion (mkTextBlock 5 "\text" (Some 0%Z) [mkTextPiece 1 "hello"])
                 (mkCursor 5 None (Some 1)
                    (Some (mkAnticursor 5 None (Some 1))))
                 [] 6)
              (mkAnticursor 5 None (Some 1)))
    as (st' & pos & Run & Off & _ & H).
  - discriminate.
  - reflexivity.
  - reflexivity.
  - reflexivity.
  - assert (Hp : (0 < pos)%Z).
    { vm_compute in Run. injection Run as <-. vm_compute in Off.
      injection Off as <-. reflexivity. }
    destruct (H Hp) as (l & others & K & _).
    exists st', others. split; [exact Run|].
    rewrite K. vm_compute in Run. injection Run as <-.
    vm_compute in K. now injection K as <- _.
Defined.

(** X7.  [TextBlockFuseChildren] on a well-formed block with text, its
    container mirroring its pieces: the children are replaced by one piece
    that is new, so no id of a former child names a child any more, while
    the cursor keeps the pointers it had.  A second fuse gives the same
    text again, in yet another new piece: the text is a fixed point of the
    fuse, the piece is not. *)
Theorem fuse_twice (st : Region) :
  tree_ok st ->
  textContents (blk st) <> "" ->
  exists (st1 st2 : Region),
    TextBlockFuseChildren (mirror (kids (blk st))) st =
      Ok (Some (nextId st), st1) /\
    kids (blk st1) = [mkTextPiece (nextId st) (textContents (blk st))] /\
    (forall x, In x (ids (kids (blk st))) ->
               find_node x (kids (blk st1)) = None) /\
    cursor st1 = cursor st /\
    TextBlockFuseChildren (mirror (kids (blk st1))) st1 =
      Ok (Some (S (nextId st)), st2) /\
    kids (blk st2) = [mkTextPiece (S (nextId st)) (textContents (blk st))] /\
    cursor st2 = cursor st.
Proof.
  intros Hok Ht.
  assert (Fu : forall s t, t <> "" -> text_of (kids (blk s)) = t ->
            TextBlockFuseChildren (mirror (kids (blk s))) s =
            Ok (Some (nextId s), fused s t)).
  { intros s t Hne E. apply fuse_text. rewrite normalize_mirror, E.
    destruct t; [congruence | reflexivity]. }
  exists (fused st (textContents (blk st))),
         (fused (fused st (textContents (blk st))) (textContents (blk st))).
  split; [now apply Fu|].
  split; [reflexivity|].
  split.
  { intros x Hx. cbn [fused blk kids find_node ident TextPiece_Ident pc_id].
    destruct (Nat.eqb_spec (nextId st) x) as [E|E]; [|reflexivity].
    exfalso. subst x. now apply (tree_ok_fresh st Hok). }
  split; [reflexivity|].
  split; [|split; reflexivity].
  apply (Fu (fused st (textContents (blk st)))); [exact Ht|].
  cbn [fused blk kids]. apply text_of_one.
Qed.

Lemma fuse_twice_witness :
  exists st1 st2,
    TextBlockFuseChildren [DText "ab"; DText "cd"]
      (mkRegion (mkTextBlock 10 "\text" None
                   [mkTextPiece 1 "ab"; mkTextPiece 2 "cd"])
         (mkCursor 10 (Some 1) (Some 2) None) [] 20) = Ok (Some 20, st1) /\
    find_node 1 (kids (blk st1)) = None /\
    TextBlockFuseChildren (mirror (kids (blk st1))) st1 = Ok (Some 21, st2) /\
    kids (blk st2) = [mkTextPiece 21 "abcd"].
Proof.
  destruct (fuse_twice
              (mkRegion (mkTextBlock 10 "\text" None
                           [mkTextPiece 1 "ab"; mkTextPiece 2 "cd"])
                 (mkCursor 10 (Some 1) (Some 2) None) [] 20))
    as (st1 & st2 & F1 & K1 & Hgone & _ & F2 & K2 & _).
  - repeat split.
    + repeat constructor; simpl; intuition discriminate.
    + simpl. intros n [<-|[<-|[]]]; lia.
    + repeat constructor; discriminate.
  - discriminate.
  - exists st1, st2. split; [exact F1|]. split; [|split; [exact F2 | exact K2]].
    apply Hgone. simpl. now left.
Defined.

(* ================================================================== *)
(** * Further properties: writing into a block *)
(* ================================================================== *)

Section InsertText.
Local Open Scope st_scope.
Variables (d : Doc) (this : nat) (pre : list Item) (tb : TextBlock)
  (post : list Item) (text : string).
Hypothesis Hitems : items d = pre ++ ITextBlock tb :: post.
Hypothesis Hthis : tb_id tb = this.
Hypothesis Hpre : ~ In this (ids pre).

(** The text goes into a new piece when the cursor has no left neighbour. *)
Lemma insert_text_new (kr : list TextPiece) :
  kids tb = kr ->
  NoDup (ids kr) ->
  c_L (d_cursor d) = None ->
  c_R (d_cursor d) = head_id kr ->
  zoom this
    (cursorL <- cursorAt L ;;
     match cursorL with
     | None => createDir text L ;;; ret tt
     | Some l => appendText l text
     end) d =
  Ok (tt, mkDoc (root d)
            (pre ++ ITextBlock
                      (mkTextBlock (tb_id tb) (ctrlSeq tb) (anticursorPosition tb)
                         (mkTextPiece (d_nextId d) text :: kr)) :: post)
            (cursor_set L (Some (d_nextId d)) (d_cursor d))
            (d_aria d) (S (d_nextId d))).
Proof.
  intros Hk Hnd HcL HcR.
  pose proof (createDir_gap (mkRegion tb (d_cursor d) (d_aria d) (d_nextId d))
                text L [] kr Hk HcL HcR Hnd) as Cr.
  cbn [blk cursor aria nextId app] in Cr.
  erewrite (zoom_mid d this pre tb post Hitems Hthis Hpre).
  2:{ unfold bind at 1. unfold cursorAt, gets. cbn [cursor cursor_at].
      rewrite HcL. unfold bind. rewrite Cr. reflexivity. }
  reflexivity.
Qed.

(** It is appended to the left neighbour when there is one. *)
Lemma insert_text_append (kl0 : list TextPiece) (p : TextPiece)
  (kr : list TextPiece) :
  kids tb = kl0 ++ p :: kr ->
  ~ In (pc_id p) (ids kl0) ->
  c_L (d_cursor d) = Some (pc_id p) ->
  zoom this
    (cursorL <- cursorAt L ;;
     match cursorL with
     | None => createDir text L ;;; ret tt
     | Some l => appendText l text
     end) d =
  Ok (tt, mkDoc (root d)
            (pre ++ ITextBlock
                      (mkTextBlock (tb_id tb) (ctrlSeq tb) (anticursorPosition tb)
                         (kl0 ++ mkTextPiece (pc_id p) (textStr p +++ text) :: kr))
                 :: post)
            (d_cursor d) (d_aria d) (d_nextId d)).
Proof.
  intros Hk Hp HcL.
  pose proof (appendText_mid (mkRegion tb (d_cursor d) (d_aria d) (d_nextId d))
                (pc_id p) text kl0 p kr Hk eq_refl Hp) as Ap.
  erewrite (zoom_mid d this pre tb post Hitems Hthis Hpre).
  2:{ unfold bind at 1. unfold cursorAt, gets. cbn [cursor cursor_at].
      rewrite HcL. exact Ap. }
  reflexivity.
Qed.

End InsertText.

(** [write(cursor, ch)] for a character other than [$], from its parts. *)
Lemma write_char_parts (deleteSelection : Doc -> Doc) (this : nat)
  (ch : string) (d : Doc) :
  ch <> "$" ->
  TextBlock_write deleteSelection this ch d =
  bind (TextBlock_writeLatex this ch) (fun _ => d_aria_alert ch)
    (deleteSelection d).
Proof.
  intros Hch.
  assert (Hneq : String.eqb ch "$" = false)
    by (apply String.eqb_neq; exact Hch).
  unfold TextBlock_write. unfold bind at 1. unfold modify at 1.
  now rewrite Hneq.
Qed.

(** X8.  [writeLatex(cursor, latex)], the cursor standing in the block
    between the pieces [kl] and [kr]: the text of the block becomes that of
    [kl], then [latex], then that of [kr], and the cursor stands right
    after [latex].  Nothing is announced, and [latex] is not inspected: a
    [$] in it is text like any other.  With no piece left of the cursor
    the text goes into a new piece, whatever it is, the empty string
    included. *)
Theorem writeLatex_inserts (d : Doc) (this : nat) (latex : string)
  (pre : list Item) (tb : TextBlock) (post : list Item)
  (kl kr : list TextPiece) :
  items d = pre ++ ITextBlock tb :: post ->
  tb_id tb = this ->
  ~ In this (ids pre) ->
  kids tb = kl ++ kr ->
  NoDup (ids (kl ++ kr)) ->
  ~ In (d_nextId d) (ids (kl ++ kr)) ->
  c_L (d_cursor d) = last_id kl ->
  c_R (d_cursor d) = head_id kr ->
  exists d' tb',
    TextBlock_writeLatex this latex d = Ok (tt, d') /\
    items d' = pre ++ ITextBlock tb' :: post /\
    tb_id tb' = this /\ ctrlSeq tb' = ctrlSeq tb /\
    textContents tb' = text_of kl +++ latex +++ text_of kr /\
    offset_of (c_L (d_cursor d')) (c_R (d_cursor d')) (kids tb') =
      Some (Str.len (text_of kl) + Str.len latex)%Z /\
    d_aria d' = d_aria d /\
    (kl = [] -> kids tb' = mkTextPiece (d_nextId d) latex :: kr).
Proof.
  intros Hitems Hthis Hpre Hk Hnd Hfresh HcL HcR.
  unfold TextBlock_writeLatex.
  destruct (snoc_case kl) as [E | (kl0 & p & E)]; subst kl.
  - cbn [last_id app] in *.
    rewrite (insert_text_new d this pre tb post latex Hitems Hthis Hpre kr
               Hk Hnd HcL HcR).
    eexists. eexists. split; [reflexivity|].
    cbn [items d_cursor d_aria tb_id ctrlSeq kids].
    split; [reflexivity|]. split; [exact Hthis|]. split; [reflexivity|].
    split.
    { unfold textContents. cbn [kids]. now rewrite text_of_cons, text_of_nil. }
    split.
    { destruct (d_cursor d) as [pa cl cr an]. cbn [cursor_set c_L c_R] in *.
      rewrite HcR.
      pose proof (offset_of_split [mkTextPiece (d_nextId d) latex] kr) as Off.
      cbn [last_id ident TextPiece_Ident pc_id app] in Off.
      cbn [kids]. rewrite Off.
      - now rewrite text_of_one, text_of_nil.
      - cbn. constructor; assumption. }
    split; [reflexivity|]. intros _. reflexivity.
  - rewrite last_id_snoc in HcL. cbn [ident TextPiece_Ident] in HcL.
    assert (Hk2 : kids tb = kl0 ++ p :: kr) by now rewrite Hk, <- app_assoc.
    assert (Hp : ~ In (pc_id p) (ids kl0)).
    { intros Hin. apply (NoDup_mid_left kl0 p kr); [|exact Hin].
      now rewrite <- app_assoc in Hnd. }
    rewrite (insert_text_append d this pre tb post latex Hitems Hthis Hpre
               kl0 p kr Hk2 Hp HcL).
    eexists. eexists. split; [reflexivity|].
    cbn [items d_cursor d_aria tb_id ctrlSeq kids].
    split; [reflexivity|]. split; [exact Hthis|]. split; [reflexivity|].
    split.
    { unfold textContents. cbn [kids].
      rewrite !text_of_app, !text_of_cons, text_of_nil. cbn [textStr].
      now rewrite StrFacts.append_nil_r, !StrFacts.append_assoc. }
    split.
    { rewrite HcL, HcR.
      pose proof (offset_of_split
                    (kl0 ++ [mkTextPiece (pc_id p) (textStr p +++ latex)]) kr)
        as Off.
      rewrite last_id_snoc, <- app_assoc in Off.
      cbn [ident TextPiece_Ident pc_id app] in Off. cbn [kids]. rewrite Off.
      - rewrite !text_of_app, !text_of_one. cbn [textStr].
        now rewrite <- StrFacts.append_assoc, !len_append.
      - rewrite <- app_assoc in Hnd. rewrite ids_app in *. exact Hnd. }
    split; [reflexivity|].
    intros E. now apply app_eq_nil in E.
Qed.

Lemma writeLatex_inserts_witness :
  exists d' tb',
    TextBlock_writeLatex 5 "$x$"
      (mkDoc 0 [ITextBlock (mkTextBlock 5 "\text" None
                              [mkTextPiece 6 "ca"; mkTextPiece 7 "t"])]
         (mkCursor 5 (Some 6) (Some 7) None) [] 20) = Ok (tt, d') /\
    items d' = [ITextBlock tb'] /\
    textContents tb' = "ca$x$t" /\
    d_aria d' = [].
Proof.
  destruct (writeLatex_inserts
              (mkDoc 0 [ITextBlock (mkTextBlock 5 "\text" None
                                      [mkTextPiece 6 "ca"; mkTextPiece 7 "t"])]
                 (mkCursor 5 (Some 6) (Some 7) None) [] 20)
              5 "$x$" [] (mkTextBlock 5 "\text" None
                            [mkTextPiece 6 "ca"; mkTextPiece 7 "t"]) []
              [mkTextPiece 6 "ca"] [mkTextPiece 7 "t"])
    as (d' & tb' & Run & It & _ & _ & Txt & _ & Ar & _).
  - reflexivity.
  - reflexivity.
  - intros [].
  - reflexivity.
  - repeat constructor; simpl; intuition discriminate.
  - simpl; intuition discriminate.
  - reflexivity.
  - reflexivity.
  - exists d', tb'. repeat split; assumption.
Defined.

Lemma TextBlock_eta (tb : TextBlock) :
  mkTextBlock (tb_id tb) (ctrlSeq tb) (anticursorPosition tb) (kids tb) = tb.
Proof. now destruct tb. Qed.

Lemma TextPiece_eta (p : TextPiece) : mkTextPiece (pc_id p) (textStr p) = p.
Proof. now destruct p. Qed.

(** X9.  A character other than [$] written by [write], then deleted by
    [deleteTowards(L)] on the cursor's left neighbour: the pieces of the
    block and the cursor are exactly those before the [write] (after its
    [deleteSelection]), given that no piece left of the cursor was empty.
    Only the log of announcements grows, by the alert of the [write] and
    the deleted character. *)
Theorem write_then_backspace (deleteSelection : Doc -> Doc) (d : Doc)
  (this : nat) (c : ascii)
  (pre : list Item) (tb : TextBlock) (post : list Item)
  (kl kr : list TextPiece) :
  c <> "$"%char ->
  items (deleteSelection d) = pre ++ ITextBlock tb :: post ->
  tb_id tb = this ->
  ~ In this (ids pre) ->
  kids tb = kl ++ kr ->
  NoDup (ids (kl ++ kr)) ->
  Forall (fun p => textStr p <> "") kl ->
  c_L (d_cursor (deleteSelection d)) = last_id kl ->
  c_R (d_cursor (deleteSelection d)) = head_id kr ->
  exists (d' : Doc) (l : nat) (d'' : Doc),
    TextBlock_write deleteSelection this (String c "") d = Ok (tt, d') /\
    c_L (d_cursor d') = Some l /\
    zoom this (deleteTowards l L) d' = Ok (tt, d'') /\
    items d'' = items (deleteSelection d) /\
    d_cursor d'' = d_cursor (deleteSelection d) /\
    d_aria d'' =
      d_aria (deleteSelection d) ++ [Alert (String c ""); Queue (String c "")].
Proof.
  intros Hc Hitems Hthis Hpre Hk Hnd Hne HcL HcR.
  assert (Hch : String c "" <> "$") by (intros [= E]; now apply Hc).
  rewrite (write_char_parts deleteSelection this (String c "") d Hch).
  set (d1 := deleteSelection d) in *.
  unfold TextBlock_writeLatex. unfold bind at 1.
  destruct (snoc_case kl) as [E | (kl0 & p & E)]; subst kl.
  - (* a new piece is made, and removed again *)
    cbn [last_id app] in *.
    rewrite (insert_text_new d1 this pre tb post (String c "") Hitems Hthis Hpre
               kr Hk Hnd HcL HcR).
    unfold d_aria_alert, modify.
    cbn [root items d_cursor d_aria d_nextId].
    eexists. exists (d_nextId d1). eexists.
    split; [reflexivity|].
    split; [cbn [d_cursor]; now destruct (d_cursor d1)|].
    split.
    { match goal with |- zoom _ _ ?dd = _ =>
        erewrite (zoom_mid dd this pre _ post eq_refl Hthis Hpre)
      end; [reflexivity|].
      cbn [d_cursor d_aria d_nextId].
      match goal with |- deleteTowards _ _ ?s = _ =>
        apply (deleteTowards_single s (d_nextId d1) L []
                 (mkTextPiece (d_nextId d1) (String c "")) kr eq_refl eq_refl
                 (fun H => H))
      end.
      simpl. lia. }
    cbn [items d_cursor d_aria with_text blk kids cursor aria tb_id ctrlSeq
         anticursorPosition app neighbour last_id].
    split.
    { rewrite Hitems. f_equal. f_equal. f_equal.
      rewrite <- Hk. apply TextBlock_eta. }
    split.
    { destruct (d_cursor d1) as [pa cl cr an]. cbn in *. now subst. }
    now rewrite <- app_assoc.
  - (* the character is appended, and deleted again *)
    rewrite last_id_snoc in HcL. cbn [ident TextPiece_Ident] in HcL.
    assert (Hk2 : kids tb = kl0 ++ p :: kr) by now rewrite Hk, <- app_assoc.
    assert (Hp : ~ In (pc_id p) (ids kl0)).
    { intros Hin. apply (NoDup_mid_left kl0 p kr); [|exact Hin].
      now rewrite <- app_assoc in Hnd. }
    assert (Hpne : textStr p <> "").
    { rewrite Forall_forall in Hne. apply Hne. apply in_or_app. right. now left. }
    rewrite (insert_text_append d1 this pre tb post (String c "") Hitems Hthis
               Hpre kl0 p kr Hk2 Hp HcL).
    unfold d_aria_alert, modify.
    cbn [root items d_cursor d_aria d_nextId].
    eexists. exists (pc_id p). eexists.
    split; [reflexivity|].
    split; [exact HcL|].
    split.
    { match goal with |- zoom _ _ ?dd = _ =>
        erewrite (zoom_mid dd this pre _ post eq_refl Hthis Hpre)
      end; [reflexivity|].
      cbn [d_cursor d_aria d_nextId].
      match goal with |- deleteTowards _ _ ?s = _ =>
        apply (deleteTowards_long s (pc_id p) L kl0
                 (mkTextPiece (pc_id p) (textStr p +++ String c "")) kr
                 eq_refl eq_refl Hp c (textStr p) eq_refl Hpne)
      end. }
    cbn [items d_cursor d_aria with_text blk kids cursor aria tb_id ctrlSeq
         anticursorPosition].
    split.
    { rewrite Hitems. f_equal. f_equal. f_equal.
      rewrite TextPiece_eta, <- Hk2. apply TextBlock_eta. }
    split; [reflexivity|].
    now rewrite <- app_assoc.
Qed.

Lemma write_then_backspace_witness :
  exists d' l d'',
    TextBlock_write (fun d => d) 5 "d"
      (mkDoc 0 [ITextBlock (mkTextBlock 5 "\text" None
                              [mkTextPiece 6 "ca"; mkTextPiece 7 "t"])]
         (mkCursor 5 (Some 6) (Some 7) None) [] 20) = Ok (tt, d') /\
    c_L (d_cursor d') = Some l /\
    zoom 5 (deleteTowards l L) d' = Ok (tt, d'') /\
    items d'' = [ITextBlock (mkTextBlock 5 "\text" None
                               [mkTextPiece 6 "ca"; mkTextPiece 7 "t"])].
Proof.
  destruct (write_then_backspace (fun d => d)
              (mkDoc 0 [ITextBlock (mkTextBlock 5 "\text" None
                                      [mkTextPiece 6 "ca"; mkTextPiece 7 "t"])]
                 (mkCursor 5 (Some 6) (Some 7) None) [] 20)
              5 "d"%char [] (mkTextBlock 5 "\text" None
                        [mkTextPiece 6 "ca"; mkTextPiece 7 "t"]) []
              [mkTextPiece 6 "ca"] [mkTextPiece 7 "t"])
    as (d' & l & d'' & Run & Hl & Del & It & _).
  - discriminate.
  - reflexivity.
  - reflexivity.
  - intros [].
  - reflexivity.
  - repeat constructor; simpl; intuition discriminate.
  - repeat constructor; discriminate.
  - reflexivity.
  - reflexivity.
  - exists d', l, d''. repeat split; assumption.
Defined.

Lemma find_item_here (d : Doc) (this : nat) (pre : list Item) (tb : TextBlock)
  (post : list Item) :
  items d = pre ++ ITextBlock tb :: post ->
  tb_id tb = this ->
  ~ In this (ids pre) ->
  find_node this (items d) = Some (ITextBlock tb).
Proof. intros H1 H2 H3. now apply (find_item_mid d this pre tb post). Qed.

(** The loop of [createLeftOf] once the block has its piece: every
    character is appended to it and announced. *)
Lemma write_chars_append (deleteSelection : Doc -> Doc) (this : nat)
  (pre post : list Item) (s : string) :
  (forall x, deleteSelection x = x) ->
  ~ In this (ids pre) ->
  no_dollar s = true ->
  forall (d : Doc) (tb : TextBlock) (n : nat) (t : string),
    items d = pre ++ ITextBlock tb :: post ->
    tb_id tb = this ->
    kids tb = [mkTextPiece n t] ->
    c_L (d_cursor d) = Some n ->
    write_chars deleteSelection this s d =
    Ok (tt, mkDoc (root d)
              (pre ++ ITextBlock
                        (mkTextBlock (tb_id tb) (ctrlSeq tb)
                           (anticursorPosition tb) [mkTextPiece n (t +++ s)])
                   :: post)
              (d_cursor d) (d_aria d ++ alerts_of s) (d_nextId d)).
Proof.
  intros Hsel Hpre. induction s as [|c r IH]; intros Hs d tb n t Hit Hthis Hk HcL.
  - cbn [write_chars alerts_of]. unfold ret.
    rewrite StrFacts.append_nil_r, app_nil_r, <- Hk, TextBlock_eta, <- Hit.
    now destruct d.
  - cbn [no_dollar str_forall] in Hs. apply andb_true_iff in Hs.
    destruct Hs as [Hc Hr].
    assert (Hch : String c "" <> "$").
    { intros [= E]. subst c. discriminate. }
    cbn [write_chars]. unfold bind at 1.
    rewrite (write_char_parts deleteSelection this (String c "") d Hch), Hsel.
    unfold TextBlock_writeLatex. unfold bind at 1.
    rewrite (insert_text_append d this pre tb post (String c "") Hit Hthis Hpre
               [] (mkTextPiece n t) [] Hk (fun H => H) HcL).
    unfold d_aria_alert, modify. cbn [root items d_cursor d_aria d_nextId app].
    match goal with |- context [write_chars _ _ _ ?dd] =>
      rewrite (IH Hr dd
                 (mkTextBlock (tb_id tb) (ctrlSeq tb) (anticursorPosition tb)
                    [mkTextPiece n (t +++ String c "")])
                 n (t +++ String c "") eq_refl Hthis eq_refl HcL)
    end.
    cbn [root items d_cursor d_aria d_nextId tb_id ctrlSeq anticursorPosition
         pc_id textStr alerts_of].
    rewrite <- app_assoc, StrFacts.append_assoc. reflexivity.
Qed.

(** X10.  [createLeftOf(cursor)] of a new block without children, the cursor
    standing in a gap of the enclosing block with nothing selected, and
    [replacedText] being [s] without [$]: the block is inserted at the gap
    with [s] as its text, in one piece (none when [s] is empty); the cursor
    is inside the block at its right end; every character of [s] was
    announced once, in order. *)
Theorem createLeftOf_replays (deleteSelection : Doc -> Doc) (d : Doc)
  (tb : TextBlock) (s : string) (pre post : list Item) :
  (forall x, deleteSelection x = x) ->
  items d = pre ++ post ->
  NoDup (ids (pre ++ post)) ->
  ~ In (tb_id tb) (ids (pre ++ post)) ->
  parent (d_cursor d) = root d ->
  c_L (d_cursor d) = last_id pre ->
  c_R (d_cursor d) = head_id post ->
  kids tb = [] ->
  no_dollar s = true ->
  exists (d' : Doc) (tb' : TextBlock),
    TextBlock_createLeftOf deleteSelection tb (Some s) d = Ok (tt, d') /\
    items d' = pre ++ ITextBlock tb' :: post /\
    tb_id tb' = tb_id tb /\ ctrlSeq tb' = ctrlSeq tb /\
    textContents tb' = s /\
    length (kids tb') <= 1 /\
    Forall (fun p => textStr p <> "") (kids tb') /\
    d_cursor d' = mkCursor (tb_id tb) (last_id (kids tb')) None
                    (anticursor (d_cursor d)) /\
    d_aria d' = d_aria d ++ alerts_of s.
Proof.
  intros Hsel Hit Hnd Hfresh Hpar HcL HcR Hk Hs.
  assert (Hpre : ~ In (tb_id tb) (ids pre)).
  { intros Hin. apply Hfresh. rewrite ids_app. apply in_or_app. now left. }
  unfold TextBlock_createLeftOf. unfold bind at 1.
  rewrite (d_createDir_gap d (ITextBlock tb) L pre post Hit Hnd Hpar HcL HcR).
  unfold bind at 1. unfold d_insAtDirEnd. unfold bind at 1.
  unfold getTextBlock at 1.
  match goal with |- context [find_node _ (items ?dd)] =>
    rewrite (find_item_here dd (tb_id tb) pre tb post eq_refl eq_refl Hpre)
  end.
  unfold modify at 1.
  cbn [set_d_cursor root items d_cursor d_aria d_nextId cursor_set opp getEnd
       parent c_L c_R anticursor].
  rewrite Hk. cbn [last_id].
  destruct s as [|c r].
  - cbn [write_chars]. unfold ret. eexists. exists tb.
    split; [reflexivity|]. cbn [items d_cursor d_aria].
    split; [reflexivity|]. split; [reflexivity|]. split; [reflexivity|].
    split; [unfold textContents; now rewrite Hk|].
    rewrite Hk. split; [simpl; lia|]. split; [constructor|].
    split; [reflexivity|]. cbn [alerts_of]. now rewrite app_nil_r.
  - cbn [no_dollar str_forall] in Hs. apply andb_true_iff in Hs.
    destruct Hs as [Hc Hr].
    assert (Hch : String c "" <> "$").
    { intros [= E]. subst c. discriminate. }
    cbn [write_chars]. unfold bind at 1.
    match goal with |- context [TextBlock_write _ _ _ ?dd] =>
      rewrite (write_char_parts deleteSelection (tb_id tb) (String c "") dd Hch),
        Hsel;
      unfold TextBlock_writeLatex; unfold bind at 1;
      rewrite (insert_text_new dd (tb_id tb) pre tb post (String c "") eq_refl
                 eq_refl Hpre [] Hk (NoDup_nil _) eq_refl eq_refl)
    end.
    unfold d_aria_alert, modify.
    cbn [root items d_cursor d_aria d_nextId cursor_set].
    match goal with |- context [write_chars _ _ _ ?dd] =>
      rewrite (write_chars_append deleteSelection (tb_id tb) pre post r Hsel Hpre
                 Hr dd _ (d_nextId d) (String c "") eq_refl eq_refl eq_refl
                 eq_refl)
    end.
    cbn [root items d_cursor d_aria d_nextId tb_id ctrlSeq anticursorPosition].
    eexists. eexists. split; [reflexivity|]. cbn [items d_cursor d_aria].
    split; [reflexivity|]. split; [reflexivity|]. split; [reflexivity|].
    cbn [kids tb_id ctrlSeq].
    split; [unfold textContents; cbn [kids]; now rewrite text_of_one|].
    split; [simpl; lia|].
    split; [repeat constructor; discriminate|].
    split; [reflexivity|].
    cbn [alerts_of]. now rewrite <- app_assoc.
Qed.

Lemma createLeftOf_replays_witness :
  exists d' tb',
    TextBlock_createLeftOf (fun d => d) (mkTextBlock 5 "\textbf" None [])
      (Some "hi")
      (mkDoc 0 [IVanillaSymbol (mkSymbol 1 "a")]
         (mkCursor 0 (Some 1) None None) [] 20) = Ok (tt, d') /\
    items d' = [IVanillaSymbol (mkSymbol 1 "a"); ITextBlock tb'] /\
    textContents tb' = "hi" /\
    d_aria d' = [Alert "h"; Alert "i"].
Proof.
  destruct (createLeftOf_replays (fun d => d)
              (mkDoc 0 [IVanillaSymbol (mkSymbol 1 "a")]
                 (mkCursor 0 (Some 1) None None) [] 20)
              (mkTextBlock 5 "\textbf" None []) "hi"
              [IVanillaSymbol (mkSymbol 1 "a")] [])
    as (d' & tb' & Run & It & _ & _ & Txt & _ & _ & _ & Ar).
  - reflexivity.
  - reflexivity.
  - repeat constructor; simpl; intuition discriminate.
  - simpl; intuition discriminate.
  - reflexivity.
  - reflexivity.
  - reflexivity.
  - reflexivity.
  - reflexivity.
  - exists d', tb'. repeat split; assumption.
Defined.

Section DollarAtEnd.
Variable deleteSelection : Doc -> Doc.
Variables (d : Doc) (this : nat) (pre : list Item) (tb : TextBlock)
  (post : list Item) (leftPc : TextPiece) (rest : list TextPiece).
Hypothesis Hitems : items (deleteSelection d) = pre ++ ITextBlock tb :: post.
Hypothesis Hthis : tb_id tb = this.
Hypothesis Hnd : NoDup (ids (pre ++ ITextBlock tb :: post)).
Hypothesis Hk : kids tb = leftPc :: rest.


End DollarAtEnd.





(* ================================================================== *)
(** * Further properties: leaving a block *)
(* ================================================================== *)

(** X13.  [blur(cursor)]: a block without text (no piece, or empty pieces
    only) is removed from its parent, and a cursor pointer to it goes to
    its neighbour on that side, the left pointer being looked at first; a
    block with text stays, its pieces replaced by one new piece with the
    whole text, the cursor untouched.  Nothing is announced. *)
Theorem blur_removes_or_fuses (d : Doc) (this : nat)
  (pre : list Item) (tb : TextBlock) (post : list Item) :
  items d = pre ++ ITextBlock tb :: post ->
  tb_id tb = this ->
  ~ In this (ids pre) ->
  (textContents tb = "" ->
   TextBlock_blur this d =
   Ok (tt, mkDoc (root d) (pre ++ post)
             (if ref_eqb (c_L (d_cursor d)) (Some this)
              then cursor_set L (last_id pre) (d_cursor d)
              else if ref_eqb (c_R (d_cursor d)) (Some this)
                   then cursor_set R (head_id post) (d_cursor d)
                   else d_cursor d)
             (d_aria d) (d_nextId d))) /\
  (textContents tb <> "" ->
   TextBlock_blur this d =
   Ok (tt, mkDoc (root d)
             (pre ++ ITextBlock
                       (mkTextBlock this (ctrlSeq tb) (anticursorPosition tb)
                          [mkTextPiece (d_nextId d) (textContents tb)])
                  :: post)
             (d_cursor d) (d_aria d) (S (d_nextId d)))).
Proof.
  intros Hit Hthis Hpre. split; intros Ht.
  - exact (blur_empty d this pre tb post Hit Hthis Hpre Ht).
  - unfold TextBlock_blur. unfold bind at 1.
    rewrite (getTextBlock_mid d this pre tb post Hit Hthis Hpre).
    replace (String.eqb (textContents tb) "") with false
      by (symmetry; now apply String.eqb_neq).
    assert (Fu : TextBlockFuseChildren (mirror (kids tb))
                   (mkRegion tb (d_cursor d) (d_aria d) (d_nextId d)) =
                 Ok (Some (d_nextId d),
                     fused (mkRegion tb (d_cursor d) (d_aria d) (d_nextId d))
                       (textContents tb))).
    { apply fuse_text. rewrite normalize_mirror. unfold textContents in *.
      destruct (text_of (kids tb)); [congruence | reflexivity]. }
    unfold bind.
    rewrite (zoom_mid d this pre tb post Hit Hthis Hpre _ _ _ Fu).
    unfold ret. cbn [fused blk cursor aria nextId]. now rewrite Hthis.
Qed.

Lemma blur_removes_or_fuses_witness :
  TextBlock_blur 5
    (mkDoc 0 [ITextBlock (mkTextBlock 5 "\text" None
                            [mkTextPiece 6 "ca"; mkTextPiece 7 "t"])]
       (mkCursor 0 (Some 5) None None) [] 20) =
  Ok (tt, mkDoc 0 [ITextBlock (mkTextBlock 5 "\text" None [mkTextPiece 20 "cat"])]
            (mkCursor 0 (Some 5) None None) [] 21).
Proof.
  apply (proj2 (blur_removes_or_fuses
           (mkDoc 0 [ITextBlock (mkTextBlock 5 "\text" None
                                   [mkTextPiece 6 "ca"; mkTextPiece 7 "t"])]
              (mkCursor 0 (Some 5) None None) [] 20)
           5 [] (mkTextBlock 5 "\text" None
                   [mkTextPiece 6 "ca"; mkTextPiece 7 "t"]) []
           eq_refl eq_refl (fun H => H))).
  discriminate.
Defined.

(** X14.  [deleteOutOf(dir, cursor)], for either direction: on a block that
    has a piece nothing changes, the block is not unwrapped and the cursor
    stays where it is; on a block without pieces the cursor goes out to the
    right of the block, the block still in the tree, and the [blur] that
    follows removes it, the cursor then standing in the gap the block
    leaves. *)
Theorem deleteOutOf_keeps_text (d : Doc) (this : nat)
  (pre : list Item) (tb : TextBlock) (post : list Item) :
  items d = pre ++ ITextBlock tb :: post ->
  tb_id tb = this ->
  NoDup (ids (pre ++ ITextBlock tb :: post)) ->
  (kids tb <> [] -> TextBlock_deleteOutOf this d = Ok (tt, d)) /\
  (kids tb = [] ->
   TextBlock_deleteOutOf this d =
   Ok (tt, set_d_cursor (mkCursor (root d) (Some this) (head_id post)
                           (anticursor (d_cursor d))) d) /\
   bind (TextBlock_deleteOutOf this) (fun _ => TextBlock_blur this) d =
   Ok (tt, mkDoc (root d) (pre ++ post)
             (mkCursor (root d) (last_id pre) (head_id post)
                (anticursor (d_cursor d)))
             (d_aria d) (d_nextId d))).
Proof.
  intros Hit Hthis Hnd.
  pose proof (NoDup_mid_left pre (ITextBlock tb) post Hnd) as Hpre.
  cbn [ident Item_Ident] in Hpre. rewrite Hthis in Hpre.
  assert (Run : kids tb = [] ->
            TextBlock_deleteOutOf this d =
            Ok (tt, set_d_cursor (mkCursor (root d) (Some this) (head_id post)
                                    (anticursor (d_cursor d))) d)).
  { intros Hk. unfold TextBlock_deleteOutOf. unfold bind at 1.
    rewrite (getTextBlock_mid d this pre tb post Hit Hthis Hpre), Hk.
    now rewrite (d_insDirOf_mid d this pre tb post Hit Hthis Hnd R). }
  split.
  - intros Hk. unfold TextBlock_deleteOutOf. unfold bind at 1.
    rewrite (getTextBlock_mid d this pre tb post Hit Hthis Hpre).
    destruct (kids tb); [congruence | reflexivity].
  - intros Hk. split; [now apply Run|].
    unfold bind. rewrite (Run Hk).
    match goal with |- TextBlock_blur _ ?dd = _ =>
      rewrite (blur_empty dd this pre tb post Hit Hthis Hpre
                 (textContents_empty tb Hk))
    end.
    cbn [set_d_cursor root items d_cursor d_aria d_nextId c_L c_R ref_eqb
         cursor_set].
    now rewrite Nat.eqb_refl.
Qed.

Lemma deleteOutOf_keeps_text_witness :
  TextBlock_deleteOutOf 5
    (mkDoc 0 [ITextBlock (mkTextBlock 5 "\text" None [mkTextPiece 6 "cat"])]
       (mkCursor 5 (Some 6) None None) [] 20) =
  Ok (tt, mkDoc 0 [ITextBlock (mkTextBlock 5 "\text" None [mkTextPiece 6 "cat"])]
            (mkCursor 5 (Some 6) None None) [] 20).
Proof.
  apply (proj1 (deleteOutOf_keeps_text
           (mkDoc 0 [ITextBlock (mkTextBlock 5 "\text" None [mkTextPiece 6 "cat"])]
              (mkCursor 5 (Some 6) None None) [] 20)
           5 [] (mkTextBlock 5 "\text" None [mkTextPiece 6 "cat"]) []
           eq_refl eq_refl
           ltac:(repeat constructor; simpl; intuition discriminate))).
  discriminate.
Defined.

(* ================================================================== *)
(** * Further properties: [parser] after [latex] *)
(* ================================================================== *)

Lemma span_while_all (f : ascii -> bool) (s : string) :
  str_forall f s = true -> span_while f s = (s, "").
Proof.
  induction s as [|x s IH]; [reflexivity|].
  cbn. intros H. apply andb_true_iff in H. destruct H as [Hx Hs].
  now rewrite Hx, (IH Hs).
Qed.

Lemma span_while_space_stop (ws : string) (c : ascii) (rest : string) :
  str_forall is_space ws = true -> is_space c = false ->
  span_while is_space (ws +++ String c rest) = (ws, String c rest).
Proof. apply span_while_stop. Qed.

(** The literal of the parser: optional whitespace, [{], the characters
    up to the first [}], and that [}]. *)
Lemma parser_literal (ws s rest : string) :
  str_forall is_space ws = true ->
  no_close s = true ->
  p_skip
    (p_then (p_then optWhitespace (p_string "{"))
       (p_regex_class (fun c => negb (Ascii.eqb c "}"))))
    (p_string "}") (ws +++ "{" +++ s +++ "}" +++ rest) = Some (s, rest).
Proof.
  intros Hws Hs.
  unfold p_skip, p_then, optWhitespace, p_regex_class, p_string.
  change (ws +++ "{" +++ s +++ "}" +++ rest)
    with (ws +++ String "{" (s +++ String "}" rest)).
  rewrite (span_while_stop is_space ws "{" _ Hws is_space_open).
  cbn [strip_prefix]. rewrite Ascii.eqb_refl.
  rewrite (span_while_stop _ s "}" rest Hs eq_refl).
  cbn [strip_prefix]. now rewrite Ascii.eqb_refl.
Qed.

(** What the parser makes of [{s}] with [s] free of [}], read into a block
    without children. *)
Lemma parser_block (tb : TextBlock) (n : nat) (ws s rest : string) :
  str_forall is_space ws = true ->
  no_close s = true ->
  s <> "" ->
  kids tb = [] ->
  TextBlock_parser tb n (ws +++ "{" +++ s +++ "}" +++ rest) =
  Some (Ok (ParsedBlock
              (mkTextBlock (tb_id tb) (ctrlSeq tb) (anticursorPosition tb)
                 [mkTextPiece n s])), rest).
Proof.
  intros Hws Hs Hne Hk.
  assert (Hlen : (Str.len s =? 0)%Z = false).
  { apply Z.eqb_neq. intros E. apply len_zero in E. congruence. }
  unfold TextBlock_parser, p_map. rewrite (parser_literal ws s rest Hws Hs).
  now rewrite Hlen, Hk.
Qed.

(** X15.  [parser()] on an input that begins, after optional whitespace,
    with [{s}], where [s] has no [}]: the literal is read up to the first
    [}] and the rest of the input is left.  An empty [s] gives an empty
    fragment and no block; otherwise the block, which had no children, gets
    one piece holding [s] as it stands, nothing unescaped. *)
Theorem parser_reads_to_first_close (tb : TextBlock) (n : nat)
  (ws s rest : string) :
  str_forall is_space ws = true ->
  no_close s = true ->
  (s = "" ->
   TextBlock_parser tb n (ws +++ "{" +++ s +++ "}" +++ rest) =
   Some (Ok EmptyFragment, rest)) /\
  (s <> "" -> kids tb = [] ->
   TextBlock_parser tb n (ws +++ "{" +++ s +++ "}" +++ rest) =
   Some (Ok (ParsedBlock
               (mkTextBlock (tb_id tb) (ctrlSeq tb) (anticursorPosition tb)
                  [mkTextPiece n s])), rest)).
Proof.
  intros Hws Hs. split.
  - intros ->. unfold TextBlock_parser, p_map.
    now rewrite (parser_literal ws "" rest Hws Hs).
  - now apply parser_block.
Qed.

Lemma parser_reads_to_first_close_witness :
  TextBlock_parser (mkTextBlock 10 "\text" None []) 11 "  {a{b}c}" =
  Some (Ok (ParsedBlock (mkTextBlock 10 "\text" None [mkTextPiece 11 "a{b"])),
        "c}").
Proof.
  apply (proj2 (parser_reads_to_first_close
                  (mkTextBlock 10 "\text" None []) 11 "  " "a{b" "c}"
                  eq_refl eq_refl)).
  - discriminate.
  - reflexivity.
Defined.

(** X16.  [parser()] fails, reading nothing, on an input that is only
    whitespace (the empty input too), on one whose first character after
    the whitespace is not [{], and on a literal that is never closed. *)
Theorem parser_fails (tb : TextBlock) (n : nat) (ws : string) :
  str_forall is_space ws = true ->
  TextBlock_parser tb n ws = None /\
  (forall c r, c <> "{"%char -> is_space c = false ->
     TextBlock_parser tb n (ws +++ String c r) = None) /\
  (forall s, no_close s = true ->
     TextBlock_parser tb n (ws +++ "{" +++ s) = None).
Proof.
  intros Hws.
  unfold TextBlock_parser, p_map, p_skip, p_then, optWhitespace, p_regex_class,
    p_string.
  split; [|split].
  - now rewrite (span_while_all is_space ws Hws).
  - intros c r Hc Hsp.
    rewrite (span_while_stop is_space ws c r Hws Hsp).
    cbn [strip_prefix].
    destruct (Ascii.eqb_spec "{" c) as [E|E]; [congruence | reflexivity].
  - intros s Hs.
    change (ws +++ "{" +++ s) with (ws +++ String "{" s).
    rewrite (span_while_stop is_space ws "{" s Hws is_space_open).
    cbn [strip_prefix]. rewrite Ascii.eqb_refl.
    now rewrite (span_while_all _ s Hs).
Qed.

Lemma parser_fails_witness :
  TextBlock_parser (mkTextBlock 10 "\text" None []) 11 " {never closed" = None.
Proof.
  exact (proj2 (proj2 (parser_fails (mkTextBlock 10 "\text" None []) 11 " "
                         eq_refl)) "never closed" eq_refl).
Defined.

(** The escaping never shortens, and keeps the length only of a text
    without brace and backslash. *)
Lemma length_escape (s : string) :
  String.length s <= String.length (escape s) /\
  (String.length (escape s) = String.length s -> str_forall plain_char s = true).
Proof.
  induction s as [|c s [IH1 IH2]]; [cbn; split; [lia | reflexivity]|].
  cbn [escape str_forall]. rewrite StrFacts.length_append.
  unfold escape_char, plain_char.
  destruct (Ascii.eqb c "\") eqn:Eb; [cbn; split; [lia | intros; lia]|].
  destruct (Ascii.eqb c "{") eqn:El; [cbn; split; [lia | intros; lia]|].
  destruct (Ascii.eqb c "}") eqn:Er; [cbn; split; [lia | intros; lia]|].
  cbn. split; [lia|]. intros E. apply IH2. lia.
Qed.

Lemma escape_no_close (s : string) :
  no_close s = true -> no_close (escape s) = true.
Proof.
  unfold no_close. induction s as [|c s IH]; [reflexivity|].
  cbn [str_forall escape]. intros H. apply andb_true_iff in H.
  destruct H as [Hc Hs]. apply negb_true_iff in Hc.
  unfold escape_char. rewrite Hc.
  destruct (Ascii.eqb c "\") eqn:Eb; [cbn; now apply IH|].
  destruct (Ascii.eqb c "{") eqn:El.
  - apply Ascii.eqb_eq in El. subst c. cbn. now apply IH.
  - cbn. rewrite Hc. cbn. now apply IH.
Qed.

Lemma escape_app (a b : string) : escape (a +++ b) = escape a +++ escape b.
Proof.
  induction a as [|c a IH]; [reflexivity|].
  cbn [String.append escape]. now rewrite IH, StrFacts.append_assoc.
Qed.

(** X17.  [latex()] of a block with text and no [}] in it is the control
    sequence and a literal that [parser()] reads back whole, into one piece.
    The piece holds the escaped text (each backslash as [\backslash ], each
    [{] as [\{]), not the text: the parser unescapes nothing, and the two
    agree exactly when the text has no brace and no backslash. *)
Theorem parse_of_latex (b tb : TextBlock) (n : nat) (rest : string) :
  textContents b <> "" ->
  no_close (textContents b) = true ->
  kids tb = [] ->
  exists body,
    latex b = ctrlSeq b +++ body /\
    TextBlock_parser tb n (body +++ rest) =
    Some (Ok (ParsedBlock
                (mkTextBlock (tb_id tb) (ctrlSeq tb) (anticursorPosition tb)
                   [mkTextPiece n
                      (replace_braces (replace_backslash (textContents b)))])),
          rest) /\
    (replace_braces (replace_backslash (textContents b)) = textContents b <->
     str_forall plain_char (textContents b) = true).
Proof.
  intros Hne Hs Hk. rewrite !replace_is_escape.
  exists ("{" +++ escape (textContents b) +++ "}").
  split.
  { rewrite latex_escape. destruct (textContents b); [congruence | reflexivity]. }
  split.
  - assert (He : escape (textContents b) <> "").
    { intros E. pose proof (proj1 (length_escape (textContents b))) as Hl.
      rewrite E in Hl. destruct (textContents b); [congruence | simpl in Hl; lia]. }
    rewrite <- (parser_block tb n "" (escape (textContents b)) rest
                  eq_refl (escape_no_close _ Hs) He Hk).
    f_equal. cbn [String.append]. f_equal. now rewrite !StrFacts.append_assoc.
  - split.
    + intros E. apply (proj2 (length_escape (textContents b))). now rewrite E.
    + apply escape_plain.
Qed.

Lemma parse_of_latex_witness :
  exists body,
    latex (mkTextBlock 10 "\text" None [mkTextPiece 1 "a\b"]) =
      "\text" +++ body /\
    TextBlock_parser (mkTextBlock 12 "\text" None []) 13 body =
    Some (Ok (ParsedBlock (mkTextBlock 12 "\text" None
                             [mkTextPiece 13 "a\backslash b"])), "").
Proof.
  destruct (parse_of_latex (mkTextBlock 10 "\text" None [mkTextPiece 1 "a\b"])
              (mkTextBlock 12 "\text" None []) 13 "")
    as (body & Lx & P & _).
  - discriminate.
  - reflexivity.
  - reflexivity.
  - exists body. split; [exact Lx|].
    rewrite StrFacts.append_nil_r in P. exact P.
Defined.

(** X18.  A [}] in the text does not come back: [latex()] writes it as
    [\}], and [parser()], reading the literal of [latex()], stops at that
    brace.  The piece it makes holds the escaped text before the brace and
    the backslash of the escape; the escaped remainder and the closing
    brace of the literal are left in the input. *)
Theorem parse_of_latex_with_close (b tb : TextBlock) (n : nat)
  (before after rest : string) :
  textContents b = before +++ "}" +++ after ->
  no_close before = true ->
  kids tb = [] ->
  exists body,
    latex b = ctrlSeq b +++ body /\
    TextBlock_parser tb n (body +++ rest) =
    Some (Ok (ParsedBlock
                (mkTextBlock (tb_id tb) (ctrlSeq tb) (anticursorPosition tb)
                   [mkTextPiece n
                      (replace_braces (replace_backslash before) +++ "\")])),
          replace_braces (replace_backslash after) +++ "}" +++ rest).
Proof.
  intros Ht Hs Hk. rewrite !replace_is_escape.
  exists ("{" +++ escape (textContents b) +++ "}").
  split.
  { rewrite latex_escape. rewrite Ht.
    destruct before; reflexivity. }
  assert (Hs' : no_close (escape before +++ "\") = true).
  { unfold no_close.
    assert (G : forall x y, str_forall (fun c => negb (Ascii.eqb c "}")) x = true ->
                  str_forall (fun c => negb (Ascii.eqb c "}")) y = true ->
                  str_forall (fun c => negb (Ascii.eqb c "}")) (x +++ y) = true).
    { intros x y Hx Hy. induction x as [|c x IH]; [exact Hy|].
      cbn in *. apply andb_true_iff in Hx. destruct Hx as [H1 H2].
      now rewrite H1, (IH H2). }
    apply G; [now apply escape_no_close | reflexivity]. }
  rewrite <- (parser_block tb n "" (escape before +++ "\")
                (escape after +++ "}" +++ rest) eq_refl Hs').
  - f_equal. rewrite Ht, !escape_app. cbn [escape String.append].
    change (escape_char "}" +++ "") with "\}".
    f_equal. rewrite !StrFacts.append_assoc. reflexivity.
  - destruct (escape before); discriminate.
  - exact Hk.
Qed.

Lemma parse_of_latex_with_close_witness :
  exists body,
    latex (mkTextBlock 10 "\text" None [mkTextPiece 1 "a}b"]) =
      "\text" +++ body /\
    TextBlock_parser (mkTextBlock 12 "\text" None []) 13 body =
    Some (Ok (ParsedBlock (mkTextBlock 12 "\text" None [mkTextPiece 13 "a\"])),
          "b}").
Proof.
  destruct (parse_of_latex_with_close
              (mkTextBlock 10 "\text" None [mkTextPiece 1 "a}b"])
              (mkTextBlock 12 "\text" None []) 13 "a" "b" "")
    as (body & Lx & P).
  - reflexivity.
  - reflexivity.
  - reflexivity.
  - exists body. split; [exact Lx|].
    rewrite StrFacts.append_nil_r in P. exact P.
Defined.
